(** * The step-function executor of pkg/execution/executor/executor.go

    A shallow embedding of the executor: scheduling a run, executing a step,
    interpreting the opcodes a driver returns, matching events against
    pauses, cancelling and resuming runs.

    The executor talks to collaborators that live outside this file (state
    store, queue, runtime drivers, expression aggregator, lifecycle
    listeners, clock, random source).  Every such call is an event of the
    signature [E]; an executor method is a finite program [Prog R] over
    these events, and [interp] interprets a program against an arbitrary
    handler, giving the outcome and the trace of calls with their answers.
    Theorems quantify over all handlers, so they hold whatever the
    collaborators answer.

    Conventions: a Go [error] is [option error] ([None] is nil); a pointer
    that may be nil is an [option]; [time.Time] is an instant in
    nanoseconds since the epoch ([Z]); [int32] counters wrap around, and so
    does an [int] that is added to (64 bits); a [float64] is a binary64
    float.  A method called on a nil collaborator panics, as in Go; the
    state manager is never nil, [NewExecutor] refusing to build an
    executor without one.  Goroutines started with [go] for lifecycle
    listeners are recorded at the point where they are started.  Tracing
    spans and log lines are left out. *)

From Stdlib Require Import ZArith NArith List String Ascii Bool Lia.
From Stdlib Require Import DecimalString DecimalFacts DecimalPos DecimalN.
From Stdlib Require Floats.SpecFloat.
Import ListNotations.
Open Scope string_scope.
Open Scope Z_scope.
Set Warnings "-register-all".

(** ** Identifiers *)

(** google/uuid: a 128-bit value. *)
Definition UUID := N.

(** oklog/ulid: 48 bits of Unix milliseconds followed by 80 bits of entropy. *)
Record ULID := mkULID { ulid_ms : N; ulid_entropy : N }.

Definition ULID_Time (u : ULID) : N := ulid_ms u.

Definition MaxTime : N := 281474976710655.

Definition crockford : string := "0123456789ABCDEFGHJKMNPQRSTVWXYZ".

Definition enc5 (n : N) : ascii :=
  match String.get (N.to_nat (N.land n 31)) crockford with
  | Some c => c
  | None => "0"%char
  end.

(** [k] base-32 characters of [n], most significant first. *)
Fixpoint enc_digits (k : nat) (n : N) : string :=
  match k with
  | O => ""
  | S k' => String (enc5 (N.shiftr n (5 * N.of_nat k'))) (enc_digits k' n)
  end.

(** [ULID.String]: 10 characters of time, 16 of entropy. *)
Definition ULID_String (u : ULID) : string :=
  enc_digits 10 (ulid_ms u) ++ enc_digits 16 (ulid_entropy u).

Definition ULID_eqb (a b : ULID) : bool :=
  (ulid_ms a =? ulid_ms b)%N && (ulid_entropy a =? ulid_entropy b)%N.

(** [%d] of an unsigned integer. *)
Definition fmt_d (n : N) : string := NilZero.string_of_uint (N.to_uint n).

(** ** Errors *)

Inductive error : Type :=
| ErrRuntimeRegistered
| ErrNoStateManager
| ErrNoActionLoader
| ErrNoRuntimeDriver
| ErrFunctionDebounced
| ErrFunctionSkipped
| ErrFunctionEnded
| ErrHandledStepError
| ErrIdentifierExists       (* state.ErrIdentifierExists *)
| ErrDuplicateResponse      (* state.ErrDuplicateResponse *)
| ErrPauseAlreadyExists     (* state.ErrPauseAlreadyExists *)
| ErrPauseLeased            (* state.ErrPauseLeased *)
| ErrPauseNotFound          (* state.ErrPauseNotFound *)
| ErrFunctionCancelled      (* state.ErrFunctionCancelled *)
| ErrFunctionComplete       (* state.ErrFunctionComplete *)
| ErrFunctionFailed         (* state.ErrFunctionFailed *)
| ErrQueueItemExists        (* redis_state.ErrQueueItemExists *)
| ContextCanceled           (* context.Canceled *)
| ErrOther (msg : string)                    (* any other error value *)
| Errorf (prefix : string) (e : error)       (* fmt.Errorf("prefix: %w", e) *)
| ErrorfNil (prefix : string)                (* fmt.Errorf("prefix: %w", nil) *)
| ErrJoin (a b : error)                      (* errors.Join(a, b) *)
| ErrJoin1 (b : error)                       (* errors.Join(nil, b) *)
| NeverRetryError (e : error)                (* queue.NeverRetryError *)
| RetryAtError (e : error) (at_ : Z)         (* queue.RetryAtError *)
| ExecError (e : error) (final : bool)       (* execError{err, final} *)
| RespError (msg : string).                  (* a DriverResponse returned as error *)

(** Comparison with a sentinel by [==]: only the sentinel itself is equal. *)
Definition is_sentinel (e : error) : bool :=
  match e with
  | ErrOther _ | Errorf _ _ | ErrorfNil _ | ErrJoin _ _ | ErrJoin1 _
  | NeverRetryError _ | RetryAtError _ _ | ExecError _ _ | RespError _ => false
  | _ => true
  end.

Definition error_tag (e : error) : nat :=
  match e with
  | ErrRuntimeRegistered => 0 | ErrNoStateManager => 1 | ErrNoActionLoader => 2
  | ErrNoRuntimeDriver => 3 | ErrFunctionDebounced => 4 | ErrFunctionSkipped => 5
  | ErrFunctionEnded => 6 | ErrHandledStepError => 7 | ErrIdentifierExists => 8
  | ErrDuplicateResponse => 9 | ErrPauseAlreadyExists => 10 | ErrPauseLeased => 11
  | ErrPauseNotFound => 12 | ErrFunctionCancelled => 13 | ErrFunctionComplete => 14
  | ErrFunctionFailed => 15 | ErrQueueItemExists => 16 | ContextCanceled => 17
  | ErrOther _ => 18 | Errorf _ _ => 19 | ErrorfNil _ => 20 | ErrJoin _ _ => 21
  | ErrJoin1 _ => 22 | NeverRetryError _ => 23 | RetryAtError _ _ => 24
  | ExecError _ _ => 25 | RespError _ => 26
  end%nat.

(** [err == target] for a sentinel [target]. *)
Definition err_is (err : option error) (target : error) : bool :=
  match err with
  | Some e => is_sentinel e && Nat.eqb (error_tag e) (error_tag target)
  | None => false
  end.

(** [errors.Is(err, target)]: [target] is found along the chain of wrapped
    errors ([%w], joined errors, the wrappers' [Unwrap]). *)
Fixpoint errors_Is (err : error) (target : error) : bool :=
  match err with
  | Errorf _ e | ErrJoin1 e | NeverRetryError e | RetryAtError e _
  | ExecError e _ => errors_Is e target
  | ErrJoin a b => errors_Is a target || errors_Is b target
  | ErrOther _ | ErrorfNil _ | RespError _ => false
  | _ => Nat.eqb (error_tag err) (error_tag target)
  end.

Definition errors_Is_opt (err : option error) (target : error) : bool :=
  match err with Some e => errors_Is e target | None => false end.

(** [errors.Join(goerr, e)] for a possibly nil accumulator [goerr]. *)
Definition errors_Join (goerr : option error) (e : error) : option error :=
  match goerr with
  | Some g => Some (ErrJoin g e)
  | None => Some (ErrJoin1 e)
  end.

(** [strings.Contains]. *)
Fixpoint strings_Contains (s sub : string) : bool :=
  prefix sub s ||
  match s with
  | EmptyString => false
  | String _ s' => strings_Contains s' sub
  end.

Definition isSome {A : Type} (o : option A) : bool :=
  match o with Some _ => true | None => false end.

(** ** The expression language *)

(** Modelled from the spec: the expression evaluator (pkg/expressions, a
    wrapper of CEL) is not part of this file.  This is the fragment of CEL
    that the synthesized clauses are written in: literals, attribute paths,
    comparisons, [!], [&&] and [||] with their usual precedence, and
    parentheses.  [&&] and [||] absorb an error of one operand when the
    other operand decides the result. *)
Module CEL.

Inductive value := VNull | VBool (b : bool) | VInt (n : Z) | VStr (s : string).

Inductive relop := REq | RNe | RGt | RGe | RLt | RLe.

Inductive expr :=
| ELit (v : value)
| EVar (path : string)
| ENot (a : expr)
| ERel (op : relop) (a b : expr)
| EAnd (a b : expr)
| EOr (a b : expr).

Inductive token :=
| TLParen | TRParen | TAnd | TOr | TNot
| TRel (op : relop)
| TInt (n : N)
| TStr (s : string)
| TIdent (s : string).

(** The state of the lexer between two characters. *)
Inductive lstate :=
| LNone
| LIdent (acc : string)
| LNum (acc : Decimal.uint)          (* the digits read, last one first *)
| LOp (c : ascii)
| LStr (quote : ascii) (acc : string).

Definition digit_of (c : ascii) : option (Decimal.uint -> Decimal.uint) :=
  match c with
  | "0" => Some Decimal.D0 | "1" => Some Decimal.D1 | "2" => Some Decimal.D2
  | "3" => Some Decimal.D3 | "4" => Some Decimal.D4 | "5" => Some Decimal.D5
  | "6" => Some Decimal.D6 | "7" => Some Decimal.D7 | "8" => Some Decimal.D8
  | "9" => Some Decimal.D9
  | _ => None
  end%char.

Definition is_letter (c : ascii) : bool :=
  let n := nat_of_ascii c in
  ((65 <=? n) && (n <=? 90) || (97 <=? n) && (n <=? 122) || (n =? 95))%nat.

Definition is_op_char (c : ascii) : bool :=
  match c with
  | "=" | "!" | "<" | ">" | "&" | "|" => true
  | _ => false
  end%char.

(** A single or a double quote. *)
Definition is_quote (c : ascii) : bool :=
  let n := nat_of_ascii c in ((n =? 34) || (n =? 39))%nat.

(** A character read in state [LNone]. *)
Definition start (c : ascii) : option (list token * lstate) :=
  match c with
  | " "%char => Some ([], LNone)
  | "("%char => Some ([TLParen], LNone)
  | ")"%char => Some ([TRParen], LNone)
  | _ =>
      match digit_of c with
      | Some d => Some ([], LNum (d Decimal.Nil))
      | None =>
          if is_quote c then Some ([], LStr c "")
          else if is_letter c then Some ([], LIdent (String c ""))
          else if is_op_char c then Some ([], LOp c)
          else None
      end
  end.

(** The token of a one-character operator. *)
Definition op1 (c : ascii) : option token :=
  match c with
  | "<"%char => Some (TRel RLt)
  | ">"%char => Some (TRel RGt)
  | "!"%char => Some TNot
  | _ => None
  end.

(** The token of a two-character operator. *)
Definition op2 (c d : ascii) : option token :=
  match c, d with
  | "="%char, "="%char => Some (TRel REq)
  | "!"%char, "="%char => Some (TRel RNe)
  | "<"%char, "="%char => Some (TRel RLe)
  | ">"%char, "="%char => Some (TRel RGe)
  | "&"%char, "&"%char => Some TAnd
  | "|"%char, "|"%char => Some TOr
  | _, _ => None
  end.

Definition emit_then_start (t : token) (c : ascii) : option (list token * lstate) :=
  match start c with
  | Some (ts, st) => Some (t :: ts, st)
  | None => None
  end.

Definition step (st : lstate) (c : ascii) : option (list token * lstate) :=
  match st with
  | LNone => start c
  | LIdent acc =>
      if is_letter c || isSome (digit_of c) || Ascii.eqb c "."
      then Some ([], LIdent (acc ++ String c ""))
      else emit_then_start (TIdent acc) c
  | LNum acc =>
      match digit_of c with
      | Some d => Some ([], LNum (d acc))
      | None => emit_then_start (TInt (N.of_uint (Decimal.rev acc))) c
      end
  | LOp o =>
      match op2 o c with
      | Some t => Some ([t], LNone)
      | None =>
          match op1 o with
          | Some t => emit_then_start t c
          | None => None
          end
      end
  | LStr q acc =>
      if Ascii.eqb c q then Some ([TStr acc], LNone)
      else Some ([], LStr q (acc ++ String c ""))
  end.

Definition finish (st : lstate) : option (list token) :=
  match st with
  | LNone => Some []
  | LIdent acc => Some [TIdent acc]
  | LNum acc => Some [TInt (N.of_uint (Decimal.rev acc))]
  | LOp o => match op1 o with Some t => Some [t] | None => None end
  | LStr _ _ => None
  end.

Fixpoint lex_from (st : lstate) (s : string) : option (list token) :=
  match s with
  | EmptyString => finish st
  | String c s' =>
      match step st c with
      | Some (ts, st') =>
          match lex_from st' s' with
          | Some rest => Some (ts ++ rest)%list
          | None => None
          end
      | None => None
      end
  end.

Definition lex (s : string) : option (list token) := lex_from LNone s.

(** The lexer run over a prefix of the input: the tokens emitted and the
    state reached. *)
Fixpoint lex_run (st : lstate) (s : string) : option (list token * lstate) :=
  match s with
  | EmptyString => Some ([], st)
  | String c s' =>
      match step st c with
      | Some (ts, st') =>
          match lex_run st' s' with
          | Some (rest, st'') => Some ((ts ++ rest)%list, st'')
          | None => None
          end
      | None => None
      end
  end.

(** The levels of the grammar, loosest first; a tail level carries the
    left operand read so far. *)
Inductive level :=
| LvOr | LvOrTail (a : expr)
| LvAnd | LvAndTail (a : expr)
| LvRel
| LvUnary.

Definition ident_expr (s : string) : expr :=
  if String.eqb s "null" then ELit VNull
  else if String.eqb s "true" then ELit (VBool true)
  else if String.eqb s "false" then ELit (VBool false)
  else EVar s.

Fixpoint parse_level (fuel : nat) (lvl : level) (ts : list token)
  : option (expr * list token) :=
  match fuel with
  | O => None
  | S fuel' =>
      match lvl with
      | LvOr =>
          match parse_level fuel' LvAnd ts with
          | Some (a, rest) => parse_level fuel' (LvOrTail a) rest
          | None => None
          end
      | LvOrTail a =>
          match ts with
          | TOr :: rest =>
              match parse_level fuel' LvAnd rest with
              | Some (b, rest') => parse_level fuel' (LvOrTail (EOr a b)) rest'
              | None => None
              end
          | _ => Some (a, ts)
          end
      | LvAnd =>
          match parse_level fuel' LvRel ts with
          | Some (a, rest) => parse_level fuel' (LvAndTail a) rest
          | None => None
          end
      | LvAndTail a =>
          match ts with
          | TAnd :: rest =>
              match parse_level fuel' LvRel rest with
              | Some (b, rest') => parse_level fuel' (LvAndTail (EAnd a b)) rest'
              | None => None
              end
          | _ => Some (a, ts)
          end
      | LvRel =>
          match parse_level fuel' LvUnary ts with
          | Some (a, TRel op :: rest) =>
              match parse_level fuel' LvUnary rest with
              | Some (b, rest') => Some (ERel op a b, rest')
              | None => None
              end
          | other => other
          end
      | LvUnary =>
          match ts with
          | TNot :: rest =>
              match parse_level fuel' LvUnary rest with
              | Some (a, rest') => Some (ENot a, rest')
              | None => None
              end
          | TLParen :: rest =>
              match parse_level fuel' LvOr rest with
              | Some (a, TRParen :: rest') => Some (a, rest')
              | _ => None
              end
          | TInt n :: rest => Some (ELit (VInt (Z.of_N n)), rest)
          | TStr s :: rest => Some (ELit (VStr s), rest)
          | TIdent s :: rest => Some (ident_expr s, rest)
          | _ => None
          end
      end
  end.

(** Modelled from the spec: compilation of an expression of the fragment. *)
Definition parse (s : string) : option expr :=
  match lex s with
  | Some ts =>
      match parse_level (8 * List.length ts + 8) LvOr ts with
      | Some (a, []) => Some a
      | _ => None
      end
  | None => None
  end.

(** The attributes of the evaluation: a path is bound to a value or absent. *)
Definition env := string -> option value.

Definition value_eqb (a b : value) : bool :=
  match a, b with
  | VNull, VNull => true
  | VBool x, VBool y => Bool.eqb x y
  | VInt x, VInt y => Z.eqb x y
  | VStr x, VStr y => String.eqb x y
  | _, _ => false
  end.

Definition rel (op : relop) (a b : value) : option bool :=
  match op with
  | REq => Some (value_eqb a b)
  | RNe => Some (negb (value_eqb a b))
  | _ =>
      match a, b with
      | VInt x, VInt y =>
          Some match op with
               | RGt => Z.ltb y x | RGe => Z.leb y x
               | RLt => Z.ltb x y | _ => Z.leb x y
               end
      | _, _ => None
      end
  end.

Definition as_bool (v : option value) : option bool :=
  match v with Some (VBool b) => Some b | _ => None end.

(** Modelled from the spec: evaluation of an expression of the fragment;
    [None] is an evaluation error. *)
Fixpoint eval (rho : env) (x : expr) : option value :=
  match x with
  | ELit v => Some v
  | EVar p => rho p
  | ENot a =>
      match as_bool (eval rho a) with
      | Some b => Some (VBool (negb b))
      | None => None
      end
  | ERel op a b =>
      match eval rho a, eval rho b with
      | Some u, Some v =>
          match rel op u v with Some r => Some (VBool r) | None => None end
      | _, _ => None
      end
  | EAnd a b =>
      match as_bool (eval rho a), as_bool (eval rho b) with
      | Some false, _ | _, Some false => Some (VBool false)
      | Some true, Some true => Some (VBool true)
      | _, _ => None
      end
  | EOr a b =>
      match as_bool (eval rho a), as_bool (eval rho b) with
      | Some true, _ | _, Some true => Some (VBool true)
      | Some false, Some false => Some (VBool false)
      | _, _ => None
      end
  end.

(** Modelled from the spec: an expression matches when it compiles and
    evaluates to the boolean [true], which is what the pause handlers require
    of [Evaluate]. *)
Definition matches (s : string) (rho : env) : bool :=
  match parse s with
  | Some x => match eval rho x with Some (VBool true) => true | _ => false end
  | None => false
  end.

(** The attributes of an incoming event that the clauses read: [async.ts]. *)
Definition async_ts (ts : value) : env :=
  fun p => if String.eqb p "async.ts" then Some ts else None.

End CEL.

(** ** Data model *)

(** Values of type [any] and [map[string]any]. *)
Inductive json : Type :=
| JNull
| JBool (b : bool)
| JNum (n : Z)
| JStr (s : string)
| JArr (l : list json)
| JObj (l : list (string * json)).

Definition jmap := list (string * json).

Fixpoint jmap_get (k : string) (m : jmap) : option json :=
  match m with
  | [] => None
  | (k', v) :: m' => if String.eqb k k' then Some v else jmap_get k m'
  end.

(** A [time.Time], in nanoseconds. *)
Definition Time := Z.
Definition time_Before (a b : Time) : bool := a <? b.
Definition time_After (a b : Time) : bool := b <? a.
Definition time_Add (t : Time) (d : Z) : Time := t + d.
Definition time_UnixMilli (ms : Z) : Time := ms * 1000000.
Definition Time_UnixMilli (t : Time) : Z := t / 1000000.

(** [event.Event] and [event.TrackedEvent]. *)
Record Event := mkEvent {
  evt_ID : string;
  evt_Name : string;
  evt_Data : jmap;
  evt_Timestamp : Z          (* int64, Unix milliseconds *)
}.

Record TrackedEvent := mkTrackedEvent {
  GetInternalID : ULID;
  GetEvent : Event;
  GetWorkspaceID : UUID
}.

Record CustomConcurrency := mkCustomConcurrency {
  cc_Key : string;
  cc_Hash : string;
  cc_Limit : Z
}.

(** [state.Identifier]. *)
Record Identifier := mkIdentifier {
  id_WorkflowID : UUID;
  id_WorkflowVersion : Z;
  id_RunID : ULID;
  id_BatchID : option ULID;
  id_EventID : ULID;
  id_EventIDs : list ULID;
  id_Key : string;
  id_AccountID : UUID;
  id_WorkspaceID : UUID;
  id_AppID : UUID;
  id_OriginalRunID : option ULID;
  id_ReplayID : option UUID;
  id_CustomConcurrencyKeys : list CustomConcurrency;
  id_PriorityFactor : option Z
}.

(** [inngest.Edge]. *)
Record Edge := mkEdge {
  Outgoing : string;
  Incoming : string;
  IncomingGeneratorStep : string
}.

(** [state.Pause]. *)
Record Pause := mkPause {
  p_ID : UUID;
  p_WorkspaceID : UUID;
  p_Identifier : Identifier;
  p_GroupID : string;
  p_Outgoing : string;
  p_Incoming : string;
  p_StepName : string;
  p_Opcode : option string;
  p_Expires : Time;
  p_Event : option string;
  p_Expression : option string;
  p_ExpressionData : jmap;
  p_DataKey : string;
  p_OnTimeout : bool;
  p_Cancel : bool;
  p_TriggeringEventID : option string;
  p_InvokeCorrelationID : option string;
  p_InvokeTargetFnID : option string;
  p_StepSpanID : option string;
  p_TraceStartedAt : option Time
}.

Inductive Kind := KindStart | KindEdge | KindEdgeError | KindSleep | KindPause.

Inductive Payload :=
| PayloadEdge (e : Edge)
| PayloadPauseTimeout (PauseID : UUID) (OnTimeout : bool).

Record Throttle := mkThrottle {
  th_Key : string;
  th_Limit : Z;
  th_Burst : Z;
  th_Period : Z
}.

(** [queue.Item]. *)
Record Item := mkItem {
  it_JobID : option string;
  it_GroupID : string;
  it_WorkspaceID : UUID;
  it_Kind : Kind;
  it_Identifier : Identifier;
  it_Attempt : Z;
  it_MaxAttempts : option Z;
  it_Payload : Payload;
  it_Throttle : option Throttle;
  it_Metadata : jmap
}.

Definition set_Attempt (it : Item) (a : Z) : Item :=
  mkItem (it_JobID it) (it_GroupID it) (it_WorkspaceID it) (it_Kind it)
         (it_Identifier it) a (it_MaxAttempts it) (it_Payload it) (it_Throttle it)
         (it_Metadata it).

Definition set_GroupID (it : Item) (g : string) : Item :=
  mkItem (it_JobID it) g (it_WorkspaceID it) (it_Kind it)
         (it_Identifier it) (it_Attempt it) (it_MaxAttempts it) (it_Payload it)
         (it_Throttle it) (it_Metadata it).

Definition set_MaxAttempts_Payload (it : Item) (m : option Z) (p : Payload) : Item :=
  mkItem (it_JobID it) (it_GroupID it) (it_WorkspaceID it) (it_Kind it)
         (it_Identifier it) (it_Attempt it) m p (it_Throttle it) (it_Metadata it).

(** [enums.Opcode]. *)
Inductive Opcode :=
| OpcodeNone | OpcodeStep | OpcodeStepRun | OpcodeStepError | OpcodeStepPlanned
| OpcodeSleep | OpcodeWaitForEvent | OpcodeInvokeFunction
| OpcodeUnknown (n : Z).

Record UserError := mkUserError {
  ue_Name : string;
  ue_Message : string;
  ue_NoRetry : bool
}.

(** [state.GeneratorOpcode]. *)
Record GeneratorOpcode := mkGen {
  gen_Op : Opcode;
  gen_ID : string;
  gen_Name : string;
  gen_Opts : json;
  gen_Data : json;
  gen_Error : option UserError
}.

Definition set_Opts (g : GeneratorOpcode) (o : json) : GeneratorOpcode :=
  mkGen (gen_Op g) (gen_ID g) (gen_Name g) o (gen_Data g) (gen_Error g).

(** [inngest.Step] and [inngest.Function]. *)
Record Step := mkStep {
  step_ID : string;
  step_Name : string;
  step_URI : string;
  step_Retries : option Z
}.

Record Cancel_ := mkCancel {
  c_Event : string;
  c_Timeout : option string;
  c_If : option string
}.

Inductive ConcurrencyScope := ConcurrencyScopeFn | ConcurrencyScopeEnv | ConcurrencyScopeAccount.

Record ConcurrencyLimit := mkLimit {
  lim_Limit : Z;
  lim_Key : option string;
  lim_Scope : ConcurrencyScope;
  lim_Hash : string
}.

Record FnThrottle := mkFnThrottle {
  fth_Limit : Z;
  fth_Period : Z;            (* a time.Duration, nanoseconds *)
  fth_Burst : Z;
  fth_Key : option string
}.

Record Function := mkFunction {
  fn_ID : UUID;
  fn_FunctionVersion : Z;
  fn_Slug : string;
  fn_Debounce : bool;                          (* Debounce != nil *)
  fn_Cancel : list Cancel_;
  fn_Concurrency : option (list ConcurrencyLimit);
  fn_Throttle : option FnThrottle;
  fn_Steps : list Step
}.

(** [enums.RunStatus]. *)
Inductive RunStatus :=
| RunStatusScheduled | RunStatusRunning | RunStatusCompleted | RunStatusFailed
| RunStatusCancelled | RunStatusOverflowed.

(** [state.Metadata] and [state.MetadataUpdate]. *)
Record Metadata := mkMetadata {
  md_Identifier : Identifier;
  md_Status : RunStatus;
  md_StartedAt : option Time;                  (* None is the zero time *)
  md_Context : jmap;
  md_DisableImmediateExecution : bool;
  md_Debugger : bool;
  md_RequestVersion : Z;
  md_SpanID : option string
}.

Record MetadataUpdate := mkMetadataUpdate {
  mu_Context : jmap;
  mu_Debugger : bool;
  mu_DisableImmediateExecution : bool;
  mu_RequestVersion : Z;
  mu_SpanID : string;
  mu_StartedAt : option Time
}.

(** A loaded [state.State]: a snapshot of the run. *)
Record State := mkState {
  st_Metadata : Metadata;
  st_Identifier : Identifier;
  st_Function : Function;
  st_Events : list jmap;
  st_Event : jmap;                             (* the triggering event *)
  st_ActionID : string -> option json          (* stored output of a step *)
}.

(** [state.DriverResponse]. *)
Record DriverResponse := mkResp {
  r_Step : Step;
  r_RequestVersion : Z;
  r_Generator : list (option GeneratorOpcode);
  r_Output : option json;
  r_UserError : option jmap;
  r_Err : option string;
  r_RetryAt : option Time;
  r_NoRetry : bool;
  r_final : bool;
  r_StatusCode : Z
}.

(** [state.Input], the argument of [state.Manager.New]. *)
Record Input := mkInput {
  in_Identifier : Identifier;
  in_EventBatchData : list jmap;
  in_Context : jmap;
  in_SpanID : string
}.

(** [execution.ScheduleRequest]. *)
Record ScheduleRequest := mkScheduleRequest {
  req_Function : Function;
  req_At : option Time;
  req_AccountID : UUID;
  req_WorkspaceID : UUID;
  req_AppID : UUID;
  req_OriginalRunID : option ULID;
  req_ReplayID : option UUID;
  req_Events : list TrackedEvent;
  req_BatchID : option ULID;
  req_IdempotencyKey : option string;
  req_Context : option jmap;
  req_PreventDebounce : bool;
  req_FunctionPausedAt : option Time
}.

(** [execution.CancelRequest] and [execution.ResumeRequest]. *)
Record CancelRequest := mkCancelRequest {
  cr_EventID : option ULID;
  cr_Expression : option string
}.

Record ResumeRequest := mkResumeRequest {
  rr_With : option jmap;
  rr_EventID : option ULID;
  rr_RunID : option ULID;
  rr_StepName : string
}.

(** [state.ResumeData], built by [Pause.GetResumeData]. *)
Record ResumeData := mkResumeData {
  rd_With : option jmap;
  rd_RunID : option ULID;
  rd_StepName : string
}.

(** [execution.HandlePauseResult]: [attempted, consumed], two [int32]. *)
Definition HandlePauseResult := (Z * Z)%type.

Definition int32_wrap (z : Z) : Z := (z + 2147483648) mod 4294967296 - 2147483648.

(** Go's [int], 64 bits wide: [x += 1] wraps around. *)
Definition int_wrap (z : Z) : Z :=
  (z + 9223372036854775808) mod 18446744073709551616 - 9223372036854775808.

(** A [float64]: the binary64 floats of the Standard Library's
    specification of IEEE 754 arithmetic, rounding to nearest, ties to
    even. *)
Definition float64 : Type := SpecFloat.spec_float.

(** [float64(i)] for an integer [i]. *)
Definition float64_of_int (z : Z) : float64 :=
  SpecFloat.binary_normalize 53 1024 z 0 false.

(** [int(f)] for a float [f]: the fraction is dropped. *)
Definition int_of_float64 (f : float64) : Z :=
  match f with
  | SpecFloat.S754_finite s m ex =>
      let v := if 0 <=? ex then Z.pos m * 2 ^ ex else Z.pos m / 2 ^ (- ex) in
      if s then - v else v
  | _ => 0
  end.

(** [time.Duration.Seconds]:
    [float64(d / Second) + float64(d % Second) / 1e9]. *)
Definition Duration_Seconds (d : Z) : float64 :=
  SpecFloat.SFadd 53 1024
    (float64_of_int (Z.quot d 1000000000))
    (SpecFloat.SFdiv 53 1024 (float64_of_int (Z.rem d 1000000000))
                     (float64_of_int 1000000000)).

(** [atomic.AddInt32(&res[i], 1)]. *)
Definition inc_attempted (r : HandlePauseResult) : HandlePauseResult :=
  (int32_wrap (fst r + 1), snd r).
Definition inc_consumed (r : HandlePauseResult) : HandlePauseResult :=
  (fst r, int32_wrap (snd r + 1)).

(** [debounce.DebounceItem]. *)
Record DebounceItem := mkDebounceItem {
  di_AccountID : UUID;
  di_WorkspaceID : UUID;
  di_AppID : UUID;
  di_FunctionID : UUID;
  di_FunctionVersion : Z;
  di_EventID : ULID;
  di_Event : Event
}.

(** [state.WaitForEventOpts] and [state.InvokeFunctionOpts]. *)
Record WaitForEventOpts := mkWaitOpts {
  wo_Event : string;
  wo_Timeout : string;
  wo_If : option string
}.

Record InvokeFunctionOpts := mkInvokeOpts {
  io_FunctionID : string;
  io_Payload : option Event;
  io_Timeout : string
}.

(** An [expressions.Evaluator] compiled from an expression. *)
Record Evaluator := mkEvaluator {
  ev_Evaluate : jmap -> json * option error;
  ev_FilteredAttributes : jmap -> jmap
}.

(** [state.PauseIterator]: the values it yields (a nil pause is [None]),
    its count estimate and its final error. *)
Record PauseIterator := mkIter {
  iter_Vals : list (option Pause);
  iter_Count : Z;
  iter_Error : option error
}.

(** [OpcodeGroup], built by [opGroups(...).All()]. *)
Record OpcodeGroup := mkGroup {
  Opcodes : list (option GeneratorOpcode);
  ShouldStartHistoryGroup : bool
}.

(** ** Code of the repository and of its libraries outside this file

    Pure helpers the executor calls; they are parameters of the development. *)
Class Externals := {
  TriggerName : string;                              (* inngest.TriggerName *)
  SourceEdge : Edge;                                 (* inngest.SourceEdge *)
  CancelTimeout : Z;                                 (* consts.CancelTimeout *)
  FnFailedName : string;                             (* event.FnFailedName *)
  FnFinishedName : string;                           (* event.FnFinishedName *)
  InngestEventDataPrefix : string;
  InvokeCorrelationId : string;
  NameSpaceOID : UUID;                               (* uuid.NameSpaceOID *)
  NewSHA1 : UUID -> string -> UUID;                  (* uuid.NewSHA1, version 5 *)
  UUID_String : UUID -> string;
  strconv_Quote : string -> string;
  fmt_v : json -> string;                            (* fmt.Sprintf("%v", _) *)
  HashID : string -> string;                         (* redis_state.HashID *)
  error_Error : error -> string;                     (* err.Error() *)
  json_Marshal : option json -> error + string;
  Identifier_IdempotencyKey : Identifier -> string;
  Pause_Edge : Pause -> Edge;
  Pause_GetResumeData : Pause -> Event -> ResumeData;
  Item_GetMaxAttempts : Item -> Z;
  ShouldRetry : Z -> Z -> bool;                      (* queue.ShouldRetry(nil, _, _) *)
  Step_RetryCount : Step -> Z;
  Step_Driver : Step -> string;
  Opcode_String : Opcode -> string;
  Gen_Output : GeneratorOpcode -> error + string;
  Gen_SleepDuration : GeneratorOpcode -> error + Z;
  Gen_WaitForEventOpts : GeneratorOpcode -> error + WaitForEventOpts;
  Gen_InvokeFunctionOpts : GeneratorOpcode -> error + InvokeFunctionOpts;
  Gen_UserDefinedName : GeneratorOpcode -> string;
  WaitForEventOpts_any : WaitForEventOpts -> json;   (* the struct as an [any] *)
  Event_Map : Event -> jmap;
  Event_CronSchedule : Event -> option string;
  Event_CorrelationID : Event -> string;
  ulid_Parse : string -> option ULID;
  Data_Add : jmap -> jmap -> jmap;                (* expressions.Data.Add *)
  with_trace_carrier : jmap -> jmap;
  extractTraceCtxFromMap_ok : jmap -> bool;
  StandardError : DriverResponse -> jmap;
  Resp_SetError : DriverResponse -> error -> DriverResponse;
  Resp_SetFinal : DriverResponse -> DriverResponse;
  ParseDuration : string -> error + Z;               (* str2duration.ParseDuration *)
  NewExpressionEvaluator : string -> error + Evaluator;
  expressions_Validate : string -> option error;
  expressions_Evaluate : string -> jmap -> json;
  Interpolate : string -> jmap -> string * option error;
  state_ExpressionData : State -> jmap;
  IsCustomLimit : ConcurrencyLimit -> bool;
  limit_Evaluate : ConcurrencyLimit -> UUID -> jmap -> string;
  RunPriorityFactor : Function -> jmap -> Z;
  Resp_Retryable : DriverResponse -> bool;
  Resp_Error : DriverResponse -> string;
  opGroups_All : list (option GeneratorOpcode) -> list OpcodeGroup
}.

(** ** Calls to collaborators *)

Definition Listener := nat.

(** The methods of [execution.LifecycleListener] the executor calls. *)
Inductive LifecycleCall : Type :=
| OnFunctionScheduled (id : Identifier) (item : Item) (s : State)
| OnFunctionStarted (id : Identifier) (item : Item) (s : State)
| OnFunctionFinished (id : Identifier) (item : Item) (resp : DriverResponse) (s : State)
| OnFunctionCancelled (id : Identifier) (req : CancelRequest) (s : State)
| OnFunctionSkipped (id : Identifier) (cron : option string)
| OnStepStarted (id : Identifier) (item : Item) (edge : Edge) (step : Step) (s : State)
| OnStepScheduled (id : Identifier) (item : Item) (name : option string)
| OnStepFinished (id : Identifier) (item : Item) (edge : Edge) (step : Step)
                 (resp : DriverResponse)
| OnSleep (id : Identifier) (item : Item) (gen : GeneratorOpcode) (until : Time)
| OnWaitForEvent (id : Identifier) (item : Item) (gen : GeneratorOpcode)
| OnWaitForEventResumed (id : Identifier) (req : ResumeRequest) (groupID : string)
| OnInvokeFunction (id : Identifier) (item : Item) (gen : GeneratorOpcode)
                   (eventID : ULID) (corr : string)
| OnInvokeFunctionResumed (id : Identifier) (req : ResumeRequest) (groupID : string).

(** How far a goroutine of [handlePausesAllNaively] has got at some moment:
    before its [atomic.AddInt32(&res[0], 1)], past it, or at its end. *)
Inductive Progress := NotCounted | Counted | Finished.

(** One constructor per call; the index is the type of the answer. *)
Inductive E : Type -> Type :=
(* clock and randomness *)
| time_Now : E Time
| rand_Read : E N                                        (* 80 bits for a ULID *)
| uuid_New : E UUID
| telemetry_NewSpanID : E string
| wait_Expires (o : WaitForEventOpts) : E (error + Time)
| invoke_Expires (o : InvokeFunctionOpts) : E (error + Time)
| event_NewInvocationEvent (payload : Event) (fnID : string) (corr : string) : E Event
(* state.Manager *)
| sm_New (i : Input) : E (error + State)
| sm_Load (runID : ULID) : E (error + State)
| sm_Exists (runID : ULID) : E (bool * option error)
| sm_Metadata (runID : ULID) : E (error + Metadata)
| GetFunctionRunMetadata (runID : ULID) : E (option Metadata * option error)
| sm_UpdateMetadata (runID : ULID) (u : MetadataUpdate) : E (option error)
| sm_SaveResponse (id : Identifier) (stepID : string) (output : string) : E (option error)
| sm_SetStatus (id : Identifier) (s : RunStatus) : E (option error)
| sm_Cancel (id : Identifier) : E (option error)
| sm_Delete (id : Identifier) : E (option error)
| sm_SavePause (p : Pause) : E (option error)
| sm_LeasePause (id : UUID) : E (option error)
| sm_ConsumePause (id : UUID) (data : option jmap) : E (option error)
| sm_DeletePause (p : Pause) : E (option error)
| sm_PauseByInvokeCorrelationID (ws : UUID) (corr : string) : E (error + Pause)
(* queue.Queue *)
| queue_Enqueue (item : Item) (at_ : Time) : E (option error)
(* state.FunctionLoader, the run validator, runtime drivers *)
| fl_LoadFunction (id : Identifier) : E (error + Function)
| validate (item : Item) (s : State) (f : Function) : E (option error * bool)
| driver_Execute (runtime : string) (s : State) (item : Item) (edge : Edge)
                 (step : Step) (stackIndex : Z) (attempt : Z)
    : E (option DriverResponse * option error)
(* debouncer, aggregator, semaphore *)
| debouncer_Debounce (di : DebounceItem) (f : Function) : E (option error)
| agg_EvaluateAsyncEvent (evt : TrackedEvent) : E (list (option Pause) * Z * option error)
| agg_RemovePause (p : Pause) : E (option error)
| sem_Acquire : E (option error)
(* the Go scheduler: how far each of the [n] goroutines started has got *)
| go_Progress (n : nat) : E (list Progress)
(* configured callbacks *)
| finishHandler (s : State) (events : list Event) : E (option error)
| handleSendingEvent (evt : Event) (item : Item) : E (option error)
| lifecycle (l : Listener) (c : LifecycleCall) : E unit.

(** ** Programs and their runs *)

Inductive Prog (R : Type) : Type :=
| Ret (r : R)
| Panic (msg : string)                       (* a Go run-time panic *)
| Vis (X : Type) (e : E X) (k : X -> Prog R).

Arguments Ret {R} r.
Arguments Panic {R} msg.
Arguments Vis {R X} e k.

Fixpoint bind {A B : Type} (p : Prog A) (f : A -> Prog B) : Prog B :=
  match p with
  | Ret a => f a
  | Panic m => Panic m
  | Vis e k => Vis e (fun x => bind (k x) f)
  end.

Definition call {X : Type} (e : E X) : Prog X := Vis e Ret.

Declare Scope prog_scope.
Delimit Scope prog_scope with prog.
Notation "x <- p ;; q" := (bind p (fun x => q))
  (at level 61, p at next level, right associativity) : prog_scope.
Notation "p ;;; q" := (bind p (fun _ => q))
  (at level 61, right associativity) : prog_scope.
Open Scope prog_scope.

(** [for _, x := range l { body x }]. *)
Fixpoint for_each {A : Type} (l : list A) (body : A -> Prog unit) : Prog unit :=
  match l with
  | [] => Ret tt
  | x :: l' => body x ;;; for_each l' body
  end.

(** A call together with its answer. *)
Record event := Ev { ev_type : Type; ev_call : E ev_type; ev_ret : ev_type }.
Arguments Ev {ev_type} ev_call ev_ret.

Definition trace := list event.

Inductive outcome (R : Type) : Type :=
| Returned (r : R)
| Panicked (msg : string).
Arguments Returned {R} r.
Arguments Panicked {R} msg.

(** The collaborators as a state machine on a world [W]. *)
Definition handler (W : Type) : Type := forall X : Type, E X -> W -> X * W.

Fixpoint interp {W R : Type} (h : handler W) (p : Prog R) (w : W)
  : outcome R * W * trace :=
  match p with
  | Ret r => (Returned r, w, [])
  | Panic m => (Panicked m, w, [])
  | Vis e k =>
      let (x, w1) := h _ e w in
      let '(o, w2, tr) := interp h (k x) w1 in
      (o, w2, Ev e x :: tr)
  end.

Definition result_of {W R} (x : outcome R * W * trace) : outcome R := fst (fst x).
Definition world_of {W R} (x : outcome R * W * trace) : W := snd (fst x).
Definition trace_of {W R} (x : outcome R * W * trace) : trace := snd x.

(** The run [x] with the calls [pre] in front of its own. *)
Definition after_calls {W R} (pre : trace) (x : outcome R * W * trace)
  : outcome R * W * trace :=
  (result_of x, world_of x, (pre ++ trace_of x)%list).

(** ** The executor *)

Record executor := mkExecutor {
  has_log : bool;
  has_exprAggregator : bool;
  has_sm : bool;
  has_queue : bool;
  has_fl : bool;
  evalFactory : option (string -> error + Evaluator);
  runtimeDrivers : list string;                (* the registered runtime types *)
  has_finishHandler : bool;
  has_handleSendingEvent : bool;
  lifecycles : list Listener;
  has_debouncer : bool
}.

(** The panic of a method call on a nil interface, or of a read through a
    nil pointer. *)
Definition nil_dereference : string :=
  "invalid memory address or nil pointer dereference".

Definition sourceEdgeRetries : Z := 20.

(** The zero values of [inngest.Step] and [state.DriverResponse]. *)
Definition zero_Step : Step := mkStep "" "" "" None.
Definition zero_DriverResponse : DriverResponse :=
  mkResp zero_Step 0 [] None None None None false false 0.

Definition set_Err (r : DriverResponse) (err : option string) : DriverResponse :=
  mkResp (r_Step r) (r_RequestVersion r) (r_Generator r) (r_Output r) (r_UserError r)
         err (r_RetryAt r) (r_NoRetry r) (r_final r) (r_StatusCode r).
Definition set_Step (r : DriverResponse) (s : Step) : DriverResponse :=
  mkResp s (r_RequestVersion r) (r_Generator r) (r_Output r) (r_UserError r)
         (r_Err r) (r_RetryAt r) (r_NoRetry r) (r_final r) (r_StatusCode r).
Definition set_NoRetry (r : DriverResponse) : DriverResponse :=
  mkResp (r_Step r) (r_RequestVersion r) (r_Generator r) (r_Output r) (r_UserError r)
         (r_Err r) (r_RetryAt r) true (r_final r) (r_StatusCode r).

(** [ulid.MustNew(ms, rand.Reader)]: panics past [MaxTime]. *)
Definition ulid_MustNew (ms : N) : Prog ULID :=
  if (MaxTime <? ms)%N then Panic "ulid: time too big"
  else entropy <- call rand_Read ;; Ret (mkULID ms entropy).

(** [ulid.Now()] of a clock reading. *)
Definition ulid_Timestamp (t : Time) : N := Z.to_N (Time_UnixMilli t).

Section Executor.

Context {X : Externals}.
Variable e : executor.

(** [generateCancelExpression]. *)
Definition generateCancelExpression (eventID : ULID) (expr : option string) : string :=
  let res := "(async.ts == null || async.ts > " ++ fmt_d (ULID_Time eventID) ++ ")" in
  match expr with
  | Some ex => ex ++ " && " ++ res
  | None => res
  end.

(** [executor.newExpressionEvaluator]. *)
Definition newExpressionEvaluator (expr : string) : error + Evaluator :=
  match evalFactory e with
  | Some f => f expr
  | None => NewExpressionEvaluator expr
  end.

(** [executor.extractTraceCtx]: the trace context itself is not kept, the
    read of the run metadata is. *)
Definition extractTraceCtx (id : Identifier) (item : option Item) : Prog unit :=
  let from_item :=
    match item with
    | Some it => extractTraceCtxFromMap_ok (it_Metadata it)
    | None => false
    end in
  if from_item then Ret tt
  else _ <- call (sm_Metadata (id_RunID id)) ;; Ret tt.

(** [correlationID]. *)
Definition correlationID (event : jmap) : option string :=
  match jmap_get "data" event with
  | Some (JObj dataMap) =>
      match jmap_get InngestEventDataPrefix dataMap with
      | Some (JObj container) =>
          match jmap_get InvokeCorrelationId container with
          | Some (JStr c) => Some c
          | _ => None
          end
      | _ => None
      end
  | _ => None
  end.

(** [functionFinishedData] after [setResponse], as the map [Map()] builds. *)
Definition functionFinishedData_Map (slug : string) (runID : ULID) (evt : jmap)
  (events : list jmap) (r : DriverResponse) (invokeID : option string) : jmap :=
  let err :=
    match r_UserError r with
    | Some ue => Some (JObj ue)
    | None => match r_Err r with
              | Some _ => Some (JObj (StandardError r))
              | None => None
              end
    end in
  ([("function_id", JStr slug); ("run_id", JStr (ULID_String runID));
    ("event", JObj evt); ("events", JArr (map JObj events))]
   ++ match err with Some x => [("error", x)] | None => [] end
   ++ match r_Output r with Some x => [("result", x)] | None => [] end
   ++ match invokeID with Some c => [("correlation_id", JStr c)] | None => [] end)%list.

Definition is_finish_event (runEvt : jmap) : bool :=
  match jmap_get "name" runEvt with
  | Some (JStr name) => String.eqb name FnFailedName || String.eqb name FnFinishedName
  | _ => false
  end.

(** The loop of [runFinishHandler] over [s.Events()], from index [n]. *)
Fixpoint finish_events (slug : string) (runID : ULID) (all : list jmap)
  (resp : DriverResponse) (now : Time) (n : nat) (evts : list jmap)
  : Prog (list Event) :=
  match evts with
  | [] => Ret []
  | runEvt :: rest =>
      if is_finish_event runEvt then
        finish_events slug runID all resp now (S n) rest
      else
        let invokeID := correlationID runEvt in
        if negb (isSome invokeID) && Nat.ltb 0 n then
          finish_events slug runID all resp now (S n) rest
        else
          let data := functionFinishedData_Map slug runID runEvt all resp invokeID in
          id1 <- ulid_MustNew (Z.to_N (Time_UnixMilli now)) ;;
          let finished :=
            [mkEvent (ULID_String id1) FnFinishedName data (Time_UnixMilli now)] in
          failed <-
            match r_Err resp with
            | Some msg =>
                if negb (strings_Contains msg (error_Error ErrFunctionCancelled)) then
                  id2 <- ulid_MustNew (Z.to_N (Time_UnixMilli now)) ;;
                  Ret [mkEvent (ULID_String id2) FnFailedName data (Time_UnixMilli now)]
                else Ret []
            | None => Ret []
            end ;;
          more <- finish_events slug runID all resp now (S n) rest ;;
          Ret (finished ++ failed ++ more)%list
  end.

(** [executor.runFinishHandler]. *)
Definition runFinishHandler (id : Identifier) (s : State) (resp : DriverResponse)
  : Prog (option error) :=
  if negb (has_finishHandler e) then Ret None
  else
    now <- call time_Now ;;
    events <- finish_events (fn_Slug (st_Function s)) (id_RunID id) (st_Events s)
                            resp now 0 (st_Events s) ;;
    call (finishHandler s events).

(** [go l.M(...)] for every registered listener. *)
Definition fire (c : LifecycleCall) : Prog unit :=
  for_each (lifecycles e) (fun l => call (lifecycle l c)).

(** [e.queue.Enqueue(ctx, item, at)] where the code does not test
    [e.queue] first: without a queue the call panics. *)
Definition enqueue (item : Item) (at_ : Time) : Prog (option error) :=
  if has_queue e then call (queue_Enqueue item at_) else Panic nil_dereference.

(** [executor.Cancel]. *)
Definition Cancel (runID : ULID) (r : CancelRequest) : Prog (option error) :=
  ls <- call (sm_Load runID) ;;
  match ls with
  | inl err => Ret (Some (Errorf "unable to load run" err))
  | inr s =>
      let md := st_Metadata s in
      match md_Status md with
      | RunStatusFailed | RunStatusCompleted | RunStatusOverflowed =>
          Ret (Some ErrFunctionEnded)
      | RunStatusCancelled => Ret None
      | _ =>
          cerr <- call (sm_Cancel (md_Identifier md)) ;;
          match cerr with
          | Some err => Ret (Some (Errorf "error cancelling function" err))
          | None =>
              _ <- call (sm_Delete (st_Identifier s)) ;;
              _ <- runFinishHandler (st_Identifier s) s
                     (set_Err zero_DriverResponse
                              (Some (error_Error ErrFunctionCancelled))) ;;
              extractTraceCtx (md_Identifier md) None ;;;
              fire (OnFunctionCancelled (md_Identifier md) r s) ;;;
              Ret None
          end
      end
  end.

(** [executor.Resume]. *)
Definition Resume (pause : Pause) (r : ResumeRequest) : Prog (option error) :=
  if negb (has_queue e) || negb (has_sm e) then
    Ret (Some (ErrOther "No queue or state manager specified"))
  else
    err <- call (sm_LeasePause (p_ID pause)) ;;
    if err_is err ErrPauseLeased || err_is err ErrPauseNotFound then Ret None
    else if p_OnTimeout pause && isSome (rr_EventID r) then
      err <- call (sm_ConsumePause (p_ID pause) None) ;;
      if negb (isSome err) || err_is err ErrPauseNotFound then Ret None
      else Ret err
    else
      err <- call (sm_ConsumePause (p_ID pause) (rr_With r)) ;;
      match err with
      | Some er => Ret (Some (Errorf "error consuming pause via event" er))
      | None =>
          let jobID :=
            Identifier_IdempotencyKey (p_Identifier pause) ++ "-" ++ p_DataKey pause in
          g <- call uuid_New ;;
          now <- call time_Now ;;
          err <- call (queue_Enqueue
                         (mkItem (Some jobID) (UUID_String g) (p_WorkspaceID pause)
                                 KindEdge (p_Identifier pause) 0 None
                                 (PayloadEdge (Pause_Edge pause)) None [])
                         now) ;;
          let resumed :=
            (if match p_Opcode pause with
                | Some op => String.eqb op (Opcode_String OpcodeInvokeFunction)
                | None => false
                end
             then fire (OnInvokeFunctionResumed (p_Identifier pause) r (p_GroupID pause))
             else fire (OnWaitForEventResumed (p_Identifier pause) r (p_GroupID pause))) ;;;
            Ret None in
          match err with
          | Some er =>
              if negb (err_is err ErrQueueItemExists) then
                Ret (Some (Errorf "error enqueueing after pause" er))
              else resumed
          | None => resumed
          end
      end.


(** [for _, l := range e.lifecycles { item.Attempt += 1;
    go l.OnStepScheduled(ctx, id, item, name) }]: the attempt, an [int],
    grows once per listener. *)
Fixpoint fire_retry (ls : list Listener) (id : Identifier) (item : Item)
  (name : option string) : Prog unit :=
  match ls with
  | [] => Ret tt
  | l :: ls' =>
      let item' := set_Attempt item (int_wrap (it_Attempt item + 1)) in
      call (lifecycle l (OnStepScheduled id item' name)) ;;;
      fire_retry ls' id item' name
  end.

(** [executor.handleGeneratorStep]: [OpcodeStep] and [OpcodeStepRun]. *)
Definition handleGeneratorStep (gen : GeneratorOpcode) (item : Item) (edge : Edge)
  : Prog (option error) :=
  let nextEdge := mkEdge (gen_ID gen) (Incoming edge) "" in
  match Gen_Output gen with
  | inl err => Ret (Some err)
  | inr output =>
      serr <- call (sm_SaveResponse (it_Identifier item) (gen_ID gen) output) ;;
      match serr with
      | Some err => Ret (Some err)
      | None =>
          g <- call uuid_New ;;
          let groupID := UUID_String g in
          let jobID := Identifier_IdempotencyKey (it_Identifier item) ++ "-" ++ gen_ID gen in
          now <- call time_Now ;;
          let nextItem :=
            mkItem (Some jobID) groupID (it_WorkspaceID item) KindEdge
                   (it_Identifier item) 0 (it_MaxAttempts item)
                   (PayloadEdge nextEdge) None [] in
          err <- enqueue nextItem now ;;
          if err_is err ErrQueueItemExists then Ret None
          else
            fire (OnStepScheduled (it_Identifier item) nextItem None) ;;;
            Ret err
      end
  end.

(** [executor.handleStepError]: [OpcodeStepError].  The first statement reads
    [gen.Error.Name], so a nil [gen.Error] panics before the nil check. *)
Definition handleStepError (gen : GeneratorOpcode) (item : Item) (edge : Edge)
  : Prog (option error) :=
  match gen_Error gen with
  | None => Panic "invalid memory address or nil pointer dereference"
  | Some uerr =>
      let retryable := true in
      let retryable := if ue_NoRetry uerr then false else retryable in
      let retryable :=
        if negb (ShouldRetry (it_Attempt item) (Item_GetMaxAttempts item))
        then false else retryable in
      if retryable then
        fire_retry (lifecycles e) (it_Identifier item) item (Some (gen_Name gen)) ;;;
        Ret (Some ErrHandledStepError)
      else
        match Gen_Output gen with
        | inl err => Ret (Some err)
        | inr output =>
            serr <- call (sm_SaveResponse (it_Identifier item) (gen_ID gen) output) ;;
            match serr with
            | Some err => Ret (Some err)
            | None =>
                let nextEdge := mkEdge (gen_ID gen) (Incoming edge) "" in
                g <- call uuid_New ;;
                let groupID := UUID_String g in
                let jobID :=
                  Identifier_IdempotencyKey (it_Identifier item) ++ "-" ++ gen_ID gen
                  ++ "-failure" in
                now <- call time_Now ;;
                let nextItem :=
                  mkItem (Some jobID) groupID (it_WorkspaceID item) KindEdgeError
                         (it_Identifier item) 0 (it_MaxAttempts item)
                         (PayloadEdge nextEdge) None [] in
                err <- enqueue nextItem now ;;
                if err_is err ErrQueueItemExists then Ret None
                else
                  fire (OnStepScheduled (it_Identifier item) nextItem None) ;;;
                  Ret None
            end
        end
  end.

(** [executor.handleGeneratorStepPlanned]: [OpcodeStepPlanned]. *)
Definition handleGeneratorStepPlanned (gen : GeneratorOpcode) (item : Item) (edge : Edge)
  : Prog (option error) :=
  let nextEdge := mkEdge (Outgoing edge) (Incoming edge) (gen_ID gen) in
  g <- call uuid_New ;;
  let groupID := UUID_String g in
  let jobID :=
    Identifier_IdempotencyKey (it_Identifier item) ++ "-" ++ (gen_ID gen ++ "-plan") in
  now <- call time_Now ;;
  let nextItem :=
    mkItem (Some jobID) groupID (it_WorkspaceID item) KindEdge
           (it_Identifier item) 0 (it_MaxAttempts item) (PayloadEdge nextEdge) None [] in
  err <- enqueue nextItem now ;;
  if err_is err ErrQueueItemExists then Ret None
  else
    fire (OnStepScheduled (it_Identifier item) nextItem (Some (gen_Name gen))) ;;;
    Ret err.

(** [executor.handleGeneratorSleep]: [OpcodeSleep]. *)
Definition handleGeneratorSleep (gen : GeneratorOpcode) (item : Item) (edge : Edge)
  : Prog (option error) :=
  match Gen_SleepDuration gen with
  | inl err => Ret (Some err)
  | inr dur =>
      let nextEdge := mkEdge (gen_ID gen) (Incoming edge) "" in
      startedAt <- call time_Now ;;
      g <- call uuid_New ;;
      let groupID := UUID_String g in
      now <- call time_Now ;;
      let until := time_Add now dur in
      let jobID := Identifier_IdempotencyKey (it_Identifier item) ++ "-" ++ gen_ID gen in
      err <- enqueue (mkItem (Some jobID) groupID (it_WorkspaceID item) KindSleep
                             (it_Identifier item) 0 (it_MaxAttempts item)
                             (PayloadEdge nextEdge) None [])
                     until ;;
      if err_is err ErrQueueItemExists then Ret None
      else
        fire (OnSleep (it_Identifier item) item gen until) ;;;
        Ret err
  end.

(** [executor.handleGeneratorInvokeFunction]: [OpcodeInvokeFunction]. *)
Definition handleGeneratorInvokeFunction (gen : GeneratorOpcode) (item : Item)
  (edge : Edge) : Prog (option error) :=
  if negb (has_handleSendingEvent e) then
    Ret (Some (ErrOther "no handleSendingEvent function specified"))
  else
    match Gen_InvokeFunctionOpts gen with
    | inl err => Ret (Some (Errorf "unable to parse invoke function opts" err))
    | inr opts =>
        ex <- call (invoke_Expires opts) ;;
        match ex with
        | inl err => Ret (Some (Errorf "unable to parse invoke function expires" err))
        | inr expires =>
            let eventName := FnFinishedName in
            let correlationID := ULID_String (id_RunID (it_Identifier item)) ++ "." ++ gen_ID gen in
            let strExpr :=
              "async.data." ++ InvokeCorrelationId ++ " == " ++ strconv_Quote correlationID in
            match newExpressionEvaluator strExpr with
            | inl err =>
                Ret (Some (ExecError
                   (Errorf "failed to create expression to wait for invoked function completion"
                           err) false))
            | inr _ =>
                let pauseID :=
                  NewSHA1 NameSpaceOID
                          (ULID_String (id_RunID (it_Identifier item)) ++ gen_ID gen) in
                let opcode := Opcode_String (gen_Op gen) in
                now <- call time_Now ;;
                match io_Payload opts with
                | None => Panic "invalid memory address or nil pointer dereference"
                | Some payload =>
                    evt <- call (event_NewInvocationEvent payload (io_FunctionID opts)
                                                          correlationID) ;;
                    spanID <- call telemetry_NewSpanID ;;
                    err <- call (sm_SavePause
                      (mkPause pauseID (it_WorkspaceID item) (it_Identifier item)
                               (it_GroupID item) (gen_ID gen) (Incoming edge)
                               (Gen_UserDefinedName gen) (Some opcode) expires
                               (Some eventName) (Some strExpr) [] (gen_ID gen)
                               false false (Some (evt_ID evt)) (Some correlationID)
                               (Some (io_FunctionID opts)) (Some spanID) (Some now))) ;;
                    if err_is err ErrPauseAlreadyExists then Ret None
                    else if isSome err then Ret err
                    else
                      let jobID :=
                        Identifier_IdempotencyKey (it_Identifier item) ++ "-" ++ gen_ID gen
                        ++ "-" ++ "invoke" in
                      err <- enqueue (mkItem (Some jobID) (it_GroupID item)
                                             (it_WorkspaceID item) KindPause
                                             (it_Identifier item) 0 None
                                             (PayloadPauseTimeout pauseID true) None [])
                                     expires ;;
                      if err_is err ErrQueueItemExists then Ret None
                      else
                        err <- call (handleSendingEvent evt item) ;;
                        match err with
                        | Some er =>
                            Ret (Some (Errorf "error publishing internal invocation event" er))
                        | None =>
                            match lifecycles e with
                            | [] => Ret None
                            | _ =>
                                match ulid_Parse (evt_ID evt) with
                                | None => Panic "ulid: bad data size when unmarshaling"
                                | Some evtID =>
                                    fire (OnInvokeFunction (it_Identifier item) item gen
                                                           evtID correlationID) ;;;
                                    Ret None
                                end
                            end
                        end
                end
            end
        end
    end.

(** [executor.handleGeneratorWaitForEvent]: [OpcodeWaitForEvent]. *)
Definition handleGeneratorWaitForEvent (gen : GeneratorOpcode) (item : Item)
  (edge : Edge) : Prog (option error) :=
  match Gen_WaitForEventOpts gen with
  | inl err => Ret (Some (Errorf "unable to parse wait for event opts" err))
  | inr opts =>
      ex <- call (wait_Expires opts) ;;
      match ex with
      | inl err => Ret (Some (Errorf "unable to parse wait for event expires" err))
      | inr expires =>
          (* the expression data, or the error that ends the handler *)
          filtered <-
            match wo_If opts with
            | None => Ret (inr [])
            | Some cond =>
                match expressions_Validate cond with
                | Some err => Ret (inl (ExecError err true))
                | None =>
                    match newExpressionEvaluator cond with
                    | inl err => Ret (inl (ExecError err true))
                    | inr expr =>
                        lr <- call (sm_Load (id_RunID (it_Identifier item))) ;;
                        match lr with
                        | inl err =>
                            Ret (inl (ExecError
                                   (Errorf "unable to load run after execution" err) false))
                        | inr run_ =>
                            Ret (inr (ev_FilteredAttributes expr (state_ExpressionData run_)))
                        end
                    end
                end
            end ;;
          match filtered with
          | inl err => Ret (Some err)
          | inr data =>
              let pauseID :=
                NewSHA1 NameSpaceOID
                        (ULID_String (id_RunID (it_Identifier item)) ++ gen_ID gen) in
              (* interpolation of event.* into the expression *)
              ig <-
                match wo_If opts with
                | Some cond =>
                    if strings_Contains cond "event." then
                      lr <- call (sm_Load (id_RunID (it_Identifier item))) ;;
                      let expr :=
                        match lr with
                        | inl _ => Some cond
                        | inr st => Some (fst (Interpolate cond [("event", JObj (st_Event st))]))
                        end in
                      Ret (expr, set_Opts gen (WaitForEventOpts_any
                                     (mkWaitOpts (wo_Event opts) (wo_Timeout opts) expr)))
                    else Ret (Some cond, gen)
                | None => Ret (None, gen)
                end ;;
              let '(expr, gen) := ig in
              let opcode := Opcode_String (gen_Op gen) in
              err <- call (sm_SavePause
                (mkPause pauseID (it_WorkspaceID item) (it_Identifier item)
                         (it_GroupID item) (gen_ID gen) (Incoming edge)
                         (Gen_UserDefinedName gen) (Some opcode) expires
                         (Some (wo_Event opts)) expr data (gen_ID gen)
                         false false None None None None None)) ;;
              if err_is err ErrPauseAlreadyExists then Ret None
              else if isSome err then Ret err
              else
                let jobID :=
                  Identifier_IdempotencyKey (it_Identifier item) ++ "-" ++ gen_ID gen
                  ++ "-" ++ "wait" in
                err <- enqueue (mkItem (Some jobID) (it_GroupID item)
                                       (it_WorkspaceID item) KindPause
                                       (it_Identifier item) 0 None
                                       (PayloadPauseTimeout pauseID true) None [])
                               expires ;;
                if err_is err ErrQueueItemExists then Ret None
                else
                  fire (OnWaitForEvent (it_Identifier item) item gen) ;;;
                  Ret err
          end
      end
  end.

(** [executor.HandleGenerator]. *)
Definition HandleGenerator (gen : GeneratorOpcode) (item : Item) : Prog (option error) :=
  match it_Payload item with
  | PayloadEdge edge =>
      match gen_Op gen with
      | OpcodeNone => Ret None
      | OpcodeStep | OpcodeStepRun => handleGeneratorStep gen item edge
      | OpcodeStepError => handleStepError gen item edge
      | OpcodeStepPlanned => handleGeneratorStepPlanned gen item edge
      | OpcodeSleep => handleGeneratorSleep gen item edge
      | OpcodeWaitForEvent => handleGeneratorWaitForEvent gen item edge
      | OpcodeInvokeFunction => handleGeneratorInvokeFunction gen item edge
      | OpcodeUnknown _ => Ret (Some (ErrOther ("unknown opcode: " ++ Opcode_String (gen_Op gen))))
      end
  | _ => Ret (Some (ErrOther "unknown queue item type handling generator"))
  end.


(** The opcodes of one group.  The source starts one goroutine per opcode
    in an [errgroup] and waits for all of them; here they run one after the
    other and the first error in that order is the group's error. *)
Fixpoint handleGeneratorGroup_ops (ops : list (option GeneratorOpcode))
  (start_group : bool) (item : Item) : Prog (option error) :=
  match ops with
  | [] => Ret None
  | None :: rest => handleGeneratorGroup_ops rest start_group item
  | Some copied :: rest =>
      newItem <-
        (if start_group then g <- call uuid_New ;; Ret (set_GroupID item (UUID_String g))
         else Ret item) ;;
      err <- HandleGenerator copied newItem ;;
      err' <- handleGeneratorGroup_ops rest start_group item ;;
      Ret (match err with Some _ => err | None => err' end)
  end.

(** [executor.handleGeneratorGroup]. *)
Definition handleGeneratorGroup (group : OpcodeGroup) (resp : DriverResponse)
  (item : Item) : Prog (option error) :=
  err <- handleGeneratorGroup_ops (Opcodes group) (ShouldStartHistoryGroup group) item ;;
  match err with
  | Some er =>
      if r_NoRetry resp then Ret (Some (NeverRetryError er))
      else match r_RetryAt resp with
           | Some at_ => Ret (Some (RetryAtError er at_))
           | None => Ret (Some er)
           end
  | None => Ret None
  end.

Fixpoint handle_groups (groups : list OpcodeGroup) (resp : DriverResponse) (item : Item)
  : Prog (option error) :=
  match groups with
  | [] => Ret None
  | group :: rest =>
      err <- handleGeneratorGroup group resp item ;;
      match err with
      | Some _ => Ret err
      | None => handle_groups rest resp item
      end
  end.

(** [executor.HandleGeneratorResponse]. *)
Definition HandleGeneratorResponse (resp : DriverResponse) (item : Item)
  : Prog (option error) :=
  mr <- call (GetFunctionRunMetadata (id_RunID (it_Identifier item))) ;;
  match mr with
  | (_, Some err) => Ret (Some (Errorf "error loading function metadata" err))
  | (None, None) => Ret (Some (ErrorfNil "error loading function metadata"))
  | (Some md, None) =>
      let update :=
        if md_RequestVersion md =? -1 then
          Some (mkMetadataUpdate (md_Context md) (md_Debugger md)
                                 (md_DisableImmediateExecution md)
                                 (r_RequestVersion resp) "" None)
        else None in
      let update :=
        if (1 <? Z.of_nat (List.length (r_Generator resp)))
           && negb (md_DisableImmediateExecution md) then
          match update with
          | None =>
              Some (mkMetadataUpdate (md_Context md) (md_Debugger md) true
                                     (r_RequestVersion resp) "" (md_StartedAt md))
          | Some u =>
              Some (mkMetadataUpdate (mu_Context u) (mu_Debugger u) true
                                     (mu_RequestVersion u) (mu_SpanID u) (mu_StartedAt u))
          end
        else update in
      uerr <-
        match update with
        | Some u => call (sm_UpdateMetadata (id_RunID (it_Identifier item)) u)
        | None => Ret None
        end ;;
      match uerr with
      | Some err => Ret (Some (Errorf "error updating function metadata" err))
      | None => handle_groups (opGroups_All (r_Generator resp)) resp item
      end
  end.

(** The end of a run in [HandleResponse]: load, finish handler, listeners. *)
Definition finish_run (id : Identifier) (item : Item) (resp : DriverResponse)
  (ret : option error) : Prog (option error) :=
  ls <- call (sm_Load (id_RunID id)) ;;
  match ls with
  | inl err => Ret (Some (Errorf "unable to load run" err))
  | inr s =>
      _ <- runFinishHandler id s resp ;;
      fire (OnFunctionFinished id item resp s) ;;;
      Ret ret
  end.

(** [executor.HandleResponse]; [resp] is a pointer in the source, so the
    response as the call leaves it is returned with the error. *)
Definition HandleResponse (id : Identifier) (item : Item) (edge : Edge)
  (resp : DriverResponse) : Prog (DriverResponse * option error) :=
  fire (OnStepFinished id item edge (r_Step resp) resp) ;;;
  let as_error := Some (RespError (Resp_Error resp)) in
  let generator_or_output :=
    if (0 <? Z.of_nat (List.length (r_Generator resp))) then
      serr <- HandleGeneratorResponse resp item ;;
      match serr with
      | Some se =>
          if strings_Contains (error_Error se) "error compiling expression" then
            let resp := Resp_SetFinal (Resp_SetError resp se) in
            _ <- call (sm_SaveResponse id (step_ID (r_Step resp)) (Resp_Error resp)) ;;
            st <- call (sm_SetStatus id RunStatusFailed) ;;
            match st with
            | Some er => Ret (resp, Some (Errorf "error marking function as complete" er))
            | None => r <- finish_run id item resp None ;; Ret (resp, r)
            end
          else Ret (resp, Some (Errorf "error handling generator response" se))
      | None => Ret (resp, None)
      end
    else
      match json_Marshal (r_Output resp) with
      | inl err => Ret (resp, Some err)
      | inr output =>
          serr <- call (sm_SaveResponse id (step_ID (r_Step resp)) output) ;;
          match serr with
          | Some se =>
              if err_is serr ErrDuplicateResponse then Ret (resp, as_error)
              else Ret (resp, Some (Errorf "error saving function output" se))
          | None =>
              r <- finish_run id item resp None ;;
              match r with
              | Some _ => Ret (resp, r)
              | None =>
                  st <- call (sm_SetStatus id RunStatusCompleted) ;;
                  match st with
                  | Some er =>
                      Ret (resp, Some (Errorf "error marking function as complete" er))
                  | None => Ret (resp, None)
                  end
              end
          end
      end in
  match r_Err resp with
  | Some _ =>
      if Resp_Retryable resp then
        fire_retry (lifecycles e) id item (Some (step_Name (r_Step resp))) ;;;
        Ret (resp, as_error)
      else
        st <- call (sm_SetStatus id RunStatusFailed) ;;
        match st with
        | Some er => Ret (resp, Some (Errorf "error marking function as complete" er))
        | None => r <- finish_run id item resp as_error ;; Ret (resp, r)
        end
  | None => generator_or_output
  end.


(** [executor.executeDriverForStep]; a nil response is [None]. *)
Definition executeDriverForStep (id : Identifier) (item : Item) (step : Step)
  (s : State) (edge : Edge) (stackIndex : Z)
  : Prog (option DriverResponse * option error) :=
  if negb (existsb (String.eqb (Step_Driver step)) (runtimeDrivers e)) then
    Ret (None, Some (Errorf ("'" ++ Step_Driver step ++ "'") ErrNoRuntimeDriver))
  else
    dr <- call (driver_Execute (Step_Driver step) s item edge step stackIndex
                               (it_Attempt item)) ;;
    let '(response, err) := dr in
    let response :=
      match response with
      | Some r => r
      | None => set_Step zero_DriverResponse step
      end in
    let response :=
      match err, r_Err response with
      | Some er, None => set_Err response (Some (error_Error er))
      | _, _ => response
      end in
    let response :=
      if String.eqb (step_ID (r_Step response)) "" then set_Step response step
      else response in
    let exhausted := negb (ShouldRetry (it_Attempt item) (Step_RetryCount step + 1)) in
    match r_Generator response with
    | [None] => Panic "invalid memory address or nil pointer dereference"
    | gens =>
        let response :=
          match gens with
          | [Some g] =>
              match gen_Op g with
              | OpcodeStepError => if exhausted then set_NoRetry response else response
              | _ => response
              end
          | _ => response
          end in
        let response :=
          if isSome (r_Err response) && exhausted then set_NoRetry response
          else response in
        Ret (Some response, err)
    end.

(** [executor.run]. *)
Definition run (id : Identifier) (item : Item) (edge : Edge) (s : State)
  (stackIndex : Z) (f : Function) : Prog (option DriverResponse * option error) :=
  match find (fun st => String.eqb (step_ID st) (Incoming edge)) (fn_Steps f) with
  | None =>
      Ret (None, Some (ExecError (ErrOther ("unknown vertex: " ++ Incoming edge)) true))
  | Some step =>
      fire (OnStepStarted id item edge step s) ;;;
      re <- executeDriverForStep id item step s edge stackIndex ;;
      match re with
      | (None, _) => Panic "invalid memory address or nil pointer dereference"
      | (Some response, err) =>
          match r_Err response, err with
          | Some msg, None => Ret (Some response, Some (ErrOther msg))
          | _, _ => Ret (Some response, err)
          end
      end
  end.

(** [executor.Execute]. *)
Definition Execute (id : Identifier) (item : Item) (edge : Edge) (stackIndex : Z)
  : Prog (option DriverResponse * option error) :=
  if negb (has_fl e) then
    Ret (None, Some (ErrOther "no function loader specified running step"))
  else
    ls <- call (sm_Load (id_RunID id)) ;;
    match ls with
    | inl err => Ret (None, Some err)
    | inr s =>
        let md := st_Metadata s in
        now <- call time_Now ;;
        let start := match md_StartedAt md with Some t => t | None => now end in
        lf <- call (fl_LoadFunction id) ;;
        match lf with
        | inl err => Ret (None, Some (Errorf "error loading function for run" err))
        | inr f =>
            v <- call (validate item s f) ;;
            match v with
            | (Some err, _) => Ret (None, Some err)
            | (None, true) => Ret (None, None)
            | (None, false) =>
                extractTraceCtx id (Some item) ;;;
                fnSpanID <-
                  match md_SpanID md with
                  | Some sid => Ret sid
                  | None => call telemetry_NewSpanID
                  end ;;
                (* the trigger edge is rewritten to the function's only step *)
                rewritten <-
                  (if String.eqb (Incoming edge) TriggerName then
                     if (1 <? Z.of_nat (List.length (fn_Steps f))) then
                       Ret (inl (ErrOther "DAG-based steps are no longer supported"))
                     else
                       match fn_Steps f with
                       | [] => Panic "index out of range [0] with length 0"
                       | step0 :: _ =>
                           let edge :=
                             mkEdge TriggerName (step_ID step0) (IncomingGeneratorStep edge) in
                           match it_Payload item with
                           | PayloadEdge _ =>
                               let item :=
                                 set_MaxAttempts_Payload item
                                   (Some (Step_RetryCount step0 + 1)) (PayloadEdge edge) in
                               (if it_Attempt item =? 0 then
                                  _ <- call (sm_UpdateMetadata (id_RunID id)
                                               (mkMetadataUpdate (md_Context md) false
                                                  (md_DisableImmediateExecution md)
                                                  (md_RequestVersion md) fnSpanID
                                                  (Some start))) ;;
                                  fire (OnFunctionStarted id item s)
                                else Ret tt) ;;;
                               Ret (inr (edge, item))
                           | _ => Panic "interface conversion: not queue.PayloadEdge"
                           end
                       end
                   else Ret (inr (edge, item))) ;;
                match rewritten with
                | inl err => Ret (None, Some err)
                | inr (edge, item) =>
                    (* never re-execute a step that has a stored result *)
                    let incoming := Incoming edge in
                    let incoming :=
                      if negb (String.eqb (IncomingGeneratorStep edge) "")
                      then IncomingGeneratorStep edge else incoming in
                    match st_ActionID s incoming with
                    | Some resp =>
                        Ret (Some (mkResp zero_Step 0 [] (Some resp) None None None
                                          false false 0), None)
                    | None =>
                        re <- run id item edge s stackIndex f ;;
                        match re with
                        | (None, Some err) => Ret (None, Some err)
                        | (None, None) =>
                            Panic "invalid memory address or nil pointer dereference"
                        | (Some resp, _) =>
                            hr <- HandleResponse id item edge resp ;;
                            Ret (Some (fst hr), snd hr)
                        end
                    end
                end
            end
        end
    end.


(** What the body of one pause goroutine leaves behind: the counters and
    the joined error. *)
Definition PauseAcc := (HandlePauseResult * option error)%type.

(** The goroutine body of [handlePausesAllNaively] for one value of the
    iterator, after [atomic.AddInt32(&res[0], 1)]. *)
Definition naive_pause (evt : TrackedEvent) (pause : option Pause) (acc : PauseAcc)
  : Prog PauseAcc :=
  let evtID := GetInternalID evt in
  let evtIDStr := ULID_String evtID in
  let res := inc_attempted (fst acc) in
  let goerr := snd acc in
  match pause with
  | None => Ret (res, goerr)
  | Some pause =>
      now <- call time_Now ;;
      if time_Before (p_Expires pause) now then
        _ <- call (sm_DeletePause pause) ;;
        Ret (res, goerr)
      else if match p_TriggeringEventID pause with
              | Some t => String.eqb t evtIDStr
              | None => false
              end then
        Ret (res, goerr)
      else
        ended <-
          (if p_Cancel pause then
             ex <- call (sm_Exists (id_RunID (p_Identifier pause))) ;;
             Ret (negb (fst ex) && negb (isSome (snd ex)))
           else Ret false) ;;
        if ended then
          _ <- call (sm_DeletePause pause) ;;
          Ret (res, goerr)
        else
          let matched :=
            match p_Expression pause with
            | Some expression =>
                let data := [("async", JObj (Event_Map (GetEvent evt)))] in
                let data :=
                  if (0 <? Z.of_nat (List.length (p_ExpressionData pause)))
                  then Data_Add data (p_ExpressionData pause) else data in
                match NewExpressionEvaluator expression with
                | inl _ => false
                | inr expr =>
                    match ev_Evaluate expr data with
                    | (_, Some _) => false
                    | (JBool result, None) => result
                    | (_, None) => false
                    end
                end
            | None => true
            end in
          if negb matched then Ret (res, goerr)
          else if p_Cancel pause then
            err <- Cancel (id_RunID (p_Identifier pause))
                          (mkCancelRequest (Some evtID) (p_Expression pause)) ;;
            if errors_Is_opt err ErrFunctionCancelled
               || errors_Is_opt err ErrFunctionComplete
               || errors_Is_opt err ErrFunctionFailed
               || errors_Is_opt err ErrFunctionEnded then
              Ret (res, goerr)
            else
              let consume :=
                cerr <- call (sm_ConsumePause (p_ID pause) None) ;;
                match cerr with
                | None => Ret (inc_consumed res, goerr)
                | Some ce =>
                    if err_is cerr ErrPauseLeased || err_is cerr ErrPauseNotFound
                    then Ret (inc_consumed res, goerr)
                    else Ret (res, errors_Join goerr
                                     (Errorf "error consuming pause after cancel" ce))
                end in
              match err with
              | Some er =>
                  if negb (strings_Contains (error_Error er) "no status stored in metadata")
                  then Ret (res, errors_Join goerr (Errorf "error cancelling function" er))
                  else consume
              | None => consume
              end
          else
            let resumeData := Pause_GetResumeData pause (GetEvent evt) in
            err <- Resume pause (mkResumeRequest (rd_With resumeData) (Some evtID)
                                                 (rd_RunID resumeData)
                                                 (rd_StepName resumeData)) ;;
            match err with
            | Some er =>
                Ret (res, errors_Join goerr (Errorf "error consuming pause after cancel" er))
            | None => Ret (inc_consumed res, goerr)
            end
  end.

(** [PauseHandleConcurrency], the weight of the semaphore. *)
Definition PauseHandleConcurrency : nat := 100.

(** What the goroutines started so far have added to the counters when
    [return res] copies them without waiting: [started] says, goroutine by
    goroutine, whether it adds to consumed, and [marks] how far each has
    got.  A goroutine holds the semaphore until its end, so at most
    [running] of them are short of their end: a mark past that number, or
    a missing one, stands for a goroutine at its end. *)
Fixpoint racy_counters (started : list bool) (marks : list Progress) (running : nat)
  (res : HandlePauseResult) : HandlePauseResult :=
  match started with
  | [] => res
  | consumes :: started' =>
      let finished :=
        if consumes then inc_consumed (inc_attempted res) else inc_attempted res in
      match marks, running with
      | NotCounted :: marks', S running' => racy_counters started' marks' running' res
      | Counted :: marks', S running' =>
          racy_counters started' marks' running' (inc_attempted res)
      | _ :: marks', _ => racy_counters started' marks' running finished
      | [], _ => racy_counters started' [] running finished
      end
  end.

(** The state of the loop: the counters and the joined error as the
    goroutines leave them, and for each goroutine started whether it added
    to consumed. *)
Definition NaiveState := (PauseAcc * list bool)%type.

(** The loop of [handlePausesAllNaively] over the iterator.  The goroutines
    run under a semaphore in the source; here each body is run to its end
    where it is started, which is one of the orders the scheduler may
    choose, so the calls of a goroutine stand in the trace where it is
    started.  When the semaphore fails the function returns without
    [wg.Wait()]: the counters it returns are the copy taken at that
    moment, [racy_counters], the scheduler saying how far the goroutines
    have got by then. *)
Fixpoint naive_loop (evt : TrackedEvent) (vals : list (option Pause)) (st : NaiveState)
  : Prog (NaiveState + HandlePauseResult * error) :=
  match vals with
  | [] => Ret (inl st)
  | pause :: rest =>
      serr <- call sem_Acquire ;;
      match serr with
      | Some er =>
          marks <- call (go_Progress (List.length (snd st))) ;;
          Ret (inr (racy_counters (snd st) marks PauseHandleConcurrency (0, 0),
                    Errorf "error blocking on semaphore" er))
      | None =>
          acc' <- naive_pause evt pause (fst st) ;;
          let consumes := negb (snd (fst acc') =? snd (fst (fst st))) in
          naive_loop evt rest (acc', (snd st ++ [consumes])%list)
      end
  end.

(** The end of [handlePausesAllNaively]: the early return of the loop, or
    [wg.Wait()] and the join of the iterator's error. *)
Definition naive_end (iter : PauseIterator)
  (r : NaiveState + HandlePauseResult * error)
  : Prog (HandlePauseResult * option error) :=
  match r with
  | inr (res, err) => Ret (res, Some err)
  | inl ((res, goerr), _) =>
      let goerr :=
        if negb (err_is (iter_Error iter) ContextCanceled) then
          errors_Join goerr
            match iter_Error iter with
            | Some ie => Errorf "pause iteration error" ie
            | None => ErrorfNil "pause iteration error"
            end
        else goerr in
      Ret (res, goerr)
  end.

(** The state of the loop after a goroutine that added to attempted and
    not to consumed. *)
Definition attempted_only (st : NaiveState) : NaiveState :=
  ((inc_attempted (fst (fst st)), snd (fst st)), (snd st ++ [false])%list).

(** What is left of [handlePausesAllNaively] when its loop is in the state
    [st] with the values [vals] to come. *)
Definition handlePausesAllNaively_from (iter : PauseIterator) (evt : TrackedEvent)
  (vals : list (option Pause)) (st : NaiveState)
  : Prog (HandlePauseResult * option error) :=
  r <- naive_loop evt vals st ;;
  naive_end iter r.

(** [executor.handlePausesAllNaively]. *)
Definition handlePausesAllNaively (iter : PauseIterator) (evt : TrackedEvent)
  : Prog (HandlePauseResult * option error) :=
  let res : HandlePauseResult := (0, 0) in
  if negb (has_queue e) || negb (has_sm e) then
    Ret (res, Some (ErrOther "No queue or state manager specified"))
  else
    handlePausesAllNaively_from iter evt (iter_Vals iter) ((res, None), []).


(** The goroutine body of [handleAggregatePauses] for one matching pause. *)
Definition aggregate_pause (evt : TrackedEvent) (pause : Pause) (acc : PauseAcc)
  : Prog PauseAcc :=
  let evtID := GetInternalID evt in
  let evtIDStr := ULID_String evtID in
  let res := inc_attempted (fst acc) in
  let goerr := snd acc in
  now <- call time_Now ;;
  if time_Before (p_Expires pause) now then
    _ <- call (sm_DeletePause pause) ;;
    _ <- call (agg_RemovePause pause) ;;
    Ret (res, goerr)
  else if match p_TriggeringEventID pause with
          | Some t => String.eqb t evtIDStr
          | None => false
          end then
    Ret (res, goerr)
  else
    ended <-
      (if p_Cancel pause then
         ex <- call (sm_Exists (id_RunID (p_Identifier pause))) ;;
         Ret (negb (fst ex) && negb (isSome (snd ex)))
       else Ret false) ;;
    if ended then
      _ <- call (sm_DeletePause pause) ;;
      _ <- call (agg_RemovePause pause) ;;
      Ret (res, goerr)
    else if p_Cancel pause then
      err <- Cancel (id_RunID (p_Identifier pause))
                    (mkCancelRequest (Some evtID) (p_Expression pause)) ;;
      if errors_Is_opt err ErrFunctionCancelled
         || errors_Is_opt err ErrFunctionComplete
         || errors_Is_opt err ErrFunctionFailed
         || errors_Is_opt err ErrFunctionEnded then
        _ <- call (agg_RemovePause pause) ;;
        Ret (res, goerr)
      else
        match err with
        | Some er =>
            if strings_Contains (error_Error er) "no status stored in metadata" then
              _ <- call (agg_RemovePause pause) ;;
              Ret (res, goerr)
            else Ret (res, errors_Join goerr (Errorf "error cancelling function" er))
        | None =>
            cerr <- call (sm_ConsumePause (p_ID pause) None) ;;
            match cerr with
            | None =>
                _ <- call (agg_RemovePause pause) ;;
                Ret (inc_consumed res, goerr)
            | Some ce =>
                if err_is cerr ErrPauseLeased || err_is cerr ErrPauseNotFound then
                  _ <- call (agg_RemovePause pause) ;;
                  Ret (inc_consumed res, goerr)
                else Ret (res, errors_Join goerr
                                 (Errorf "error consuming pause after cancel" ce))
            end
        end
    else
      let resumeData := Pause_GetResumeData pause (GetEvent evt) in
      err <- Resume pause (mkResumeRequest (rd_With resumeData) (Some evtID)
                                           (rd_RunID resumeData)
                                           (rd_StepName resumeData)) ;;
      match err with
      | Some er =>
          Ret (res, errors_Join goerr (Errorf "error consuming pause after cancel" er))
      | None =>
          _ <- call (agg_RemovePause pause) ;;
          Ret (inc_consumed res, goerr)
      end.

(** The loop of [handleAggregatePauses] over the aggregator's matches; a
    value that is not a pause, or a nil pause, is skipped. *)
Fixpoint aggregate_loop (evt : TrackedEvent) (evals : list (option Pause))
  (acc : PauseAcc) : Prog PauseAcc :=
  match evals with
  | [] => Ret acc
  | None :: rest => aggregate_loop evt rest acc
  | Some found :: rest =>
      acc' <- aggregate_pause evt found acc ;;
      aggregate_loop evt rest acc'
  end.

(** [executor.handleAggregatePauses]. *)
Definition handleAggregatePauses (evt : TrackedEvent)
  : Prog (HandlePauseResult * option error) :=
  let res : HandlePauseResult := (0, 0) in
  if negb (has_exprAggregator e) then
    Ret ((0, 0), Some (ErrOther "no expression evaluator found"))
  else
    r <- call (agg_EvaluateAsyncEvent evt) ;;
    let '(evals, count, err) := r in
    match err with
    | Some er => Ret ((count, 0), Some er)
    | None => aggregate_loop evt evals (res, None)
    end.

(** [executor.HandlePauses]. *)
Definition HandlePauses (iter : PauseIterator) (evt : TrackedEvent)
  : Prog (HandlePauseResult * option error) :=
  if 10 <? iter_Count iter then handleAggregatePauses evt
  else
    r <- handlePausesAllNaively iter evt ;;
    Ret (fst r, None).


(** The idempotency key of [Schedule]: four assignments in a row. *)
Definition Schedule_key (req : ScheduleRequest) (runID : ULID) : string :=
  let key := "" in
  let key :=
    match req_IdempotencyKey req with
    | Some k => k
    | None => key
    end in
  let key :=
    match req_OriginalRunID req with
    | Some _ => ULID_String runID
    | None => key
    end in
  let key :=
    match req_Events req with
    | [ev] => if String.eqb key "" then ULID_String (GetInternalID ev) else key
    | _ => key
    end in
  let key :=
    match req_BatchID req with
    | Some b => if String.eqb key "" then ULID_String b else key
    | None => key
    end in
  key.

(** The concurrency keys [Schedule] stores on the identifier. *)
Definition Schedule_concurrency (req : ScheduleRequest) (mapped0 : jmap)
  : list CustomConcurrency :=
  match fn_Concurrency (req_Function req) with
  | None => []
  | Some limits =>
      flat_map (fun limit =>
        if negb (IsCustomLimit limit) then []
        else
          let scopeID :=
            match lim_Scope limit with
            | ConcurrencyScopeAccount => req_AccountID req
            | ConcurrencyScopeEnv => req_WorkspaceID req
            | ConcurrencyScopeFn => fn_ID (req_Function req)
            end in
          [mkCustomConcurrency (limit_Evaluate limit scopeID mapped0)
                               (lim_Hash limit) (lim_Limit limit)]) limits
  end.

(** The loop of [Schedule] that saves one cancellation pause per declared
    trigger; [Some err] is the error [Schedule] returns with the identifier. *)
Fixpoint Schedule_cancel_pauses (req : ScheduleRequest) (id : Identifier)
  (eventID0 : ULID) (ev0 : TrackedEvent) (mapped0 : jmap) (cs : list Cancel_)
  : Prog (option error) :=
  match cs with
  | [] => Ret None
  | c :: rest =>
      pauseID <- call uuid_New ;;
      t <- call time_Now ;;
      let expires := time_Add t CancelTimeout in
      ex <-
        match c_Timeout c with
        | Some timeout =>
            match ParseDuration timeout with
            | inl err => Ret (inl (Errorf "error parsing cancel duration" err))
            | inr dur => t' <- call time_Now ;; Ret (inr (time_Add t' dur))
            end
        | None => Ret (inr expires)
        end ;;
      match ex with
      | inl err => Ret (Some err)
      | inr expires =>
          let expr := generateCancelExpression eventID0 (c_If c) in
          match NewExpressionEvaluator expr with
          | inl err => Ret (Some err)
          | inr eval =>
              let data :=
                ev_FilteredAttributes eval [("event", JObj (Event_Map (GetEvent ev0)))] in
              let triggeringID := ULID_String (GetInternalID ev0) in
              let interpolated := fst (Interpolate expr [("event", JObj mapped0)]) in
              let pause :=
                mkPause pauseID (req_WorkspaceID req) id "" "" "" "" None expires
                        (Some (c_Event c)) (Some interpolated) data "" false true
                        (Some triggeringID) None None None None in
              err <- call (sm_SavePause pause) ;;
              match err with
              | Some er => Ret (Some (Errorf "error saving pause" er))
              | None => Schedule_cancel_pauses req id eventID0 ev0 mapped0 rest
              end
          end
      end
  end.

(** [executor.Schedule]. *)
Definition Schedule (req : ScheduleRequest) : Prog (option Identifier * option error) :=
  let fn := req_Function req in
  match req_Events req with
  | [] =>
      (* [req.Events[0]] is out of range: at once under debounce, otherwise
         when the identifier is built *)
      if fn_Debounce fn && negb (req_PreventDebounce req) then
        Panic "index out of range [0] with length 0"
      else
        now <- call time_Now ;;
        _ <- ulid_MustNew (ulid_Timestamp now) ;;
        Panic "index out of range [0] with length 0"
  | ev0 :: _ =>
      if fn_Debounce fn && negb (req_PreventDebounce req) then
        (* [e.debouncer.Debounce]: no test of [e.debouncer] comes first *)
        if negb (has_debouncer e) then Panic nil_dereference
        else
          err <- call (debouncer_Debounce
                         (mkDebounceItem (req_AccountID req) (req_WorkspaceID req)
                                         (req_AppID req) (fn_ID fn) (fn_FunctionVersion fn)
                                         (GetInternalID ev0) (GetEvent ev0))
                         fn) ;;
          match err with
          | Some er => Ret (None, Some er)
          | None => Ret (None, Some ErrFunctionDebounced)
          end
      else
        now <- call time_Now ;;
        runID <- ulid_MustNew (ulid_Timestamp now) ;;
        let key := Schedule_key req runID in
        let eventIDs := map GetInternalID (req_Events req) in
        let id0 :=
          mkIdentifier (fn_ID fn) (fn_FunctionVersion fn) runID (req_BatchID req)
                       (GetInternalID ev0) eventIDs key (req_AccountID req)
                       (req_WorkspaceID req) (req_AppID req) (req_OriginalRunID req)
                       (req_ReplayID req) [] None in
        isPaused <-
          match req_FunctionPausedAt req with
          | Some pausedAt => t <- call time_Now ;; Ret (time_Before pausedAt t)
          | None => Ret false
          end ;;
        if isPaused then
          fire (OnFunctionSkipped id0 (Event_CronSchedule (GetEvent ev0))) ;;;
          Ret (None, Some ErrFunctionSkipped)
        else
          let mapped := map (fun item => Event_Map (GetEvent item)) (req_Events req) in
          let mapped0 := Event_Map (GetEvent ev0) in
          let factor := RunPriorityFactor fn mapped0 in
          let id :=
            mkIdentifier (fn_ID fn) (fn_FunctionVersion fn) runID (req_BatchID req)
                         (GetInternalID ev0) eventIDs key (req_AccountID req)
                         (req_WorkspaceID req) (req_AppID req) (req_OriginalRunID req)
                         (req_ReplayID req) (Schedule_concurrency req mapped0)
                         (if factor =? 0 then None else Some factor) in
          let stateMetadata :=
            with_trace_carrier match req_Context req with Some c => c | None => [] end in
          spanID <- call telemetry_NewSpanID ;;
          ns <- call (sm_New (mkInput id mapped stateMetadata spanID)) ;;
          match ns with
          | inl err =>
              if err_is (Some err) ErrIdentifierExists then Ret (None, Some ErrIdentifierExists)
              else Ret (None, Some (Errorf "error creating run state" err))
          | inr s =>
              perr <-
                match req_BatchID req with
                | None =>
                    Schedule_cancel_pauses req id (GetInternalID ev0) ev0 mapped0
                                           (fn_Cancel fn)
                | Some _ => Ret None
                end ;;
              match perr with
              | Some err => Ret (Some id, Some err)
              | None =>
                  at_ <- call time_Now ;;
                  let at_ :=
                    match req_BatchID req with
                    | None =>
                        let evtTs := time_UnixMilli (evt_Timestamp (GetEvent ev0)) in
                        if time_After evtTs at_ then evtTs else at_
                    | Some _ => at_
                    end in
                  let at_ := match req_At req with Some a => a | None => at_ end in
                  let throttle :=
                    match fn_Throttle fn with
                    | Some th =>
                        let throttleKey := HashID (UUID_String (fn_ID fn)) in
                        let throttleKey :=
                          match fth_Key th with
                          | Some k =>
                              throttleKey ++ "-" ++
                              HashID (fmt_v (expressions_Evaluate k [("event", JObj mapped0)]))
                          | None => throttleKey
                          end in
                        (* [int(Limit)], [int(Burst)], [int(Period.Seconds())] *)
                        Some (mkThrottle throttleKey (int_wrap (fth_Limit th))
                                         (int_wrap (fth_Burst th))
                                         (int_of_float64 (Duration_Seconds (fth_Period th))))
                    | None => None
                    end in
                  let queueKey := UUID_String (fn_ID fn) ++ ":" ++ key in
                  g <- call uuid_New ;;
                  let item :=
                    mkItem (Some queueKey) (UUID_String g) (req_WorkspaceID req) KindStart
                           id 0 (Some sourceEdgeRetries) (PayloadEdge SourceEdge)
                           throttle [] in
                  err <- enqueue item at_ ;;
                  match err with
                  | Some er =>
                      if err_is err ErrQueueItemExists then
                        Ret (None, Some ErrIdentifierExists)
                      else
                        Ret (None, Some (Errorf
                               ("error enqueueing source edge '" ++ queueKey ++ "'") er))
                  | None =>
                      fire (OnFunctionScheduled id item s) ;;;
                      Ret (Some id, None)
                  end
              end
          end
  end.

End Executor.

(** ** Specification devices *)


(** A call to a runtime driver. *)
Definition is_driver_call (ev : event) : bool :=
  match ev_call ev with
  | driver_Execute _ _ _ _ _ _ _ => true
  | _ => false
  end.

(** The run state, when the trace starts with a [Load] that succeeded. *)
Definition loaded_state (tr : trace) : option State :=
  match tr with
  | Ev c x :: _ =>
      match c in E T return T -> option State with
      | sm_Load _ => fun r => match r with inr s => Some s | inl _ => None end
      | _ => fun _ => None
      end x
  | [] => None
  end.

(** The function definition that the function loader answered with. *)
Fixpoint loaded_function (tr : trace) : option Function :=
  match tr with
  | [] => None
  | Ev c x :: tr' =>
      match c in E T return T -> option Function with
      | fl_LoadFunction _ =>
          fun r => match r with inr f => Some f | inl _ => loaded_function tr' end
      | _ => fun _ => loaded_function tr'
      end x
  end.

(** The run validator let the run go on: no error, no stop. *)
Definition validation_passed (tr : trace) : bool :=
  existsb (fun ev =>
             match ev with
             | Ev c x =>
                 match c in E T return T -> bool with
                 | validate _ _ _ =>
                     fun r => match r with (None, false) => true | _ => false end
                 | _ => fun _ => false
                 end x
             end) tr.

Definition calls_driver (tr : trace) : bool := existsb is_driver_call tr.

(** The pauses handed to [SavePause] along a trace, in order. *)
Definition saved_pause (ev : event) : list Pause :=
  match ev_call ev with
  | sm_SavePause p => [p]
  | _ => []
  end.

Definition saved_pauses (tr : trace) : list Pause := flat_map saved_pause tr.

(** A [SavePause] that the store answered with [ErrPauseAlreadyExists]. *)
Definition pause_already_exists (ev : event) : bool :=
  match ev with
  | Ev c x =>
      match c in E T return T -> bool with
      | sm_SavePause _ => fun err => err_is err ErrPauseAlreadyExists
      | _ => fun _ => false
      end x
  end.

(** The calls that follow the first such answer, if there is one. *)
Fixpoint after_pause_exists (tr : trace) : option trace :=
  match tr with
  | [] => None
  | ev :: tr' => if pause_already_exists ev then Some tr' else after_pause_exists tr'
  end.

(** What the wait-for-event and invoke handlers guarantee about the pause
    they save: they save at most one, and a handler that returns nil has
    saved one; its id is the version-5 UUID of the run id followed by the
    step id; and nothing is called after a [SavePause] that found the pause
    in place, the handler returning nil. *)
Definition opcode_pause_post {X : Externals} (gen : GeneratorOpcode) (item : Item)
  (tr : trace) (o : outcome (option error)) : Prop :=
  Forall (fun p => p_ID p = NewSHA1 NameSpaceOID
                              (ULID_String (id_RunID (it_Identifier item)) ++ gen_ID gen))
         (saved_pauses tr) /\
  (List.length (saved_pauses tr) <= 1)%nat /\
  (o = Returned None -> exists p, saved_pauses tr = [p]) /\
  (forall post, after_pause_exists tr = Some post -> post = [] /\ o = Returned None).

(** One pause handled: the attempted counter grows by one and the consumed
    counter by at most one. *)
Definition counts_step (acc acc' : PauseAcc) : Prop :=
  fst (fst acc') = int32_wrap (fst (fst acc) + 1) /\
  (snd (fst acc') = snd (fst acc) \/ snd (fst acc') = int32_wrap (snd (fst acc) + 1)).

(** After [n] pauses: consumed is at most attempted, which is at most [n]. *)
Definition counts_inv (n : Z) (res : HandlePauseResult) : Prop :=
  0 <= snd res <= fst res /\ fst res <= n.

(** The step id under which [Execute] looks for a stored result: the
    generator step of the edge when it has one, else the incoming step, which
    for the trigger edge is the function's first step. *)
Definition memo_key {X : Externals} (f : Function) (edge : Edge) : string :=
  if negb (String.eqb (IncomingGeneratorStep edge) "") then IncomingGeneratorStep edge
  else if String.eqb (Incoming edge) TriggerName then
         match fn_Steps f with
         | step0 :: _ => step_ID step0
         | [] => Incoming edge
         end
       else Incoming edge.

(** The trigger edge of a queue item resolves to the only step of [f]. *)
Definition trigger_resolves {X : Externals} (f : Function) (item : Item) (edge : Edge)
  : Prop :=
  Incoming edge = TriggerName ->
  (exists step0, fn_Steps f = [step0]) /\
  (exists payload, it_Payload item = PayloadEdge payload).

(** The response [Execute] builds from a stored result. *)
Definition stored_response (out : json) : DriverResponse :=
  mkResp zero_Step 0 [] (Some out) None None None false false 0.

(** What [Execute] guarantees when the run that it loaded holds a stored
    result under the step id it looks up: no driver is called, and once the
    validator lets the run go on and the trigger edge resolves, the stored
    result is the response. *)
Definition Execute_post {X : Externals} (item : Item) (edge : Edge) (tr : trace)
  (o : outcome (option DriverResponse * option error)) : Prop :=
  forall (s : State) (f : Function) (out : json),
    loaded_state tr = Some s ->
    loaded_function tr = Some f ->
    st_ActionID s (memo_key f edge) = Some out ->
    calls_driver tr = false /\
    (validation_passed tr = true -> trigger_resolves f item edge ->
     o = Returned (Some (stored_response out), None)).

(** The expression of the cancellation pause of trigger [c], for a run
    triggered by [ev0]. *)
Definition cancel_expression {X : Externals} (ev0 : TrackedEvent) (c : Cancel_) : string :=
  fst (Interpolate (generateCancelExpression (GetInternalID ev0) (c_If c))
                   [("event", JObj (Event_Map (GetEvent ev0)))]).

(** What is known of a cancellation pause: no id or expiry, which come from
    the random source and the clock. *)
Definition cancel_pause_view (p : Pause)
  : option string * option string * option string * bool :=
  (p_Event p, p_Expression p, p_TriggeringEventID p, p_Cancel p).

Definition expected_cancel_view {X : Externals} (ev0 : TrackedEvent) (c : Cancel_)
  : option string * option string * option string * bool :=
  (Some (c_Event c), Some (cancel_expression ev0 c),
   Some (ULID_String (GetInternalID ev0)), true).


(** [wpt p Q]: whatever the collaborators answer, the trace and the outcome
    of [p] satisfy [Q]. *)
Fixpoint wpt {R : Type} (p : Prog R) (Q : trace -> outcome R -> Prop) : Prop :=
  match p with
  | Ret r => Q [] (Returned r)
  | Panic m => Q [] (Panicked m)
  | Vis e k => forall x, wpt (k x) (fun tr o => Q (Ev e x :: tr) o)
  end.

(** The events of the listeners a call is fired at. *)
Definition fired (ls : list Listener) (c : LifecycleCall) : trace :=
  map (fun l => Ev (lifecycle l c) tt) ls.


(** ** A concrete instance, for the examples

    One choice of the parameters, and collaborators that answer every call
    with a fixed value; the world counts the calls answered. *)
Module Sample.

Fixpoint split_dot (s cur : string) : list string :=
  match s with
  | EmptyString => [cur]
  | String c s' =>
      if Ascii.eqb c "." then cur :: split_dot s' ""
      else split_dot s' (cur ++ String c "")
  end.

Fixpoint jpath (ks : list string) (j : json) : option json :=
  match ks with
  | [] => Some j
  | k :: ks' =>
      match j with
      | JObj m => match jmap_get k m with Some j' => jpath ks' j' | None => None end
      | _ => None
      end
  end.

(** The attributes of an expression's data, as CEL values. *)
Definition env_of (data : jmap) : CEL.env :=
  fun p =>
    match jpath (split_dot p "") (JObj data) with
    | Some JNull => Some CEL.VNull
    | Some (JBool b) => Some (CEL.VBool b)
    | Some (JNum n) => Some (CEL.VInt n)
    | Some (JStr s) => Some (CEL.VStr s)
    | _ => None
    end.

Definition evaluator (expr : string) : Evaluator :=
  mkEvaluator (fun data => (JBool (CEL.matches expr (env_of data)), None))
              (fun data => data).

Definition externals : Externals := {|
  TriggerName := "$trigger";
  SourceEdge := mkEdge "" "$trigger" "";
  CancelTimeout := 31536000000000000;
  FnFailedName := "inngest/function.failed";
  FnFinishedName := "inngest/function.finished";
  InngestEventDataPrefix := "_inngest";
  InvokeCorrelationId := "correlation_id";
  NameSpaceOID := 6%N;
  NewSHA1 := fun ns name => (ns + N.of_nat (String.length name))%N;
  UUID_String := fun u => "uuid-" ++ fmt_d u;
  strconv_Quote := fun s => "'" ++ s ++ "'";
  fmt_v := fun _ => "v";
  HashID := fun s => s;
  error_Error := fun err =>
    match err with
    | ErrFunctionCancelled => "function cancelled"
    | ErrOther msg => msg
    | _ => "error"
    end;
  json_Marshal := fun _ => inr "{}";
  Identifier_IdempotencyKey := fun id => "uuid-" ++ fmt_d (id_WorkflowID id) ++ ":" ++ id_Key id;
  Pause_Edge := fun p => mkEdge (p_Outgoing p) (p_Incoming p) "";
  Pause_GetResumeData := fun p evt => mkResumeData (Some (evt_Data evt)) None (p_StepName p);
  Item_GetMaxAttempts := fun it => match it_MaxAttempts it with Some m => m | None => 4 end;
  ShouldRetry := fun attempt max => attempt + 1 <? max;
  Step_RetryCount := fun s => match step_Retries s with Some r => r | None => 3 end;
  Step_Driver := fun _ => "http";
  Opcode_String := fun op =>
    match op with
    | OpcodeNone => "None" | OpcodeStep => "Step" | OpcodeStepRun => "StepRun"
    | OpcodeStepError => "StepError" | OpcodeStepPlanned => "StepPlanned"
    | OpcodeSleep => "Sleep" | OpcodeWaitForEvent => "WaitForEvent"
    | OpcodeInvokeFunction => "InvokeFunction" | OpcodeUnknown _ => "Opcode"
    end;
  Gen_Output := fun g => inr "{error: {}}";
  Gen_SleepDuration := fun _ => inr 1000000000;
  Gen_WaitForEventOpts := fun _ => inr (mkWaitOpts "x" "1m" None);
  Gen_InvokeFunctionOpts := fun _ =>
    inr (mkInvokeOpts "target-fn" (Some (mkEvent "" "inngest/function.invoked" [] 0)) "1m");
  Gen_UserDefinedName := fun g => gen_Name g;
  WaitForEventOpts_any := fun _ => JNull;
  Event_Map := fun evt =>
    [("name", JStr (evt_Name evt)); ("data", JObj (evt_Data evt));
     ("id", JStr (evt_ID evt)); ("ts", JNum (evt_Timestamp evt))];
  Event_CronSchedule := fun _ => None;
  Event_CorrelationID := fun _ => "";
  ulid_Parse := fun _ => Some (mkULID 0 0);
  Data_Add := fun data extra => (extra ++ data)%list;
  with_trace_carrier := fun m => m;
  extractTraceCtxFromMap_ok := fun _ => false;
  StandardError := fun _ => [];
  Resp_SetError := fun r err => r;
  Resp_SetFinal := fun r => r;
  ParseDuration := fun _ => inr 60000000000;
  NewExpressionEvaluator := fun expr =>
    match CEL.parse expr with
    | Some _ => inr (evaluator expr)
    | None => inl (ErrOther "error compiling expression")
    end;
  expressions_Validate := fun _ => None;
  expressions_Evaluate := fun _ _ => JNull;
  Interpolate := fun expr _ => (expr, None);
  state_ExpressionData := fun s => [("event", JObj (st_Event s))];
  IsCustomLimit := fun l => isSome (lim_Key l);
  limit_Evaluate := fun _ _ _ => "key";
  RunPriorityFactor := fun _ _ => 0;
  Resp_Retryable := fun r => negb (r_NoRetry r);
  Resp_Error := fun r => match r_Err r with Some msg => msg | None => "" end;
  opGroups_All := fun ops => [mkGroup ops false]
|}.

#[local] Existing Instance externals.

Definition exec : executor :=
  mkExecutor false true true true true None ["http"] true true [0%nat] true.

Definition fn : Function :=
  mkFunction 7%N 1 "app-fn" false [mkCancel "abort" None None] None None
             [mkStep "step" "step" "http://app/fn" None].

(** A triggering event received at millisecond 1000. *)
Definition trigger : TrackedEvent :=
  mkTrackedEvent (mkULID 1000 1) (mkEvent "evt-1" "app/start" [] 1000) 9%N.

Definition runID : ULID := mkULID 2000 2.

Definition ident : Identifier :=
  mkIdentifier 7%N 1 runID None (mkULID 1000 1) [mkULID 1000 1]
               (ULID_String (mkULID 1000 1)) 8%N 9%N 10%N None None [] None.

Definition metadata (status : RunStatus) : Metadata :=
  mkMetadata ident status (Some 2000000000) [] false false 0 (Some "span").

Definition state (status : RunStatus) (outputs : string -> option json) : State :=
  mkState (metadata status) ident fn [Event_Map (GetEvent trigger)]
          (Event_Map (GetEvent trigger)) outputs.

Definition no_outputs : string -> option json := fun _ => None.

Definition request : ScheduleRequest :=
  mkScheduleRequest fn None 8%N 9%N 10%N None None [trigger] None None None false None.

(** A rerun of an earlier run, with an idempotency key of its own. *)
Definition rerun_request : ScheduleRequest :=
  mkScheduleRequest fn None 8%N 9%N 10%N (Some (mkULID 500 5)) None [trigger] None
                    (Some "my-key") None false None.

Definition edge : Edge := mkEdge "$trigger" "step" "".


(** A wait-for-event pause of the sample run, waiting at step [wait]. *)
Definition pause : Pause :=
  mkPause 12%N 9%N ident "group" "wait" "step" "wait" (Some "WaitForEvent")
          62000000000 (Some "app/continue") None [] "wait" false false None None None
          None None.

(** The same pause, expired long before the sample clock reading. *)
Definition expired_pause : Pause :=
  mkPause 12%N 9%N ident "group" "wait" "step" "wait" (Some "WaitForEvent")
          1000000000 (Some "app/continue") None [] "wait" false false None None None
          None None.

(** An expired invoke pause whose triggering event is the event [later]
    below. *)
Definition expired_own_pause : Pause :=
  mkPause 13%N 9%N ident "group" "call" "step" "call" (Some "InvokeFunction")
          1000000000 (Some "inngest/function.finished") None [] "call" false false
          (Some (ULID_String (mkULID 3000 3))) None None None None.

(** An event received after the run was created. *)
Definition later : TrackedEvent :=
  mkTrackedEvent (mkULID 3000 3) (mkEvent "evt-2" "app/continue" [] 3000) 9%N.

Definition resume_request : ResumeRequest :=
  mkResumeRequest (Some []) (Some (GetInternalID later)) None "wait".

(** A wait for the event [x] at step [wait]. *)
Definition wait_step : GeneratorOpcode :=
  mkGen OpcodeWaitForEvent "wait" "wait for x" JNull JNull None.

(** A store that already holds every pause it is asked to save. *)
Definition pause_in_place (X : Type) (c : E X) : option X :=
  match c in E T return option T with
  | sm_SavePause _ => Some (Some ErrPauseAlreadyExists)
  | _ => None
  end.

(** An iterator over a live pause, an expired pause and a nil value. *)
Definition iterator : PauseIterator :=
  mkIter [Some pause; Some expired_pause; None] 3 None.

(** An aggregator that matches the live pause and reports two evaluations. *)
Definition aggregator_matches (X : Type) (c : E X) : option X :=
  match c in E T return option T with
  | agg_EvaluateAsyncEvent _ => Some ([Some pause; None], 2, None)
  | _ => None
  end.

(** The outputs of a run whose step [step] has completed. *)
Definition step_done : string -> option json :=
  fun k => if String.eqb k "step" then Some (JStr "done") else None.

(** A validator that stops every run without asking for a retry. *)
Definition validator_stops (X : Type) (c : E X) : option X :=
  match c in E T return option T with
  | validate _ _ _ => Some (None, true)
  | _ => None
  end.

(** A store in which another runner holds the lease of every pause. *)
Definition leased_elsewhere (X : Type) (c : E X) : option X :=
  match c in E T return option T with
  | sm_LeasePause _ => Some (Some ErrPauseLeased)
  | _ => None
  end.

(** A queue that already holds every item. *)
Definition already_queued (X : Type) (c : E X) : option X :=
  match c in E T return option T with
  | queue_Enqueue _ _ => Some (Some ErrQueueItemExists)
  | _ => None
  end.

Definition item : Item :=
  mkItem (Some "job") "group" 9%N KindEdge ident 0 (Some 4) (PayloadEdge edge) None [].

(** The answers of the collaborators when nothing goes wrong. *)
Definition answer (status : RunStatus) (outputs : string -> option json)
  (X : Type) (c : E X) : X :=
  match c in E T return T with
  | time_Now => 2000000000
  | rand_Read => 2%N
  | uuid_New => 11%N
  | telemetry_NewSpanID => "span"
  | wait_Expires _ => inr 62000000000
  | invoke_Expires _ => inr 62000000000
  | event_NewInvocationEvent payload _ _ => payload
  | sm_New _ => inr (state status outputs)
  | sm_Load _ => inr (state status outputs)
  | sm_Exists _ => (true, None)
  | sm_Metadata _ => inr (metadata status)
  | GetFunctionRunMetadata _ => (Some (metadata status), None)
  | sm_UpdateMetadata _ _ => None
  | sm_SaveResponse _ _ _ => None
  | sm_SetStatus _ _ => None
  | sm_Cancel _ => None
  | sm_Delete _ => None
  | sm_SavePause _ => None
  | sm_LeasePause _ => None
  | sm_ConsumePause _ _ => None
  | sm_DeletePause _ => None
  | sm_PauseByInvokeCorrelationID _ _ => inl ErrPauseNotFound
  | queue_Enqueue _ _ => None
  | fl_LoadFunction _ => inr fn
  | validate _ _ _ => (None, false)
  | driver_Execute _ _ _ _ _ _ _ => (Some zero_DriverResponse, None)
  | debouncer_Debounce _ _ => None
  | agg_EvaluateAsyncEvent _ => ([], 0, None)
  | agg_RemovePause _ => None
  | sem_Acquire => None
  | go_Progress _ => []
  | finishHandler _ _ => None
  | handleSendingEvent _ _ => None
  | lifecycle _ _ => tt
  end.

Definition calm (status : RunStatus) (outputs : string -> option json) : handler nat :=
  fun X c n => (answer status outputs X c, S n).

(** [h] with the answers that [f] gives in its place. *)
Definition override {W : Type} (f : forall X : Type, E X -> option X) (h : handler W)
  : handler W :=
  fun X c w =>
    match f X c with
    | Some x => (x, snd (h X c w))
    | None => h X c w
    end.

End Sample.

(** ** Building an executor *)

Definition set_has_log (m : executor) (b : bool) : executor :=
  mkExecutor b (has_exprAggregator m) (has_sm m) (has_queue m) (has_fl m)
             (evalFactory m) (runtimeDrivers m) (has_finishHandler m)
             (has_handleSendingEvent m) (lifecycles m) (has_debouncer m).
Definition set_has_exprAggregator (m : executor) (b : bool) : executor :=
  mkExecutor (has_log m) b (has_sm m) (has_queue m) (has_fl m)
             (evalFactory m) (runtimeDrivers m) (has_finishHandler m)
             (has_handleSendingEvent m) (lifecycles m) (has_debouncer m).
Definition set_has_sm (m : executor) (b : bool) : executor :=
  mkExecutor (has_log m) (has_exprAggregator m) b (has_queue m) (has_fl m)
             (evalFactory m) (runtimeDrivers m) (has_finishHandler m)
             (has_handleSendingEvent m) (lifecycles m) (has_debouncer m).
Definition set_has_queue (m : executor) (b : bool) : executor :=
  mkExecutor (has_log m) (has_exprAggregator m) (has_sm m) b (has_fl m)
             (evalFactory m) (runtimeDrivers m) (has_finishHandler m)
             (has_handleSendingEvent m) (lifecycles m) (has_debouncer m).
Definition set_has_fl (m : executor) (b : bool) : executor :=
  mkExecutor (has_log m) (has_exprAggregator m) (has_sm m) (has_queue m) b
             (evalFactory m) (runtimeDrivers m) (has_finishHandler m)
             (has_handleSendingEvent m) (lifecycles m) (has_debouncer m).
Definition set_evalFactory (m : executor) (f : option (string -> error + Evaluator))
  : executor :=
  mkExecutor (has_log m) (has_exprAggregator m) (has_sm m) (has_queue m) (has_fl m)
             f (runtimeDrivers m) (has_finishHandler m)
             (has_handleSendingEvent m) (lifecycles m) (has_debouncer m).
Definition set_runtimeDrivers (m : executor) (ds : list string) : executor :=
  mkExecutor (has_log m) (has_exprAggregator m) (has_sm m) (has_queue m) (has_fl m)
             (evalFactory m) ds (has_finishHandler m)
             (has_handleSendingEvent m) (lifecycles m) (has_debouncer m).
Definition set_has_finishHandler (m : executor) (b : bool) : executor :=
  mkExecutor (has_log m) (has_exprAggregator m) (has_sm m) (has_queue m) (has_fl m)
             (evalFactory m) (runtimeDrivers m) b
             (has_handleSendingEvent m) (lifecycles m) (has_debouncer m).
Definition set_has_handleSendingEvent (m : executor) (b : bool) : executor :=
  mkExecutor (has_log m) (has_exprAggregator m) (has_sm m) (has_queue m) (has_fl m)
             (evalFactory m) (runtimeDrivers m) (has_finishHandler m)
             b (lifecycles m) (has_debouncer m).
Definition set_lifecycles (m : executor) (ls : list Listener) : executor :=
  mkExecutor (has_log m) (has_exprAggregator m) (has_sm m) (has_queue m) (has_fl m)
             (evalFactory m) (runtimeDrivers m) (has_finishHandler m)
             (has_handleSendingEvent m) ls (has_debouncer m).
Definition set_has_debouncer (m : executor) (b : bool) : executor :=
  mkExecutor (has_log m) (has_exprAggregator m) (has_sm m) (has_queue m) (has_fl m)
             (evalFactory m) (runtimeDrivers m) (has_finishHandler m)
             (has_handleSendingEvent m) (lifecycles m) b.

(** [ExecutorOpt]: an option changes the executor under construction in
    place and may fail; the executor is returned as the option left it. *)
Definition ExecutorOpt := executor -> executor * option error.

(** The options that set a field this development keeps.  The argument of
    an option that stores a collaborator says whether the value given is
    non-nil. *)
Definition WithStateManager (sm : bool) : ExecutorOpt :=
  fun m => (set_has_sm m sm, None).
Definition WithQueue (q : bool) : ExecutorOpt :=
  fun m => (set_has_queue m q, None).
Definition WithExpressionAggregator (agg : bool) : ExecutorOpt :=
  fun m => (set_has_exprAggregator m agg, None).
Definition WithFunctionLoader (l : bool) : ExecutorOpt :=
  fun m => (set_has_fl m l, None).
Definition WithLogger (l : bool) : ExecutorOpt :=
  fun m => (set_has_log m l, None).
Definition WithFinishHandler (f : bool) : ExecutorOpt :=
  fun m => (set_has_finishHandler m f, None).
Definition WithSendingEventHandler (f : bool) : ExecutorOpt :=
  fun m => (set_has_handleSendingEvent m f, None).
Definition WithDebouncer (d : bool) : ExecutorOpt :=
  fun m => (set_has_debouncer m d, None).
Definition WithEvaluatorFactory (f : option (string -> error + Evaluator)) : ExecutorOpt :=
  fun m => (set_evalFactory m f, None).

(** [executor.AddLifecycleListener] and [executor.SetFinishHandler]. *)
Definition AddLifecycleListener (m : executor) (l : Listener) : executor :=
  set_lifecycles m (lifecycles m ++ [l])%list.
Definition SetFinishHandler (m : executor) (f : bool) : executor :=
  set_has_finishHandler m f.

Definition WithLifecycleListeners (l : list Listener) : ExecutorOpt :=
  fun m => (fold_left AddLifecycleListener l m, None).

(** The loop of [WithRuntimeDrivers]; a driver is given by its
    [RuntimeType()], the key of the map [runtimeDrivers]. *)
Fixpoint register_drivers (drivers : list string) (m : executor)
  : executor * option error :=
  match drivers with
  | [] => (m, None)
  | d :: rest =>
      if existsb (String.eqb d) (runtimeDrivers m) then (m, Some ErrRuntimeRegistered)
      else register_drivers rest (set_runtimeDrivers m (d :: runtimeDrivers m))
  end.

Definition WithRuntimeDrivers (drivers : list string) : ExecutorOpt :=
  fun m => register_drivers drivers m.

(** The loop of [NewExecutor] over its options. *)
Fixpoint apply_opts (opts : list ExecutorOpt) (m : executor) : executor * option error :=
  match opts with
  | [] => (m, None)
  | o :: rest =>
      match o m with
      | (m', Some err) => (m', Some err)
      | (m', None) => apply_opts rest m'
      end
  end.

(** [NewExecutor]. *)
Definition NewExecutor (opts : list ExecutorOpt) : option executor * option error :=
  let m := mkExecutor false false false false false None [] false false [] false in
  match apply_opts opts m with
  | (_, Some err) => (None, Some err)
  | (m, None) =>
      if negb (has_sm m) then (None, Some ErrNoStateManager)
      else (Some m, None)
  end.

(** ** Finishing an invocation *)

(** [executor.HandleInvokeFinish].  The store answers with a pause or with an
    error. *)
Definition HandleInvokeFinish {X : Externals} (e : executor) (evt : TrackedEvent)
  : Prog (option error) :=
  let evtID := GetInternalID evt in
  let correlationID := Event_CorrelationID (GetEvent evt) in
  if String.eqb correlationID "" then
    Ret (Some (ErrOther "no correlation ID found in event when trying to handle finish"))
  else
    let wsID := GetWorkspaceID evt in
    pr <- call (sm_PauseByInvokeCorrelationID wsID correlationID) ;;
    match pr with
    | inl err => Ret (Some err)
    | inr pause =>
        now <- call time_Now ;;
        if time_Before (p_Expires pause) now then
          _ <- call (sm_DeletePause pause) ;;
          Ret None
        else
          ended <-
            (if p_Cancel pause then
               ex <- call (sm_Exists (id_RunID (p_Identifier pause))) ;;
               Ret (negb (fst ex) && negb (isSome (snd ex)))
             else Ret false) ;;
          if ended then
            _ <- call (sm_DeletePause pause) ;;
            Ret None
          else
            let resumeData := Pause_GetResumeData pause (GetEvent evt) in
            Resume e pause (mkResumeRequest (rd_With resumeData) (Some evtID)
                                            (rd_RunID resumeData)
                                            (rd_StepName resumeData))
    end.

(** ** Which collaborators a run talks to *)

(** The method of [execution.LifecycleListener] a notification goes to. *)
Definition method_name (c : LifecycleCall) : string :=
  match c with
  | OnFunctionScheduled _ _ _ => "OnFunctionScheduled"
  | OnFunctionStarted _ _ _ => "OnFunctionStarted"
  | OnFunctionFinished _ _ _ _ => "OnFunctionFinished"
  | OnFunctionCancelled _ _ _ => "OnFunctionCancelled"
  | OnFunctionSkipped _ _ => "OnFunctionSkipped"
  | OnStepStarted _ _ _ _ _ => "OnStepStarted"
  | OnStepScheduled _ _ _ => "OnStepScheduled"
  | OnStepFinished _ _ _ _ _ => "OnStepFinished"
  | OnSleep _ _ _ _ => "OnSleep"
  | OnWaitForEvent _ _ _ => "OnWaitForEvent"
  | OnWaitForEventResumed _ _ _ => "OnWaitForEventResumed"
  | OnInvokeFunction _ _ _ _ _ => "OnInvokeFunction"
  | OnInvokeFunctionResumed _ _ _ => "OnInvokeFunctionResumed"
  end.

(** The name of the collaborator method behind a call. *)
Definition call_name {T : Type} (c : E T) : string :=
  match c with
  | time_Now => "time.Now"
  | rand_Read => "rand.Read"
  | uuid_New => "uuid.New"
  | telemetry_NewSpanID => "telemetry.NewSpanID"
  | wait_Expires _ => "WaitForEventOpts.Expires"
  | invoke_Expires _ => "InvokeFunctionOpts.Expires"
  | event_NewInvocationEvent _ _ _ => "event.NewInvocationEvent"
  | sm_New _ => "sm.New"
  | sm_Load _ => "sm.Load"
  | sm_Exists _ => "sm.Exists"
  | sm_Metadata _ => "sm.Metadata"
  | GetFunctionRunMetadata _ => "GetFunctionRunMetadata"
  | sm_UpdateMetadata _ _ => "sm.UpdateMetadata"
  | sm_SaveResponse _ _ _ => "sm.SaveResponse"
  | sm_SetStatus _ _ => "sm.SetStatus"
  | sm_Cancel _ => "sm.Cancel"
  | sm_Delete _ => "sm.Delete"
  | sm_SavePause _ => "sm.SavePause"
  | sm_LeasePause _ => "sm.LeasePause"
  | sm_ConsumePause _ _ => "sm.ConsumePause"
  | sm_DeletePause _ => "sm.DeletePause"
  | sm_PauseByInvokeCorrelationID _ _ => "sm.PauseByInvokeCorrelationID"
  | queue_Enqueue _ _ => "queue.Enqueue"
  | fl_LoadFunction _ => "fl.LoadFunction"
  | validate _ _ _ => "runValidator.validate"
  | driver_Execute _ _ _ _ _ _ _ => "driver.Execute"
  | debouncer_Debounce _ _ => "debouncer.Debounce"
  | agg_EvaluateAsyncEvent _ => "exprAggregator.EvaluateAsyncEvent"
  | agg_RemovePause _ => "exprAggregator.RemovePause"
  | sem_Acquire => "sem.Acquire"
  | go_Progress _ => "go.Progress"
  | finishHandler _ _ => "finishHandler"
  | handleSendingEvent _ _ => "handleSendingEvent"
  | lifecycle _ c => method_name c
  end.

Definition name_in (names : list string) (n : string) : bool :=
  existsb (String.eqb n) names.

(** Every call of the trace goes to one of the methods [names]. *)
Definition calls_only (names : list string) (tr : trace) : bool :=
  forallb (fun ev => name_in names (call_name (ev_call ev))) tr.

Definition within {R : Type} (names : list string) : trace -> outcome R -> Prop :=
  fun tr _ => calls_only names tr = true.

(** The number of calls of the trace that go to the method [n]. *)
Definition count_calls (n : string) (tr : trace) : nat :=
  List.length (filter (fun ev => String.eqb (call_name (ev_call ev)) n) tr).

(** The items handed to the queue along a trace, each with the time it is
    enqueued at and the answer of the queue. *)
Definition enqueued_by (ev : event) : list (Item * Time * option error) :=
  match ev with
  | Ev c x =>
      match c in E T return T -> list (Item * Time * option error) with
      | queue_Enqueue it at_ => fun err => [(it, at_, err)]
      | _ => fun _ => []
      end x
  end.

Definition enqueued (tr : trace) : list (Item * Time * option error) :=
  flat_map enqueued_by tr.

(** At most [k] calls of the trace go to the method [n]. *)
Definition at_most {R : Type} (n : string) (k : nat) : trace -> outcome R -> Prop :=
  fun tr _ => (count_calls n tr <= k)%nat.

(** The methods the opcode handlers call. *)
Definition opcode_calls : list string :=
  ["sm.SaveResponse"; "uuid.New"; "time.Now"; "queue.Enqueue"; "OnStepScheduled";
   "OnSleep"; "InvokeFunctionOpts.Expires"; "event.NewInvocationEvent";
   "telemetry.NewSpanID"; "sm.SavePause"; "handleSendingEvent"; "OnInvokeFunction";
   "WaitForEventOpts.Expires"; "sm.Load"; "OnWaitForEvent"].

(** The methods called while the opcodes of a response are handled. *)
Definition generator_calls : list string :=
  ("GetFunctionRunMetadata" :: "sm.UpdateMetadata" :: opcode_calls).

(** The methods called while a driver response is handled. *)
Definition response_calls : list string :=
  ("OnStepFinished" :: "sm.SetStatus" :: "rand.Read" :: "finishHandler"
   :: "OnFunctionFinished" :: generator_calls).

(** The methods called while an event is matched against pauses. *)
Definition pause_calls : list string :=
  ["time.Now"; "sm.DeletePause"; "sm.Exists"; "sem.Acquire"; "go.Progress";
   "exprAggregator.EvaluateAsyncEvent"; "exprAggregator.RemovePause";
   "sm.Load"; "sm.Cancel"; "sm.Delete"; "rand.Read"; "finishHandler"; "sm.Metadata";
   "OnFunctionCancelled";
   "sm.LeasePause"; "sm.ConsumePause"; "uuid.New"; "queue.Enqueue";
   "OnInvokeFunctionResumed"; "OnWaitForEventResumed"].

(** The methods called while a run is scheduled. *)
Definition schedule_calls : list string :=
  ["debouncer.Debounce"; "time.Now"; "rand.Read"; "OnFunctionSkipped";
   "telemetry.NewSpanID"; "sm.New"; "uuid.New"; "sm.SavePause"; "queue.Enqueue";
   "OnFunctionScheduled"].

(** The methods [Cancel] calls. *)
Definition cancel_calls : list string :=
  ["sm.Load"; "sm.Cancel"; "sm.Delete"; "time.Now"; "rand.Read"; "finishHandler";
   "sm.Metadata"; "OnFunctionCancelled"].

(** Every value that [f] reads off a call of the trace satisfies [Q]. *)
Definition all_of {R C : Type} (f : event -> list C) (Q : C -> Prop)
  : trace -> outcome R -> Prop :=
  fun tr _ => Forall Q (flat_map f tr).

(** The lists of events handed to the finish handler along a trace. *)
Definition finish_events_of (ev : event) : list (list Event) :=
  match ev_call ev with
  | finishHandler _ events => [events]
  | _ => []
  end.

Definition finish_handler_events (tr : trace) : list (list Event) :=
  flat_map finish_events_of tr.

(** What holds of an event [runFinishHandler] sends for the run [s] that
    ended with [resp]: it is named [FnFinishedName], or [FnFailedName] when
    the response has an error that is not a cancellation; and it is about one
    of the run's events, which is not itself a finished or failed event. *)
Definition finish_event_ok {X : Externals} (s : State) (resp : DriverResponse)
  (ev : Event) : Prop :=
  (evt_Name ev = FnFinishedName \/
   (evt_Name ev = FnFailedName /\
    exists msg, r_Err resp = Some msg /\
                strings_Contains msg (error_Error ErrFunctionCancelled) = false)) /\
  (exists runEvt, In runEvt (st_Events s) /\ is_finish_event runEvt = false /\
                  jmap_get "event" (evt_Data ev) = Some (JObj runEvt)).

(** What [Schedule] guarantees about the queue: a run is returned without an
    error exactly when its start item was enqueued, once and with success;
    that item carries the run's identifier, the job id made of the function
    id and the idempotency key, and the retries of a source edge.  An item is
    enqueued at the requested time when there is one, and otherwise, for a
    run that is not a batch, never before the timestamp of the triggering
    event. *)
Definition Schedule_queue_post {X : Externals} (req : ScheduleRequest) (tr : trace)
  (o : outcome (option Identifier * option error)) : Prop :=
  (forall r, o = Returned (r, None) ->
     exists id item at_,
       r = Some id /\
       enqueued tr = [(item, at_, None)] /\
       it_Kind item = KindStart /\
       it_Identifier item = id /\
       it_JobID item =
         Some (UUID_String (fn_ID (req_Function req)) ++ ":" ++ id_Key id) /\
       it_Attempt item = 0 /\
       it_MaxAttempts item = Some sourceEdgeRetries /\
       it_Payload item = PayloadEdge SourceEdge) /\
  (forall r err, o = Returned (r, Some err) ->
     Forall (fun x => snd x <> None) (enqueued tr)) /\
  (forall item at_ err, In (item, at_, err) (enqueued tr) ->
     (forall a, req_At req = Some a -> at_ = a) /\
     (forall ev0 evs, req_At req = None -> req_BatchID req = None ->
        req_Events req = ev0 :: evs ->
        time_UnixMilli (evt_Timestamp (GetEvent ev0)) <= at_)).

(** The kind of the queue item an opcode is continued with, and the suffix
    of its job id. *)
Definition opcode_kind (op : Opcode) : Kind :=
  match op with
  | OpcodeStepError => KindEdgeError
  | OpcodeSleep => KindSleep
  | OpcodeWaitForEvent | OpcodeInvokeFunction => KindPause
  | _ => KindEdge
  end.

Definition opcode_job_suffix (op : Opcode) : string :=
  match op with
  | OpcodeStepError => "-failure"
  | OpcodeStepPlanned => "-plan"
  | OpcodeWaitForEvent => "-wait"
  | OpcodeInvokeFunction => "-invoke"
  | _ => ""
  end.

(** What holds of a queue item enqueued while the opcode [gen] of the queue
    item [item] is handled. *)
Definition opcode_item_ok {X : Externals} (gen : GeneratorOpcode) (item : Item)
  (x : Item * Time * option error) : Prop :=
  let it := fst (fst x) in
  it_Identifier it = it_Identifier item /\
  it_WorkspaceID it = it_WorkspaceID item /\
  it_Attempt it = 0 /\
  it_Kind it = opcode_kind (gen_Op gen) /\
  it_JobID it =
    Some (Identifier_IdempotencyKey (it_Identifier item) ++ "-" ++ gen_ID gen
          ++ opcode_job_suffix (gen_Op gen)).

(** What holds of the timeout job of a pause: enqueued after the one pause
    [p] that was saved, it names that pause, fires when the pause expires
    and belongs to the pause's group. *)
Definition timeout_job_post (tr : trace) (o : outcome (option error)) : Prop :=
  forall it at_ err, In (it, at_, err) (enqueued tr) ->
    exists p, saved_pauses tr = [p] /\
              it_Kind it = KindPause /\
              it_Payload it = PayloadPauseTimeout (p_ID p) true /\
              at_ = p_Expires p /\
              it_GroupID it = p_GroupID p.

(** The statuses handed to [SetStatus] along a trace. *)
Definition status_set_by (ev : event) : list RunStatus :=
  match ev_call ev with
  | sm_SetStatus _ s => [s]
  | _ => []
  end.

Definition statuses_set (tr : trace) : list RunStatus := flat_map status_set_by tr.

(** The status [HandleResponse] may give a run that answered [resp]:
    completed for a response without error and without opcodes, failed for
    a response with an error or with opcodes. *)
Definition status_ok (resp : DriverResponse) (s : RunStatus) : Prop :=
  (s = RunStatusCompleted /\ r_Err resp = None /\ r_Generator resp = []) \/
  (s = RunStatusFailed /\ (r_Err resp <> None \/ r_Generator resp <> [])).

(** The metadata updates written along a trace. *)
Definition metadata_update_by (ev : event) : list MetadataUpdate :=
  match ev_call ev with
  | sm_UpdateMetadata _ u => [u]
  | _ => []
  end.

Definition metadata_updates (tr : trace) : list MetadataUpdate :=
  flat_map metadata_update_by tr.

(** The run metadata, when the trace starts with a [GetFunctionRunMetadata]
    that answered with one and no error. *)
Definition loaded_metadata (tr : trace) : option Metadata :=
  match tr with
  | Ev c x :: _ =>
      match c in E T return T -> option Metadata with
      | GetFunctionRunMetadata _ =>
          fun r => match r with (Some md, None) => Some md | _ => None end
      | _ => fun _ => None
      end x
  | [] => None
  end.

(** What [OnStepScheduled] is told along a trace, in order: the identifier
    and the attempt of the queue item. *)
Definition step_scheduled_by (ev : event) : list (Identifier * Z) :=
  match ev_call ev with
  | lifecycle _ (OnStepScheduled id item _) => [(id, it_Attempt item)]
  | _ => []
  end.

Definition steps_scheduled (tr : trace) : list (Identifier * Z) :=
  flat_map step_scheduled_by tr.

(** What [HandleGeneratorResponse] guarantees about the run metadata [md] it
    loaded: it writes at most one update, which carries the request version
    of the response and disables immediate execution when the metadata did or
    when the response has more than one opcode; and it writes none exactly
    when the metadata has a request version and nothing is to be disabled. *)
Definition metadata_update_post (resp : DriverResponse) (tr : trace)
  (o : outcome (option error)) : Prop :=
  forall md, loaded_metadata tr = Some md ->
    let parallel := 1 <? Z.of_nat (List.length (r_Generator resp)) in
    (List.length (metadata_updates tr) <= 1)%nat /\
    (forall u, In u (metadata_updates tr) ->
       mu_RequestVersion u = r_RequestVersion resp /\
       mu_Context u = md_Context md /\
       mu_Debugger u = md_Debugger md /\
       mu_DisableImmediateExecution u = md_DisableImmediateExecution md || parallel) /\
    (metadata_updates tr = [] <->
     (md_RequestVersion md =? -1) = false /\
     parallel && negb (md_DisableImmediateExecution md) = false).

(** What [HandleInvokeFinish] has done when it deletes the pause: at most one
    [DeletePause] along a trace, and with it a nil result and no call besides
    the lookup, the clock, [Exists] and [DeletePause]. *)
Definition invoke_delete_calls : list string :=
  ["sm.PauseByInvokeCorrelationID"; "time.Now"; "sm.Exists"; "sm.DeletePause"].

Definition deletes_or_resumes : trace -> outcome (option error) -> Prop :=
  fun tr o =>
    (count_calls "sm.DeletePause" tr <= 1)%nat /\
    (count_calls "sm.DeletePause" tr = 1%nat ->
     o = Returned None /\ calls_only invoke_delete_calls tr = true).

(** The answers of the semaphore along a trace. *)
Definition acquired_by (ev : event) : list (option error) :=
  match ev with
  | Ev c x =>
      match c in E T return T -> list (option error) with
      | sem_Acquire => fun err => [err]
      | _ => fun _ => []
      end x
  end.

Definition acquired (tr : trace) : list (option error) := flat_map acquired_by tr.

(** The methods the body run for one pause of the iterator calls. *)
Definition pause_body_calls : list string :=
  filter (fun n => negb (String.eqb n "sem.Acquire")) pause_calls.

(** What [naive_loop] has counted after [vals], when [n] goroutines were
    started before: either the semaphore let every value through and
    attempted has grown by the number of values, or it failed at value [k]
    (from 0), the error of the semaphore is returned and attempted is the
    copy taken then, at most [n + k] and short of it by no more than the
    goroutines that may still be running. *)
Definition attempted_post (n : nat) (vals : list (option Pause)) (tr : trace)
  (r : NaiveState + HandlePauseResult * error) : Prop :=
  match r with
  | inl st =>
      acquired tr = repeat None (List.length vals) /\
      fst (fst (fst st)) = Z.of_nat (n + List.length vals)
  | inr (res, err) =>
      exists (k : nat) (er : error),
        (k < List.length vals)%nat /\
        acquired tr = (repeat None k ++ [Some er])%list /\
        Z.of_nat (n + k) - Z.of_nat PauseHandleConcurrency <= fst res <= Z.of_nat (n + k) /\
        err = Errorf "error blocking on semaphore" er
  end.

(** ** Further examples *)
Module Cases.

#[local] Existing Instance Sample.externals.

(** An iterator that ended because its context was cancelled. *)
Definition cancelled_iterator : PauseIterator :=
  mkIter [Some Sample.pause] 1 (Some ContextCanceled).

(** The trigger edge, and the queue item of its second attempt. *)
Definition trigger_edge : Edge := mkEdge "" "$trigger" "".

Definition second_attempt : Item :=
  mkItem (Some "job") "group" 9%N KindStart Sample.ident 1 (Some 20)
         (PayloadEdge trigger_edge) None [].

(** The executor that [NewExecutor] builds when a state manager is the
    only option given: no queue, no debouncer, no listener. *)
Definition state_manager_only : executor :=
  mkExecutor false false true false false None [] false false [] false.

(** An executor without any runtime driver. *)
Definition no_drivers : executor :=
  mkExecutor false true true true true None [] true true [0%nat] true.

Definition step : Step := mkStep "step" "step" "http://app/fn" None.

(** The sample request for an event whose timestamp, millisecond 5000, is
    ahead of the sample clock. *)
Definition future_trigger : TrackedEvent :=
  mkTrackedEvent (mkULID 1000 1) (mkEvent "evt-1" "app/start" [] 5000) 9%N.

Definition future_request : ScheduleRequest :=
  mkScheduleRequest Sample.fn None 8%N 9%N 10%N None None [future_trigger] None None
                    None false None.

(** The start item of the sample run. *)
Definition start_item : Item :=
  mkItem (Some (UUID_String 7%N ++ ":" ++ id_Key Sample.ident)) (UUID_String 11%N) 9%N
         KindStart Sample.ident 0 (Some sourceEdgeRetries) (PayloadEdge SourceEdge)
         None [].

(** The sample function with a debounce configuration, and a request for it. *)
Definition debounced_fn : Function :=
  mkFunction 7%N 1 "app-fn" true [mkCancel "abort" None None] None None [step].

Definition debounced_request : ScheduleRequest :=
  mkScheduleRequest debounced_fn None 8%N 9%N 10%N None None [Sample.trigger] None None
                    None false None.

(** A request for the sample function, paused since the first second. *)
Definition paused_request : ScheduleRequest :=
  mkScheduleRequest Sample.fn None 8%N 9%N 10%N None None [Sample.trigger] None None
                    None false (Some 1000000000).

(** A request for a batch of two events. *)
Definition batch_request : ScheduleRequest :=
  mkScheduleRequest Sample.fn None 8%N 9%N 10%N None None [Sample.trigger; Sample.later]
                    (Some (mkULID 4000 4)) (Some "uuid-7-batch") None false None.

(** An aggregator that answers with the evaluations [evals]. *)
Definition aggregator_finds (evals : list (option Pause)) (X : Type) (c : E X)
  : option X :=
  match c in E T return option T with
  | agg_EvaluateAsyncEvent _ => Some (evals, Z.of_nat (List.length evals), None)
  | _ => None
  end.

(** Iterators over a nil value, a pause that has expired and the live
    sample pause; the expired pause is the sample one, or the one that the
    incoming event itself triggered. *)
Definition expired_second : PauseIterator :=
  mkIter [None; Some Sample.expired_pause; Some Sample.pause] 3 None.
Definition expired_own_second : PauseIterator :=
  mkIter [None; Some Sample.expired_own_pause; Some Sample.pause] 3 None.

(** A live invoke pause that the event [Sample.later] itself triggered, and
    an iterator that yields it between a nil value and the sample pause. *)
Definition own_pause : Pause :=
  mkPause 13%N 9%N Sample.ident "group" "call" "step" "call"
          (Some "InvokeFunction") 62000000000
          (Some "inngest/function.finished") None [] "call" false false
          (Some (ULID_String (mkULID 3000 3))) None None None None.
Definition own_second : PauseIterator :=
  mkIter [None; Some own_pause; Some Sample.pause] 3 None.

(** An invocation of another function at step [invoke]. *)
Definition invoke_step : GeneratorOpcode :=
  mkGen OpcodeInvokeFunction "invoke" "call target" JNull JNull None.

(** The timeout job that the wait-for-event handler enqueues for the sample
    step [wait]. *)
Definition wait_timeout_job : Item :=
  Eval vm_compute in
    match enqueued (trace_of (interp (Sample.calm RunStatusRunning Sample.no_outputs)
                                (handleGeneratorWaitForEvent Sample.exec Sample.wait_step
                                                             Sample.item Sample.edge)
                                0%nat)) with
    | (it, _, _) :: _ => it
    | [] => Sample.item
    end.

(** A response with two opcodes that end their thread: a parallel one. *)
Definition parallel_response : DriverResponse :=
  mkResp step 1
         [Some (mkGen OpcodeNone "a" "a" JNull JNull None);
          Some (mkGen OpcodeNone "b" "b" JNull JNull None)]
         None None None None false false 206.

(** A response that failed with an error that may be retried, and an
    executor with two listeners. *)
Definition failing_response : DriverResponse :=
  mkResp step 1 [] None None (Some "boom") None false false 500.

(** The sample identifier with a priority factor, as a caller of
    [HandleResponse] may pass it beside a queue item that has none. *)
Definition other_ident : Identifier :=
  mkIdentifier 7%N 1 Sample.runID None (mkULID 1000 1) [mkULID 1000 1]
               (ULID_String (mkULID 1000 1)) 8%N 9%N 10%N None None [] (Some 5).

Definition two_listeners : executor :=
  mkExecutor false true true true true None ["http"] true true [0%nat; 1%nat] true.

End Cases.
(** ** Reasoning about runs *)

Lemma interp_bind {W A B : Type} (h : handler W) (p : Prog A) (f : A -> Prog B) (w : W) :
  interp h (bind p f) w =
  match interp h p w with
  | (Returned a, w1, t1) =>
      let '(o, w2, t2) := interp h (f a) w1 in (o, w2, (t1 ++ t2)%list)
  | (Panicked m, w1, t1) => (Panicked m, w1, t1)
  end.
Proof.
  revert w. induction p as [a | m | T c k IH]; intro w; simpl.
  - destruct (interp h (f a) w) as [[o w2] t2]. reflexivity.
  - reflexivity.
  - destruct (h T c w) as [x w1]. rewrite IH.
    destruct (interp h (k x) w1) as [[[a | m] w2] t1]; simpl.
    + destruct (interp h (f a) w2) as [[o w3] t2]. reflexivity.
    + reflexivity.
Qed.

Lemma wpt_sound {W R : Type} (h : handler W) (p : Prog R) :
  forall (Q : trace -> outcome R -> Prop) (w : W),
    wpt p Q -> Q (trace_of (interp h p w)) (result_of (interp h p w)).
Proof.
  induction p as [a | m | T c k IH]; intros Q w Hwp; simpl in *.
  - exact Hwp.
  - exact Hwp.
  - destruct (h T c w) as [x w1].
    specialize (IH x _ w1 (Hwp x)).
    destruct (interp h (k x) w1) as [[o w2] tr]. exact IH.
Qed.

Lemma wpt_conseq {R : Type} (p : Prog R) :
  forall (Q Q' : trace -> outcome R -> Prop),
    (forall tr o, Q tr o -> Q' tr o) -> wpt p Q -> wpt p Q'.
Proof.
  induction p as [a | m | T c k IH]; intros Q Q' HQ Hwp; simpl in *.
  - apply HQ, Hwp.
  - apply HQ, Hwp.
  - intro x. eapply IH; [| apply Hwp]. intros tr o. apply HQ.
Qed.

Lemma wpt_bind {A B : Type} (p : Prog A) (f : A -> Prog B) :
  forall (Q : trace -> outcome B -> Prop),
    wpt p (fun t1 o1 =>
             match o1 with
             | Returned a => wpt (f a) (fun t2 o2 => Q (t1 ++ t2)%list o2)
             | Panicked m => Q t1 (Panicked m)
             end) ->
    wpt (bind p f) Q.
Proof.
  induction p as [a | m | T c k IH]; intros Q Hwp; simpl in *.
  - exact Hwp.
  - exact Hwp.
  - intro x. apply IH. apply Hwp.
Qed.

Lemma wpt_for_each_lifecycle (ls : list Listener) (c : LifecycleCall) :
  forall Q : trace -> outcome unit -> Prop,
    Q (fired ls c) (Returned tt) ->
    wpt (for_each ls (fun l => call (lifecycle l c))) Q.
Proof.
  induction ls as [| l ls IH]; intros Q HQ; simpl in *.
  - exact HQ.
  - intros []. apply IH. exact HQ.
Qed.

Lemma wpt_fire {X : Externals} (e : executor) (c : LifecycleCall) :
  forall Q : trace -> outcome unit -> Prop,
    Q (fired (lifecycles e) c) (Returned tt) -> wpt (fire e c) Q.
Proof. intros Q HQ. apply wpt_for_each_lifecycle, HQ. Qed.

Lemma interp_fire {X : Externals} {W : Type} (h : handler W) (e : executor)
  (c : LifecycleCall) (w : W) :
  exists w', interp h (fire e c) w = (Returned tt, w', fired (lifecycles e) c).
Proof.
  unfold fire. generalize (lifecycles e) as ls. intro ls. revert w.
  induction ls as [| l ls IH]; intro w; simpl.
  - eexists; reflexivity.
  - destruct (h unit (lifecycle l c) w) as [[] w1].
    destruct (IH w1) as [w' Hw']. rewrite Hw'. eexists; reflexivity.
Qed.

Lemma ULID_String_not_empty (u : ULID) : ULID_String u <> "".
Proof.
  unfold ULID_String. cbn [enc_digits append]. discriminate.
Qed.


Lemma wpt_any {R : Type} (p : Prog R) : wpt p (fun _ _ => True).
Proof. induction p; simpl; auto. Qed.

(** A sub-program whose answer and trace do not matter. *)
Lemma wpt_bind_any {A B : Type} (p : Prog A) (f : A -> Prog B)
  (Q : trace -> outcome B -> Prop) :
  (forall t1 a, wpt (f a) (fun t2 o => Q (t1 ++ t2)%list o)) ->
  (forall t1 m, Q t1 (Panicked m)) ->
  wpt (bind p f) Q.
Proof.
  intros Hf Hp. apply wpt_bind. eapply wpt_conseq; [| apply wpt_any].
  intros tr [a | m] _; auto.
Qed.

Lemma wpt_bind_assoc {A B C : Type} (p : Prog A) (f : A -> Prog B) (g : B -> Prog C) :
  forall Q : trace -> outcome C -> Prop,
    wpt (bind p (fun x => bind (f x) g)) Q -> wpt (bind (bind p f) g) Q.
Proof.
  induction p as [a | m | T c k IH]; intros Q Hwp; simpl in *.
  - exact Hwp.
  - exact Hwp.
  - intro x. apply IH. apply Hwp.
Qed.

(** One step of symbolic execution of a [wpt] goal. *)
Ltac wp_step :=
  match goal with
  | |- wpt (bind (bind _ _) _) _ => apply wpt_bind_assoc
  | |- wpt (bind (fire _ _) _) _ => apply wpt_bind; apply wpt_fire
  | |- wpt (bind (match ?x with _ => _ end) _) _ => destruct x eqn:?
  | |- wpt (bind (if ?b then _ else _) _) _ => destruct b eqn:?
  | |- wpt (match ?x with _ => _ end) _ => destruct x eqn:?
  | |- wpt (if ?b then _ else _) _ => destruct b eqn:?
  | |- wpt (bind ?p _) _ => apply wpt_bind_any; [intros ? ? | intros ? ?]
  | |- wpt (Vis _ _) _ => intro
  | |- forall _, _ => intro
  end.

Ltac wp := repeat (cbn [wpt bind call]; wp_step).

(** From a run to the postcondition of its program. *)
Lemma wpt_run {W R : Type} (h : handler W) (p : Prog R)
  (Q : trace -> outcome R -> Prop) (w w' : W) (o : outcome R) (tr : trace) :
  wpt p Q -> interp h p w = (o, w', tr) -> Q tr o.
Proof.
  intros Hwp Hrun. pose proof (wpt_sound h p Q w Hwp) as H.
  rewrite Hrun in H. exact H.
Qed.

(** ** Scheduling: the idempotency key *)

Section ScheduleKey.

Context {X : Externals} (e : executor).

Lemma Schedule_key_of_identifier (req : ScheduleRequest) :
  wpt (Schedule e req)
      (fun _ o => forall id err, o = Returned (Some id, err) ->
                                 id_Key id = Schedule_key req (id_RunID id)).
Proof.
  unfold Schedule, ulid_MustNew, enqueue. wp.
  all: cbn [wpt bind call].
  all: try (intros; discriminate).
  all: match goal with
       | H : Returned _ = Returned _ |- _ => inversion H; subst; reflexivity
       end.
Qed.

Lemma Schedule_key_rerun (req : ScheduleRequest) (runID o : ULID) :
  req_OriginalRunID req = Some o -> Schedule_key req runID = ULID_String runID.
Proof.
  intro Ho. unfold Schedule_key. rewrite Ho.
  pose proof (ULID_String_not_empty runID) as Hne.
  apply String.eqb_neq in Hne.
  destruct (req_Events req) as [| ev [| ev' evs]]; rewrite ?Hne;
    destruct (req_BatchID req); rewrite ?Hne; reflexivity.
Qed.

Lemma Schedule_key_explicit (req : ScheduleRequest) (runID : ULID) (k : string) :
  req_OriginalRunID req = None -> req_IdempotencyKey req = Some k -> k <> "" ->
  Schedule_key req runID = k.
Proof.
  intros Ho Hk Hne. unfold Schedule_key. rewrite Ho, Hk.
  apply String.eqb_neq in Hne.
  destruct (req_Events req) as [| ev [| ev' evs]]; rewrite ?Hne;
    destruct (req_BatchID req); rewrite ?Hne; reflexivity.
Qed.

Lemma Schedule_key_event (req : ScheduleRequest) (runID : ULID) (ev : TrackedEvent) :
  req_OriginalRunID req = None ->
  req_IdempotencyKey req = None \/ req_IdempotencyKey req = Some "" ->
  req_Events req = [ev] ->
  Schedule_key req runID = ULID_String (GetInternalID ev).
Proof.
  intros Ho Hk Hev. unfold Schedule_key. rewrite Ho, Hev.
  pose proof (ULID_String_not_empty (GetInternalID ev)) as Hne.
  apply String.eqb_neq in Hne.
  destruct Hk as [Hk | Hk]; rewrite Hk; cbn [String.eqb];
    destruct (req_BatchID req); rewrite ?Hne; reflexivity.
Qed.

Lemma Schedule_key_batch (req : ScheduleRequest) (runID : ULID) :
  req_OriginalRunID req = None ->
  req_IdempotencyKey req = None \/ req_IdempotencyKey req = Some "" ->
  List.length (req_Events req) <> 1%nat ->
  Schedule_key req runID =
  match req_BatchID req with Some b => ULID_String b | None => "" end.
Proof.
  intros Ho Hk Hlen. unfold Schedule_key. rewrite Ho.
  destruct (req_Events req) as [| ev [| ev' evs]];
    [| exfalso; apply Hlen; reflexivity |];
    destruct Hk as [Hk | Hk]; rewrite Hk; cbn [String.eqb];
    destruct (req_BatchID req); reflexivity.
Qed.

End ScheduleKey.

(** C2, as amended.  The identifier that [Schedule] returns carries the key
    computed with this precedence: the freshly minted run id whenever
    [original_run_id] is present, even if an idempotency key was supplied;
    otherwise a supplied non-empty idempotency key; otherwise the internal
    id of the single event when exactly one event was given; otherwise the
    batch id when there is one, and the empty key when there is none. *)
Theorem Schedule_idempotency_key {X : Externals} (e : executor) {W : Type}
  (h : handler W) (w w' : W) (req : ScheduleRequest) (id : Identifier)
  (err : option error) (tr : trace) :
  interp h (Schedule e req) w = (Returned (Some id, err), w', tr) ->
  (forall o, req_OriginalRunID req = Some o -> id_Key id = ULID_String (id_RunID id)) /\
  (req_OriginalRunID req = None ->
   (forall k, req_IdempotencyKey req = Some k -> k <> "" -> id_Key id = k) /\
   (req_IdempotencyKey req = None \/ req_IdempotencyKey req = Some "" ->
    (forall ev, req_Events req = [ev] -> id_Key id = ULID_String (GetInternalID ev)) /\
    (List.length (req_Events req) <> 1%nat ->
     id_Key id = match req_BatchID req with Some b => ULID_String b | None => "" end))).
Proof.
  intro Hrun.
  pose proof (wpt_run h _ _ w w' _ tr (Schedule_key_of_identifier e req) Hrun
                      id err eq_refl) as Hkey.
  rewrite Hkey. split; [| intro Ho; split; [| intro Hk; split]].
  - intros o Ho. eapply Schedule_key_rerun; eauto.
  - intros k Hk Hne. apply Schedule_key_explicit; assumption.
  - intros ev Hev. apply Schedule_key_event; assumption.
  - intro Hlen. apply Schedule_key_batch; assumption.
Qed.

(** The sample request has one event and no key of its own: the run is
    keyed by the event's internal id. *)
Lemma Schedule_idempotency_key_witness :
  let r := interp (Sample.calm RunStatusScheduled Sample.no_outputs)
                  (Schedule (X := Sample.externals) Sample.exec Sample.request) 0%nat in
  match result_of r with
  | Returned (Some id, None) => id_Key id = ULID_String (GetInternalID Sample.trigger)
  | _ => False
  end.
Proof.
  cbv zeta.
  destruct (interp (Sample.calm RunStatusScheduled Sample.no_outputs)
                   (Schedule (X := Sample.externals) Sample.exec Sample.request) 0%nat)
    as [[o w'] tr] eqn:Hrun.
  assert (Ho : exists id, o = Returned (Some id, None)).
  { vm_compute in Hrun. inversion Hrun. eexists. reflexivity. }
  destruct Ho as [id ->]. unfold result_of. cbn [fst].
  destruct (Schedule_idempotency_key (X := Sample.externals) Sample.exec _ _ _ _ _ _ _ Hrun)
    as [_ H].
  destruct (H eq_refl) as [_ H']. destruct (H' (or_introl eq_refl)) as [H'' _].
  exact (H'' Sample.trigger eq_refl).
Defined.

(** C2 as stated fails: a request that carries both an idempotency key and an
    original run id is keyed by the new run id, not by the supplied key. *)
Lemma Schedule_idempotency_key_counterexample :
  req_IdempotencyKey Sample.rerun_request = Some "my-key" /\
  match result_of (interp (Sample.calm RunStatusScheduled Sample.no_outputs)
                          (Schedule (X := Sample.externals) Sample.exec Sample.rerun_request) 0%nat) with
  | Returned (Some id, None) =>
      id_Key id = ULID_String (id_RunID id) /\ id_Key id <> "my-key"
  | _ => False
  end.
Proof.
  split; [reflexivity |].
  vm_compute. split; [reflexivity | discriminate].
Qed.

(** ** The expression language: the clause on [async.ts] *)

Lemma lex_from_app (s tail : string) :
  forall st,
    CEL.lex_from st (s ++ tail) =
    match CEL.lex_run st s with
    | Some (ts, st') =>
        match CEL.lex_from st' tail with
        | Some r => Some (ts ++ r)%list
        | None => None
        end
    | None => None
    end.
Proof.
  induction s as [| c s IH]; intro st; cbn [append CEL.lex_from CEL.lex_run].
  - destruct (CEL.lex_from st tail); reflexivity.
  - destruct (CEL.step st c) as [[ts st'] |]; [| reflexivity].
    rewrite IH. destruct (CEL.lex_run st' s) as [[rest st''] |]; [| reflexivity].
    destruct (CEL.lex_from st'' tail); [| reflexivity].
    rewrite List.app_assoc. reflexivity.
Qed.

Lemma lex_digits (u acc : Decimal.uint) (rest : string) :
  CEL.lex_from (CEL.LNum acc) (NilEmpty.string_of_uint u ++ rest) =
  CEL.lex_from (CEL.LNum (Decimal.revapp u acc)) rest.
Proof.
  revert acc.
  induction u; intro acc; cbn [NilEmpty.string_of_uint append Decimal.revapp];
    try reflexivity.
  all: cbn [CEL.lex_from CEL.step CEL.digit_of]; rewrite IHu; cbn [app];
    destruct (CEL.lex_from _ rest); reflexivity.
Qed.

Lemma to_uint_nonnil (n : N) : N.to_uint n <> Decimal.Nil.
Proof.
  destruct n; cbn; [discriminate | apply DecimalPos.Unsigned.to_uint_nonnil].
Qed.

(** The digits of [%d] are read back as one number. *)
Lemma lex_number (n : N) (rest : string) :
  CEL.lex_from CEL.LNone (fmt_d n ++ rest) =
  CEL.lex_from (CEL.LNum (Decimal.rev (N.to_uint n))) rest.
Proof.
  unfold fmt_d, NilZero.string_of_uint.
  pose proof (to_uint_nonnil n) as Hnn.
  destruct (N.to_uint n) as [| u | u | u | u | u | u | u | u | u | u] eqn:Hu;
    [congruence | ..].
  all: cbn [NilEmpty.string_of_uint append CEL.lex_from CEL.step CEL.start CEL.digit_of];
    rewrite lex_digits; unfold Decimal.rev; cbn [Decimal.revapp app];
    destruct (CEL.lex_from _ rest); reflexivity.
Qed.

Lemma lex_clause (eid : ULID) :
  CEL.lex (generateCancelExpression eid None) =
  Some [CEL.TLParen; CEL.TIdent "async.ts"; CEL.TRel CEL.REq; CEL.TIdent "null";
        CEL.TOr; CEL.TIdent "async.ts"; CEL.TRel CEL.RGt; CEL.TInt (ULID_Time eid);
        CEL.TRParen].
Proof.
  unfold CEL.lex, generateCancelExpression. rewrite lex_from_app.
  replace (CEL.lex_run CEL.LNone "(async.ts == null || async.ts > ")
    with (Some ([CEL.TLParen; CEL.TIdent "async.ts"; CEL.TRel CEL.REq;
                 CEL.TIdent "null"; CEL.TOr; CEL.TIdent "async.ts";
                 CEL.TRel CEL.RGt], CEL.LNone))
    by (vm_compute; reflexivity).
  rewrite lex_number.
  replace (CEL.lex_from (CEL.LNum (Decimal.rev (N.to_uint (ULID_Time eid)))) ")")
    with (Some [CEL.TInt (N.of_uint (Decimal.rev (Decimal.rev (N.to_uint (ULID_Time eid)))));
                CEL.TRParen])
    by reflexivity.
  rewrite DecimalFacts.rev_rev, DecimalN.Unsigned.of_to. reflexivity.
Qed.

Lemma parse_clause (eid : ULID) :
  CEL.parse (generateCancelExpression eid None) =
  Some (CEL.EOr (CEL.ERel CEL.REq (CEL.EVar "async.ts") (CEL.ELit CEL.VNull))
                (CEL.ERel CEL.RGt (CEL.EVar "async.ts")
                          (CEL.ELit (CEL.VInt (Z.of_N (ULID_Time eid)))))).
Proof. unfold CEL.parse. rewrite lex_clause. reflexivity. Qed.

Lemma clause_matches (eid : ULID) (ts : CEL.value) :
  CEL.matches (generateCancelExpression eid None) (CEL.async_ts ts) =
  match ts with
  | CEL.VNull => true
  | CEL.VInt t => Z.of_N (ULID_Time eid) <? t
  | _ => false
  end.
Proof.
  unfold CEL.matches. rewrite parse_clause.
  destruct ts as [| b | t | s]; try reflexivity.
  cbn. destruct (Z.of_N (ULID_Time eid) <? t); reflexivity.
Qed.

(** ** Scheduling: the cancellation pauses *)

Lemma saved_pauses_app (t1 t2 : trace) :
  saved_pauses (t1 ++ t2)%list = (saved_pauses t1 ++ saved_pauses t2)%list.
Proof. apply flat_map_app. Qed.

Lemma saved_pauses_fired (ls : list Listener) (c : LifecycleCall) :
  saved_pauses (fired ls c) = [].
Proof. induction ls; simpl; auto. Qed.

Ltac saved_simpl :=
  repeat (cbn [saved_pauses flat_map saved_pause ev_call app map];
          repeat match goal with
                 | |- context [flat_map saved_pause ?t] => fold (saved_pauses t)
                 end;
          rewrite ?saved_pauses_app, ?saved_pauses_fired, ?List.app_nil_r).

Section SchedulePauses.

Context {X : Externals} (e : executor).

Lemma Schedule_cancel_pauses_saved (req : ScheduleRequest) (id : Identifier)
  (ev0 : TrackedEvent) (cs : list Cancel_) :
  wpt (Schedule_cancel_pauses req id (GetInternalID ev0) ev0 (Event_Map (GetEvent ev0)) cs)
      (fun tr o =>
         (exists n, map cancel_pause_view (saved_pauses tr) =
                    map (expected_cancel_view ev0) (firstn n cs)) /\
         (o = Returned None ->
          map cancel_pause_view (saved_pauses tr) = map (expected_cancel_view ev0) cs)).
Proof.
  induction cs as [| c cs IH]; cbn [Schedule_cancel_pauses].
  - cbn. split; [exists 0%nat; reflexivity | reflexivity].
  - assert (Hstop : forall (t : trace) (o : outcome (option error)),
               saved_pauses t = [] -> o <> Returned None ->
               (exists n, map cancel_pause_view (saved_pauses t) =
                          map (expected_cancel_view ev0) (firstn n (c :: cs))) /\
               (o = Returned None ->
                map cancel_pause_view (saved_pauses t) =
                map (expected_cancel_view ev0) (c :: cs))).
    { intros t o Ht Ho. rewrite Ht. split; [exists 0%nat; reflexivity | congruence]. }
    wp.
    all: cbn [wpt bind call].
    all: try (apply Hstop; [reflexivity | discriminate]).
    all: try (split; [exists 1%nat; reflexivity | discriminate]).
    all: eapply wpt_conseq; [| apply IH]; cbn beta; intros tr o [[n Hn] Hall];
      cbn [saved_pauses flat_map saved_pause ev_call app map];
      fold (saved_pauses tr);
      (split; [exists (S n); cbn [firstn map]; rewrite Hn; reflexivity
              | intro Ho; rewrite (Hall Ho); reflexivity]).
Qed.

Ltac wp_sched :=
  repeat (cbn [wpt bind call];
          match goal with
          | |- wpt (bind (Schedule_cancel_pauses _ _ _ _ _ _) _) _ => fail 1
          | _ => wp_step
          end).

Lemma Schedule_saved_pauses (req : ScheduleRequest) (ev0 : TrackedEvent)
  (evs : list TrackedEvent) :
  req_Events req = ev0 :: evs ->
  wpt (Schedule e req)
      (fun tr o =>
         (exists n, map cancel_pause_view (saved_pauses tr) =
                    map (expected_cancel_view ev0)
                        (firstn n (fn_Cancel (req_Function req)))) /\
         (forall id, o = Returned (Some id, None) -> req_BatchID req = None ->
            map cancel_pause_view (saved_pauses tr) =
            map (expected_cancel_view ev0) (fn_Cancel (req_Function req)))).
Proof.
  intro Hev. unfold Schedule, ulid_MustNew, enqueue. rewrite Hev.
  wp_sched.
  all: cbn [wpt bind call].
  all: try (saved_simpl; split; [exists 0%nat; reflexivity | intros; discriminate]).
  all: match goal with
       | |- wpt (bind (Schedule_cancel_pauses _ _ _ _ _ _) _) _ =>
           apply wpt_bind; eapply wpt_conseq; [| apply Schedule_cancel_pauses_saved];
           cbn beta; intros tr o [Hn Hall]; destruct o as [[perr |] | m]; cbv beta iota
       | _ => idtac
       end.
  all: try (cbn [wpt bind call]; saved_simpl;
            split; [exact Hn | intros ? ? ?; discriminate]).
  all: try (specialize (Hall eq_refl);
            assert (Hfull : exists n, map cancel_pause_view (saved_pauses tr) =
                map (expected_cancel_view ev0) (firstn n (fn_Cancel (req_Function req))))
              by (exists (List.length (fn_Cancel (req_Function req)));
                  rewrite List.firstn_all; exact Hall)).
  all: wp_sched.
  all: cbn [wpt bind call]; saved_simpl.
  all: try (split; [exact Hfull | intros; assumption]).
  all: split; [exists 0%nat; reflexivity | intros; congruence].
Qed.

End SchedulePauses.

(** C1, as amended.  The pauses [Schedule] saves are the cancellation pauses
    of the declared triggers, in order, and all of them once a non-batch run
    is scheduled.  Each carries the interpolation of the user expression
    joined by [&&] to the clause [(async.ts == null || async.ts > T)], where
    T is the millisecond time of the first triggering event's internal id
    (not of the run id).  The clause holds of an event whose [ts] is null and
    fails for an event whose [ts] is at most T. *)
Theorem Schedule_cancel_expression {X : Externals} (e : executor) {W : Type}
  (h : handler W) (w w' : W) (req : ScheduleRequest) (ev0 : TrackedEvent)
  (evs : list TrackedEvent) (o : outcome (option Identifier * option error))
  (tr : trace) :
  req_Events req = ev0 :: evs ->
  interp h (Schedule e req) w = (o, w', tr) ->
  let T := ULID_Time (GetInternalID ev0) in
  let clause := "(async.ts == null || async.ts > " ++ fmt_d T ++ ")" in
  (exists n, map cancel_pause_view (saved_pauses tr) =
             map (expected_cancel_view ev0) (firstn n (fn_Cancel (req_Function req)))) /\
  (forall id, o = Returned (Some id, None) -> req_BatchID req = None ->
     map cancel_pause_view (saved_pauses tr) =
     map (expected_cancel_view ev0) (fn_Cancel (req_Function req))) /\
  (forall c,
     cancel_expression ev0 c =
     fst (Interpolate match c_If c with
                      | Some user => user ++ " && " ++ clause
                      | None => clause
                      end
                      [("event", JObj (Event_Map (GetEvent ev0)))])) /\
  CEL.matches clause (CEL.async_ts CEL.VNull) = true /\
  (forall ts, ts <= Z.of_N T -> CEL.matches clause (CEL.async_ts (CEL.VInt ts)) = false) /\
  (forall ts, Z.of_N T < ts -> CEL.matches clause (CEL.async_ts (CEL.VInt ts)) = true).
Proof.
  intros Hev Hrun T clause.
  destruct (wpt_run h _ _ w w' o tr (Schedule_saved_pauses e req ev0 evs Hev) Hrun)
    as [Hprefix Hall].
  split; [exact Hprefix |]. split; [exact Hall |].
  split; [intro c; unfold cancel_expression, generateCancelExpression;
          destruct (c_If c); reflexivity |].
  change clause with (generateCancelExpression (GetInternalID ev0) None).
  split; [apply clause_matches |].
  split; intros ts Hts; rewrite clause_matches; [apply Z.ltb_ge | apply Z.ltb_lt];
    exact Hts.
Qed.

(** The sample run: one trigger without a condition, an event received at
    millisecond 1000. *)
Lemma Schedule_cancel_expression_witness :
  map p_Expression
      (saved_pauses (trace_of (interp (Sample.calm RunStatusScheduled Sample.no_outputs)
                                      (Schedule (X := Sample.externals) Sample.exec
                                                Sample.request) 0%nat))) =
  [Some "(async.ts == null || async.ts > 1000)"] /\
  CEL.matches "(async.ts == null || async.ts > 1000)" (CEL.async_ts (CEL.VInt 1000)) = false.
Proof.
  destruct (interp (Sample.calm RunStatusScheduled Sample.no_outputs)
                   (Schedule (X := Sample.externals) Sample.exec Sample.request) 0%nat)
    as [[o w'] tr] eqn:Hrun.
  destruct (Schedule_cancel_expression (X := Sample.externals) Sample.exec _ _ _
              Sample.request Sample.trigger [] o tr eq_refl Hrun)
    as (_ & Hall & _ & _ & Hle & _).
  split.
  - assert (Ho : exists id, o = Returned (Some id, None)).
    { vm_compute in Hrun. inversion Hrun. eexists. reflexivity. }
    destruct Ho as [id Ho]. specialize (Hall id Ho eq_refl).
    unfold trace_of. cbn [snd].
    apply (f_equal (map (fun v => snd (fst (fst v))))) in Hall.
    rewrite !List.map_map in Hall.
    transitivity (map (fun p => snd (fst (fst (cancel_pause_view p)))) (saved_pauses tr));
      [reflexivity |].
    rewrite Hall. vm_compute. reflexivity.
  - apply (Hle 1000). vm_compute. discriminate.
Defined.

(** C1 as stated fails: the run below is created at millisecond 2000 from an
    event received at millisecond 1000; its cancellation pause compares
    [async.ts] with 1000, so an event with [ts] 1500, which is not after the
    run id's time, matches. *)
Lemma Schedule_cancel_expression_counterexample :
  match interp (Sample.calm RunStatusScheduled Sample.no_outputs)
               (Schedule (X := Sample.externals) Sample.exec Sample.request) 0%nat with
  | (Returned (Some id, None), _, tr) =>
      ULID_Time (id_RunID id) = 2000%N /\
      map p_Expression (saved_pauses tr) = [Some "(async.ts == null || async.ts > 1000)"] /\
      CEL.matches "(async.ts == null || async.ts > 1000)"
                  (CEL.async_ts (CEL.VInt 1500)) = true
  | _ => False
  end.
Proof. vm_compute. repeat split. Qed.

(** The user expression is not parenthesised before [&&] is appended, so
    a user expression with [||] at the top escapes the clause: here an
    event from long before the run matches. *)
Remark generateCancelExpression_precedence :
  let expr := generateCancelExpression (mkULID 1000 1)
                (Some "async.name == 'stop' || async.name == 'abort'") in
  expr = "async.name == 'stop' || async.name == 'abort' && (async.ts == null || async.ts > 1000)"
  /\ CEL.matches expr
       (fun p => if String.eqb p "async.ts" then Some (CEL.VInt 5)
                 else if String.eqb p "async.name" then Some (CEL.VStr "stop")
                 else None) = true.
Proof. vm_compute. split; reflexivity. Qed.

(** ** Cancelling a run *)

Section CancelRun.

Context {X : Externals} (e : executor) {W : Type} (h : handler W).

(** The response [Cancel] hands to the finish handler: nothing but the
    message of [state.ErrFunctionCancelled]. *)
Lemma Cancel_ended (w w1 : W) (runID : ULID) (r : CancelRequest) (s : State) :
  h _ (sm_Load runID) w = (inr s, w1) ->
  md_Status (st_Metadata s) = RunStatusFailed \/
  md_Status (st_Metadata s) = RunStatusCompleted \/
  md_Status (st_Metadata s) = RunStatusOverflowed ->
  interp h (Cancel e runID r) w =
  (Returned (Some ErrFunctionEnded), w1, [Ev (sm_Load runID) (inr s)]).
Proof.
  intros Hload Hst. unfold Cancel. cbn [interp bind call]. rewrite Hload.
  destruct Hst as [Hst | [Hst | Hst]]; rewrite Hst; reflexivity.
Qed.

Lemma Cancel_cancelled (w w1 : W) (runID : ULID) (r : CancelRequest) (s : State) :
  h _ (sm_Load runID) w = (inr s, w1) ->
  md_Status (st_Metadata s) = RunStatusCancelled ->
  interp h (Cancel e runID r) w = (Returned None, w1, [Ev (sm_Load runID) (inr s)]).
Proof.
  intros Hload Hst. unfold Cancel. cbn [interp bind call]. rewrite Hload, Hst.
  reflexivity.
Qed.

Lemma Cancel_active (w w1 w2 w3 w4 w5 : W) (runID : ULID) (r : CancelRequest) (s : State)
  (d fo : option error) (ft : trace) (m : error + Metadata) :
  h _ (sm_Load runID) w = (inr s, w1) ->
  md_Status (st_Metadata s) = RunStatusScheduled \/
  md_Status (st_Metadata s) = RunStatusRunning ->
  h _ (sm_Cancel (md_Identifier (st_Metadata s))) w1 = (None, w2) ->
  h _ (sm_Delete (st_Identifier s)) w2 = (d, w3) ->
  interp h (runFinishHandler e (st_Identifier s) s
              (set_Err zero_DriverResponse (Some (error_Error ErrFunctionCancelled)))) w3 =
  (Returned fo, w4, ft) ->
  h _ (sm_Metadata (id_RunID (md_Identifier (st_Metadata s)))) w4 = (m, w5) ->
  exists w6,
    interp h (Cancel e runID r) w =
    (Returned None, w6,
     ([Ev (sm_Load runID) (inr s);
       Ev (sm_Cancel (md_Identifier (st_Metadata s))) None;
       Ev (sm_Delete (st_Identifier s)) d]
      ++ ft
      ++ [Ev (sm_Metadata (id_RunID (md_Identifier (st_Metadata s)))) m]
      ++ fired (lifecycles e) (OnFunctionCancelled (md_Identifier (st_Metadata s)) r s))%list).
Proof.
  intros Hload Hst Hcancel Hdelete Hfinish Hmd.
  destruct (interp_fire h e (OnFunctionCancelled (md_Identifier (st_Metadata s)) r s) w5)
    as [w6 Hfire].
  exists w6. unfold Cancel. cbn [interp bind call]. rewrite Hload.
  destruct Hst as [Hst | Hst]; rewrite Hst; cbn [interp bind call];
    rewrite Hcancel; cbn [interp bind call]; rewrite Hdelete;
    rewrite interp_bind, Hfinish; unfold extractTraceCtx; cbn [interp bind call];
    rewrite Hmd; rewrite interp_bind, Hfire; cbn [interp]; 
    rewrite List.app_nil_r; reflexivity.
Qed.

End CancelRun.

(** C9.  On a run that loads with status failed, completed or overflowed,
    [Cancel] returns [ErrFunctionEnded]; on a run already cancelled it
    returns nil; in both cases the load is its only call and the world is
    the one the load left.  On a scheduled or running run it marks the run
    cancelled and, once that succeeds, deletes the state, runs the finish
    handler with the response that carries only the cancelled error, reads
    the metadata for the trace context, fires [OnFunctionCancelled] at every
    listener and returns nil. *)
Theorem Cancel_spec {X : Externals} (e : executor) {W : Type} (h : handler W)
  (w w1 : W) (runID : ULID) (r : CancelRequest) (s : State) :
  h _ (sm_Load runID) w = (inr s, w1) ->
  let md := st_Metadata s in
  let loaded := Ev (sm_Load runID) (inr s) in
  (md_Status md = RunStatusFailed \/ md_Status md = RunStatusCompleted \/
   md_Status md = RunStatusOverflowed ->
   interp h (Cancel e runID r) w = (Returned (Some ErrFunctionEnded), w1, [loaded])) /\
  (md_Status md = RunStatusCancelled ->
   interp h (Cancel e runID r) w = (Returned None, w1, [loaded])) /\
  (md_Status md = RunStatusScheduled \/ md_Status md = RunStatusRunning ->
   forall (w2 w3 w4 w5 : W) (d fo : option error) (ft : trace) (m : error + Metadata),
     h _ (sm_Cancel (md_Identifier md)) w1 = (None, w2) ->
     h _ (sm_Delete (st_Identifier s)) w2 = (d, w3) ->
     interp h (runFinishHandler e (st_Identifier s) s
                 (set_Err zero_DriverResponse (Some (error_Error ErrFunctionCancelled))))
            w3 = (Returned fo, w4, ft) ->
     h _ (sm_Metadata (id_RunID (md_Identifier md))) w4 = (m, w5) ->
     exists w6,
       interp h (Cancel e runID r) w =
       (Returned None, w6,
        ([loaded; Ev (sm_Cancel (md_Identifier md)) None;
          Ev (sm_Delete (st_Identifier s)) d]
         ++ ft
         ++ [Ev (sm_Metadata (id_RunID (md_Identifier md))) m]
         ++ fired (lifecycles e) (OnFunctionCancelled (md_Identifier md) r s))%list)).
Proof.
  intros Hload md loaded. split; [| split].
  - intro Hst. apply Cancel_ended; assumption.
  - intro Hst. apply Cancel_cancelled; assumption.
  - intros Hst w2 w3 w4 w5 d fo ft m Hcancel Hdelete Hfinish Hmd.
    eapply Cancel_active; eassumption.
Qed.

(** A completed run is not cancelled again; a running run is, and the one
    listener hears of it last. *)
Lemma Cancel_spec_witness :
  interp (Sample.calm RunStatusCompleted Sample.no_outputs)
         (Cancel (X := Sample.externals) Sample.exec Sample.runID
                 (mkCancelRequest None None)) 0%nat
  = (Returned (Some ErrFunctionEnded), 1%nat,
     [Ev (sm_Load Sample.runID)
         (inr (Sample.state RunStatusCompleted Sample.no_outputs))])
  /\
  exists w6 tr,
    interp (Sample.calm RunStatusRunning Sample.no_outputs)
           (Cancel (X := Sample.externals) Sample.exec Sample.runID
                   (mkCancelRequest None None)) 0%nat
    = (Returned None, w6, tr) /\
    last tr (Ev time_Now 0) =
    Ev (lifecycle 0%nat
          (OnFunctionCancelled Sample.ident (mkCancelRequest None None)
             (Sample.state RunStatusRunning Sample.no_outputs))) tt.
Proof.
  split.
  - apply (Cancel_spec (X := Sample.externals) Sample.exec
             (Sample.calm RunStatusCompleted Sample.no_outputs) 0%nat 1%nat Sample.runID
             (mkCancelRequest None None)
             (Sample.state RunStatusCompleted Sample.no_outputs)
             eq_refl).
    right; left; reflexivity.
  - destruct (Cancel_spec (X := Sample.externals) Sample.exec
                (Sample.calm RunStatusRunning Sample.no_outputs) 0%nat 1%nat Sample.runID
                (mkCancelRequest None None)
                (Sample.state RunStatusRunning Sample.no_outputs)
                eq_refl) as (_ & _ & Hactive).
    destruct (interp (Sample.calm RunStatusRunning Sample.no_outputs)
                (runFinishHandler (X := Sample.externals) Sample.exec Sample.ident
                   (Sample.state RunStatusRunning Sample.no_outputs)
                   (set_Err zero_DriverResponse
                            (Some (error_Error (Externals := Sample.externals)
                                               ErrFunctionCancelled))))
                3%nat) as [[fo w4] ft] eqn:Hfinish.
    assert (Hfo : exists x, fo = Returned x /\ w4 = 6%nat).
    { vm_compute in Hfinish. inversion Hfinish. eexists. split; reflexivity. }
    destruct Hfo as (x & -> & ->).
    destruct (Hactive (or_intror eq_refl) 2%nat 3%nat 6%nat 7%nat None x ft
                (inr (Sample.metadata RunStatusRunning)) eq_refl eq_refl Hfinish eq_refl)
      as [w6 Hrun].
    eexists. eexists. split; [exact Hrun |].
    cbn [Sample.exec lifecycles fired map].
    rewrite !List.app_assoc. apply last_last.
Defined.

(** ** Resuming from a pause *)

Lemma err_is_PauseLeased (err : option error) :
  err_is err ErrPauseLeased = true <-> err = Some ErrPauseLeased.
Proof.
  split; [| intros ->; reflexivity].
  destruct err as [[] |]; cbn; intro H; try discriminate; reflexivity.
Qed.

Lemma err_is_PauseNotFound (err : option error) :
  err_is err ErrPauseNotFound = true <-> err = Some ErrPauseNotFound.
Proof.
  split; [| intros ->; reflexivity].
  destruct err as [[] |]; cbn; intro H; try discriminate; reflexivity.
Qed.

Lemma err_is_QueueItemExists (err : option error) :
  err_is err ErrQueueItemExists = true <-> err = Some ErrQueueItemExists.
Proof.
  split; [| intros ->; reflexivity].
  destruct err as [[] |]; cbn; intro H; try discriminate; reflexivity.
Qed.

Lemma err_is_PauseAlreadyExists (err : option error) :
  err_is err ErrPauseAlreadyExists = true <-> err = Some ErrPauseAlreadyExists.
Proof.
  split; [| intros ->; reflexivity].
  destruct err as [[] |]; cbn; intro H; try discriminate; reflexivity.
Qed.

Lemma err_is_false (err : option error) (target : error) :
  is_sentinel target = true ->
  err <> Some target -> err_is err target = false.
Proof.
  intros Hs Hne. destruct (err_is err target) eqn:H; [| reflexivity].
  exfalso. apply Hne. destruct err as [x |]; [| discriminate].
  cbn in H. apply andb_true_iff in H. destruct H as [Hx Ht].
  apply Nat.eqb_eq in Ht. f_equal.
  destruct x; try discriminate; destruct target; try discriminate; reflexivity.
Qed.

Section ResumePause.

Context {X : Externals} (e : executor) {W : Type} (h : handler W).

(** The queue item [Resume] enqueues: an edge at the pause's continuation
    point, under the job id ["<idempotency key>-<data key>"]. *)
Lemma Resume_taken (w w1 : W) (pause : Pause) (r : ResumeRequest) (lease : option error) :
  has_queue e = true -> has_sm e = true ->
  h _ (sm_LeasePause (p_ID pause)) w = (lease, w1) ->
  lease = Some ErrPauseLeased \/ lease = Some ErrPauseNotFound ->
  interp h (Resume e pause r) w =
  (Returned None, w1, [Ev (sm_LeasePause (p_ID pause)) lease]).
Proof.
  intros Hq Hsm Hlease Htaken. unfold Resume. rewrite Hq, Hsm.
  cbn [negb orb interp bind call]. rewrite Hlease.
  destruct Htaken as [-> | ->]; reflexivity.
Qed.

Lemma Resume_event_before_timeout (w w1 w2 : W) (pause : Pause) (r : ResumeRequest)
  (lease c : option error) :
  has_queue e = true -> has_sm e = true ->
  h _ (sm_LeasePause (p_ID pause)) w = (lease, w1) ->
  lease <> Some ErrPauseLeased -> lease <> Some ErrPauseNotFound ->
  p_OnTimeout pause = true -> rr_EventID r <> None ->
  h _ (sm_ConsumePause (p_ID pause) None) w1 = (c, w2) ->
  interp h (Resume e pause r) w =
  (Returned (if negb (isSome c) || err_is c ErrPauseNotFound then None else c), w2,
   [Ev (sm_LeasePause (p_ID pause)) lease; Ev (sm_ConsumePause (p_ID pause) None) c]).
Proof.
  intros Hq Hsm Hlease Hl1 Hl2 Hto Hev Hconsume. unfold Resume. rewrite Hq, Hsm.
  cbn [negb orb interp bind call]. rewrite Hlease.
  rewrite (err_is_false lease ErrPauseLeased eq_refl Hl1).
  rewrite (err_is_false lease ErrPauseNotFound eq_refl Hl2).
  rewrite Hto. destruct (rr_EventID r); [| congruence].
  cbn [orb andb isSome interp bind call]. rewrite Hconsume.
  destruct (negb (isSome c) || err_is c ErrPauseNotFound); reflexivity.
Qed.

Lemma Resume_enqueues (w w1 w2 w3 w4 w5 : W) (pause : Pause) (r : ResumeRequest)
  (lease q : option error) (g : UUID) (now : Time) :
  has_queue e = true -> has_sm e = true ->
  h _ (sm_LeasePause (p_ID pause)) w = (lease, w1) ->
  lease <> Some ErrPauseLeased -> lease <> Some ErrPauseNotFound ->
  p_OnTimeout pause = false \/ rr_EventID r = None ->
  h _ (sm_ConsumePause (p_ID pause) (rr_With r)) w1 = (None, w2) ->
  h _ uuid_New w2 = (g, w3) ->
  h _ time_Now w3 = (now, w4) ->
  let item :=
    mkItem (Some (Identifier_IdempotencyKey (p_Identifier pause) ++ "-" ++ p_DataKey pause))
           (UUID_String g) (p_WorkspaceID pause) KindEdge (p_Identifier pause) 0 None
           (PayloadEdge (Pause_Edge pause)) None [] in
  h _ (queue_Enqueue item now) w4 = (q, w5) ->
  q = None \/ q = Some ErrQueueItemExists ->
  exists w6,
    interp h (Resume e pause r) w =
    (Returned None, w6,
     ([Ev (sm_LeasePause (p_ID pause)) lease;
       Ev (sm_ConsumePause (p_ID pause) (rr_With r)) None;
       Ev uuid_New g; Ev time_Now now; Ev (queue_Enqueue item now) q]
      ++ fired (lifecycles e)
           (if match p_Opcode pause with
               | Some op => String.eqb op (Opcode_String OpcodeInvokeFunction)
               | None => false
               end
            then OnInvokeFunctionResumed (p_Identifier pause) r (p_GroupID pause)
            else OnWaitForEventResumed (p_Identifier pause) r (p_GroupID pause)))%list).
Proof.
  intros Hq Hsm Hlease Hl1 Hl2 Hto Hconsume Hg Hnow item Henq Hok.
  set (c := if match p_Opcode pause with
               | Some op => String.eqb op (Opcode_String OpcodeInvokeFunction)
               | None => false
               end
            then OnInvokeFunctionResumed (p_Identifier pause) r (p_GroupID pause)
            else OnWaitForEventResumed (p_Identifier pause) r (p_GroupID pause)).
  destruct (interp_fire h e c w5) as [w6 Hfire]. exists w6.
  unfold Resume. rewrite Hq, Hsm.
  cbn [negb orb interp bind call]. rewrite Hlease.
  rewrite (err_is_false lease ErrPauseLeased eq_refl Hl1).
  rewrite (err_is_false lease ErrPauseNotFound eq_refl Hl2).
  assert (Hbranch : p_OnTimeout pause && isSome (rr_EventID r) = false).
  { destruct Hto as [-> | ->]; [reflexivity | apply andb_false_r]. }
  rewrite Hbranch. cbn [orb interp bind call]. rewrite Hconsume.
  cbn [interp bind call]. rewrite Hg. cbn [interp bind call]. rewrite Hnow.
  cbn [interp bind call]. fold item. rewrite Henq.
  assert (Hresumed :
    interp h ((if match p_Opcode pause with
                  | Some op => String.eqb op (Opcode_String OpcodeInvokeFunction)
                  | None => false
                  end
               then fire e (OnInvokeFunctionResumed (p_Identifier pause) r (p_GroupID pause))
               else fire e (OnWaitForEventResumed (p_Identifier pause) r (p_GroupID pause))) ;;;
              Ret None) w5 = (Returned (@None error), w6, fired (lifecycles e) c)).
  { rewrite interp_bind.
    replace (if match p_Opcode pause with
                | Some op => String.eqb op (Opcode_String OpcodeInvokeFunction)
                | None => false
                end
             then fire e (OnInvokeFunctionResumed (p_Identifier pause) r (p_GroupID pause))
             else fire e (OnWaitForEventResumed (p_Identifier pause) r (p_GroupID pause)))
      with (fire e c)
      by (unfold c; destruct (match p_Opcode pause with
                              | Some op => String.eqb op (Opcode_String OpcodeInvokeFunction)
                              | None => false
                              end); reflexivity).
    rewrite Hfire. cbn [interp]. rewrite List.app_nil_r. reflexivity. }
  destruct Hok as [-> | ->]; cbn [err_is is_sentinel error_tag Nat.eqb andb negb];
    rewrite Hresumed; reflexivity.
Qed.

End ResumePause.

(** C5.  With a queue and a state manager configured, [Resume] first leases
    the pause.  If the lease reports pause-leased or pause-not-found it
    returns nil and does nothing else.  Otherwise, if the pause is a timeout
    pause and the request carries an event id, it consumes the pause with
    nil data and returns without enqueueing.  Otherwise it consumes the pause
    with [req.With] and, once that succeeds, enqueues an edge item at the
    pause's continuation point under the job id
    ["<idempotency key>-<data key>"]; it returns nil when the enqueue
    succeeds and also when the queue reports that the item exists. *)
Theorem Resume_spec {X : Externals} (e : executor) {W : Type} (h : handler W)
  (w w1 : W) (pause : Pause) (r : ResumeRequest) (lease : option error) :
  has_queue e = true -> has_sm e = true ->
  h _ (sm_LeasePause (p_ID pause)) w = (lease, w1) ->
  let leased := Ev (sm_LeasePause (p_ID pause)) lease in
  (lease = Some ErrPauseLeased \/ lease = Some ErrPauseNotFound ->
   interp h (Resume e pause r) w = (Returned None, w1, [leased])) /\
  (lease <> Some ErrPauseLeased -> lease <> Some ErrPauseNotFound ->
   (p_OnTimeout pause = true -> rr_EventID r <> None ->
    forall (w2 : W) (c : option error),
      h _ (sm_ConsumePause (p_ID pause) None) w1 = (c, w2) ->
      interp h (Resume e pause r) w =
      (Returned (if negb (isSome c) || err_is c ErrPauseNotFound then None else c), w2,
       [leased; Ev (sm_ConsumePause (p_ID pause) None) c])) /\
   (p_OnTimeout pause = false \/ rr_EventID r = None ->
    forall (w2 w3 w4 w5 : W) (g : UUID) (now : Time) (q : option error),
      h _ (sm_ConsumePause (p_ID pause) (rr_With r)) w1 = (None, w2) ->
      h _ uuid_New w2 = (g, w3) ->
      h _ time_Now w3 = (now, w4) ->
      let item :=
        mkItem (Some (Identifier_IdempotencyKey (p_Identifier pause) ++ "-"
                      ++ p_DataKey pause))
               (UUID_String g) (p_WorkspaceID pause) KindEdge (p_Identifier pause) 0 None
               (PayloadEdge (Pause_Edge pause)) None [] in
      h _ (queue_Enqueue item now) w4 = (q, w5) ->
      q = None \/ q = Some ErrQueueItemExists ->
      exists w6,
        interp h (Resume e pause r) w =
        (Returned None, w6,
         ([leased; Ev (sm_ConsumePause (p_ID pause) (rr_With r)) None;
           Ev uuid_New g; Ev time_Now now; Ev (queue_Enqueue item now) q]
          ++ fired (lifecycles e)
               (if match p_Opcode pause with
                   | Some op => String.eqb op (Opcode_String OpcodeInvokeFunction)
                   | None => false
                   end
                then OnInvokeFunctionResumed (p_Identifier pause) r (p_GroupID pause)
                else OnWaitForEventResumed (p_Identifier pause) r (p_GroupID pause)))%list))).
Proof.
  intros Hq Hsm Hlease leased. split.
  - intro Htaken. apply Resume_taken; assumption.
  - intros Hl1 Hl2. split.
    + intros Hto Hev w2 c Hc. eapply Resume_event_before_timeout; eassumption.
    + intros Hto w2 w3 w4 w5 g now q Hc Hg Hnow item Henq Hok.
      eapply Resume_enqueues; eassumption.
Qed.

(** A pause leased by another runner is left alone; a pause whose edge is
    already in the queue resumes all the same. *)
Lemma Resume_spec_witness :
  interp (Sample.override Sample.leased_elsewhere
            (Sample.calm RunStatusRunning Sample.no_outputs))
         (Resume (X := Sample.externals) Sample.exec Sample.pause Sample.resume_request)
         0%nat
  = (Returned None, 1%nat, [Ev (sm_LeasePause 12%N) (Some ErrPauseLeased)])
  /\
  exists w6 tr,
    interp (Sample.override Sample.already_queued
              (Sample.calm RunStatusRunning Sample.no_outputs))
           (Resume (X := Sample.externals) Sample.exec Sample.pause Sample.resume_request)
           0%nat
    = (Returned None, w6, tr) /\
    nth_error tr 4 =
    Some (Ev (queue_Enqueue
                (mkItem (Some "uuid-7:00000000Z80000000000000001-wait") "uuid-11" 9%N KindEdge
                        Sample.ident 0 None (PayloadEdge (mkEdge "wait" "step" "")) None [])
                2000000000)
             (Some ErrQueueItemExists)).
Proof.
  split.
  - apply (Resume_spec (X := Sample.externals) Sample.exec
             (Sample.override Sample.leased_elsewhere
                (Sample.calm RunStatusRunning Sample.no_outputs))
             0%nat 1%nat Sample.pause Sample.resume_request (Some ErrPauseLeased)
             eq_refl eq_refl eq_refl).
    left; reflexivity.
  - destruct (Resume_spec (X := Sample.externals) Sample.exec
                (Sample.override Sample.already_queued
                   (Sample.calm RunStatusRunning Sample.no_outputs))
                0%nat 1%nat Sample.pause Sample.resume_request None
                eq_refl eq_refl eq_refl) as [_ Hfree].
    assert (H1 : @None error <> Some ErrPauseLeased) by discriminate.
    assert (H2 : @None error <> Some ErrPauseNotFound) by discriminate.
    destruct (Hfree H1 H2) as [_ Henq].
    destruct (Henq (or_introl eq_refl) 2%nat 3%nat 4%nat 5%nat 11%N 2000000000
                   (Some ErrQueueItemExists) eq_refl eq_refl eq_refl eq_refl
                   (or_intror eq_refl)) as [w6 Hrun].
    eexists. eexists. split; [exact Hrun |]. reflexivity.
Defined.

(** ** The step-error opcode *)

Lemma int_wrap_add (a k : Z) : int_wrap (int_wrap a + k) = int_wrap (a + k).
Proof.
  unfold int_wrap. f_equal.
  replace ((a + 9223372036854775808) mod 18446744073709551616 - 9223372036854775808 + k
           + 9223372036854775808)
    with ((a + 9223372036854775808) mod 18446744073709551616 + k) by lia.
  rewrite Zplus_mod_idemp_l. f_equal. lia.
Qed.

Lemma int_wrap_small (z : Z) :
  - 9223372036854775808 <= z < 9223372036854775808 -> int_wrap z = z.
Proof. intro Hz. unfold int_wrap. rewrite Z.mod_small; lia. Qed.

Section StepError.

Context {X : Externals} (e : executor) {W : Type} (h : handler W).








End StepError.

(** The executor of the examples that has no queue is one that
    [NewExecutor] builds. *)
Lemma NewExecutor_state_manager_only :
  NewExecutor [WithStateManager true] = (Some Cases.state_manager_only, None).
Proof. reflexivity. Qed.



(** ** Matching pauses: expiry and the triggering event *)

Lemma after_calls_nil {W R : Type} (x : outcome R * W * trace) : after_calls [] x = x.
Proof. destruct x as [[o w] t]. reflexivity. Qed.

Lemma after_calls_app {W R : Type} (t1 t2 : trace) (x : outcome R * W * trace) :
  after_calls t1 (after_calls t2 x) = after_calls (t1 ++ t2)%list x.
Proof.
  destruct x as [[o w] t]. unfold after_calls, result_of, world_of, trace_of.
  cbn [fst snd]. rewrite List.app_assoc. reflexivity.
Qed.

Lemma interp_bind_returned {W A B : Type} (h : handler W) (p : Prog A) (f : A -> Prog B)
  (w w1 : W) (a : A) (t1 : trace) :
  interp h p w = (Returned a, w1, t1) ->
  interp h (bind p f) w = after_calls t1 (interp h (f a) w1).
Proof.
  intro Hp. rewrite interp_bind, Hp.
  destruct (interp h (f a) w1) as [[o w2] t2]. reflexivity.
Qed.

Lemma interp_bind_assoc {W A B C : Type} (h : handler W) (p : Prog A) (f : A -> Prog B)
  (g : B -> Prog C) :
  forall w, interp h (bind (bind p f) g) w = interp h (bind p (fun x => bind (f x) g)) w.
Proof.
  induction p as [a | m | T c k IH]; intro w; cbn [bind interp].
  - reflexivity.
  - reflexivity.
  - destruct (h T c w) as [x w1]. rewrite IH. reflexivity.
Qed.

Section PauseGuards.

Context {X : Externals} (e : executor) {W : Type} (h : handler W).

Lemma naive_pause_expired (w w1 w2 : W) (evt : TrackedEvent) (pause : Pause)
  (acc : PauseAcc) (now : Time) (d : option error) :
  h _ time_Now w = (now, w1) ->
  time_Before (p_Expires pause) now = true ->
  h _ (sm_DeletePause pause) w1 = (d, w2) ->
  interp h (naive_pause e evt (Some pause) acc) w =
  (Returned (inc_attempted (fst acc), snd acc), w2,
   [Ev time_Now now; Ev (sm_DeletePause pause) d]).
Proof.
  intros Hnow Hexp Hdel. unfold naive_pause. cbn [interp bind call].
  rewrite Hnow, Hexp. cbn [interp bind call]. rewrite Hdel. reflexivity.
Qed.

Lemma aggregate_pause_expired (w w1 w2 w3 : W) (evt : TrackedEvent) (pause : Pause)
  (acc : PauseAcc) (now : Time) (d rm : option error) :
  h _ time_Now w = (now, w1) ->
  time_Before (p_Expires pause) now = true ->
  h _ (sm_DeletePause pause) w1 = (d, w2) ->
  h _ (agg_RemovePause pause) w2 = (rm, w3) ->
  interp h (aggregate_pause e evt pause acc) w =
  (Returned (inc_attempted (fst acc), snd acc), w3,
   [Ev time_Now now; Ev (sm_DeletePause pause) d; Ev (agg_RemovePause pause) rm]).
Proof.
  intros Hnow Hexp Hdel Hrm. unfold aggregate_pause. cbn [interp bind call].
  rewrite Hnow, Hexp. cbn [interp bind call]. rewrite Hdel.
  cbn [interp bind call]. rewrite Hrm. reflexivity.
Qed.

Lemma naive_pause_own_event (w w1 : W) (evt : TrackedEvent) (pause : Pause)
  (acc : PauseAcc) (now : Time) :
  h _ time_Now w = (now, w1) ->
  time_Before (p_Expires pause) now = false ->
  p_TriggeringEventID pause = Some (ULID_String (GetInternalID evt)) ->
  interp h (naive_pause e evt (Some pause) acc) w =
  (Returned (inc_attempted (fst acc), snd acc), w1, [Ev time_Now now]).
Proof.
  intros Hnow Hexp Htrig. unfold naive_pause. cbn [interp bind call].
  rewrite Hnow, Hexp, Htrig, String.eqb_refl. reflexivity.
Qed.

Lemma aggregate_pause_own_event (w w1 : W) (evt : TrackedEvent) (pause : Pause)
  (acc : PauseAcc) (now : Time) :
  h _ time_Now w = (now, w1) ->
  time_Before (p_Expires pause) now = false ->
  p_TriggeringEventID pause = Some (ULID_String (GetInternalID evt)) ->
  interp h (aggregate_pause e evt pause acc) w =
  (Returned (inc_attempted (fst acc), snd acc), w1, [Ev time_Now now]).
Proof.
  intros Hnow Hexp Htrig. unfold aggregate_pause. cbn [interp bind call].
  rewrite Hnow, Hexp, Htrig, String.eqb_refl. reflexivity.
Qed.

(** The strategies, value by value: when the loop has come through the
    values [l1], its run over [l1 ++ l2] goes on from there over [l2]. *)
Lemma naive_loop_app {R : Type} (evt : TrackedEvent) (l1 l2 : list (option Pause))
  (f : NaiveState + HandlePauseResult * error -> Prog R) :
  forall (st st1 : NaiveState) (w w1 : W) (t1 : trace),
    interp h (naive_loop e evt l1 st) w = (Returned (inl st1), w1, t1) ->
    interp h (bind (naive_loop e evt (l1 ++ l2) st) f) w =
    after_calls t1 (interp h (bind (naive_loop e evt l2 st1) f) w1).
Proof.
  induction l1 as [| v l1 IH]; intros st st1 w w1 t1 Hrun.
  - cbn in Hrun. inversion Hrun. subst. rewrite after_calls_nil. reflexivity.
  - cbn [naive_loop app] in *. cbn [interp bind call] in *.
    destruct (h (option error) sem_Acquire w) as [[er |] wa].
    + cbn [interp bind call] in Hrun.
      destruct (h _ (go_Progress (List.length (snd st))) wa) as [marks wb].
      cbn in Hrun. discriminate Hrun.
    + rewrite interp_bind in Hrun. rewrite interp_bind_assoc.
      destruct (interp h (naive_pause e evt v (fst st)) wa) as [[[acc' | m] wb] tb] eqn:Hb.
      * destruct (interp h (naive_loop e evt l1
                    (acc', (snd st ++ [negb (snd (fst acc') =? snd (fst (fst st)))])%list))
                    wb) as [[o2 w2] t2] eqn:Hl.
        inversion Hrun. subst o2 w2 t1.
        rewrite (interp_bind_returned h _ _ wa wb acc' tb Hb).
        rewrite (IH _ _ _ _ _ Hl).
        destruct (interp h (bind (naive_loop e evt l2 st1) f) w1) as [[o3 w3] t3].
        unfold after_calls, result_of, world_of, trace_of. cbn [fst snd app].
        rewrite List.app_assoc. reflexivity.
      * discriminate Hrun.
Qed.

Lemma aggregate_loop_app (evt : TrackedEvent) (l1 l2 : list (option Pause)) :
  forall (acc acc1 : PauseAcc) (w w1 : W) (t1 : trace),
    interp h (aggregate_loop e evt l1 acc) w = (Returned acc1, w1, t1) ->
    interp h (aggregate_loop e evt (l1 ++ l2) acc) w =
    after_calls t1 (interp h (aggregate_loop e evt l2 acc1) w1).
Proof.
  induction l1 as [| [found |] l1 IH]; intros acc acc1 w w1 t1 Hrun.
  - cbn in Hrun. inversion Hrun. subst. rewrite after_calls_nil. reflexivity.
  - cbn [aggregate_loop app] in *. rewrite interp_bind in Hrun.
    destruct (interp h (aggregate_pause e evt found acc) w) as [[[acc' | m] wb] tb] eqn:Hb.
    + destruct (interp h (aggregate_loop e evt l1 acc') wb) as [[o2 w2] t2] eqn:Hl.
      inversion Hrun. subst o2 w2 t1.
      rewrite (interp_bind_returned h _ _ w wb acc' tb Hb).
      rewrite (IH _ _ _ _ _ Hl). rewrite after_calls_app. reflexivity.
    + discriminate Hrun.
  - cbn [aggregate_loop app] in *. apply IH, Hrun.
Qed.

(** One value of the iterator in a run of the naive strategy: after the
    values [before], the semaphore lets the value through, its body runs,
    and the strategy goes on over the values [after] with what the body
    left. *)
Lemma handlePausesAllNaively_value (iter : PauseIterator) (evt : TrackedEvent)
  (before after : list (option Pause)) (v : option Pause) (st : NaiveState)
  (acc' : PauseAcc) (w w0 w1 w2 : W) (t0 tb : trace) :
  has_queue e = true -> has_sm e = true ->
  iter_Vals iter = (before ++ v :: after)%list ->
  interp h (naive_loop e evt before (((0, 0), None), [])) w = (Returned (inl st), w0, t0) ->
  h _ sem_Acquire w0 = (None, w1) ->
  interp h (naive_pause e evt v (fst st)) w1 = (Returned acc', w2, tb) ->
  interp h (handlePausesAllNaively e iter evt) w =
  after_calls (t0 ++ Ev sem_Acquire None :: tb)%list
    (interp h (handlePausesAllNaively_from e iter evt after
                 (acc', (snd st ++ [negb (snd (fst acc') =? snd (fst (fst st)))])%list))
            w2).
Proof.
  intros Hq Hsm Hvals Hbefore Hsem Hbody. unfold handlePausesAllNaively, handlePausesAllNaively_from.
  rewrite Hq, Hsm, Hvals. cbn [negb orb].
  etransitivity;
    [exact (naive_loop_app evt before (v :: after) (fun r => naive_end iter r)
              _ _ _ _ _ Hbefore) |].
  cbn [naive_loop]. cbn [interp bind call]. rewrite Hsem.
  rewrite interp_bind_assoc.
  rewrite (interp_bind_returned h _ _ w1 w2 acc' tb Hbody).
  destruct (interp h _ w2) as [[o3 w3] t3].
  unfold after_calls, result_of, world_of, trace_of. cbn [fst snd].
  rewrite <- !List.app_assoc. reflexivity.
Qed.

(** The same for the aggregate strategy, whose values are the evaluations
    that the aggregator answered with. *)
Lemma handleAggregatePauses_value (evt : TrackedEvent)
  (before after : list (option Pause)) (pause : Pause) (count : Z)
  (acc acc' : PauseAcc) (w wa w0 w1 : W) (t0 tb : trace) :
  has_exprAggregator e = true ->
  h _ (agg_EvaluateAsyncEvent evt) w
  = (((before ++ Some pause :: after)%list, count, None), wa) ->
  interp h (aggregate_loop e evt before ((0, 0), None)) wa = (Returned acc, w0, t0) ->
  interp h (aggregate_pause e evt pause acc) w0 = (Returned acc', w1, tb) ->
  interp h (handleAggregatePauses e evt) w =
  after_calls (Ev (agg_EvaluateAsyncEvent evt)
                  ((before ++ Some pause :: after)%list, count, None) :: t0 ++ tb)%list
    (interp h (aggregate_loop e evt after acc') w1).
Proof.
  intros Hagg Hevals Hbefore Hbody. unfold handleAggregatePauses.
  rewrite Hagg. cbn [negb]. cbn [interp bind call]. rewrite Hevals.
  pose proof (aggregate_loop_app evt before (Some pause :: after) _ _ _ _ _ Hbefore)
    as Happ.
  cbn [aggregate_loop] in Happ.
  rewrite (interp_bind_returned h _ _ w0 w1 acc' tb Hbody), after_calls_app in Happ.
  match goal with
  | |- context [@interp ?W' ?R' h ?p wa] =>
      assert (Hx : @interp W' R' h p wa =
                   after_calls (t0 ++ tb)%list
                               (interp h (aggregate_loop e evt after acc') w1))
        by exact Happ;
      rewrite Hx
  end.
  destruct (interp h _ w1) as [[o3 w3] t3]. reflexivity.
Qed.

End PauseGuards.

(** C7.  A pause that either strategy comes to after its expiry is deleted
    with [DeletePause] (and removed from the aggregator on the aggregate
    path).  In a run of the naive strategy over the values
    [before ++ pause :: after], once the values before it are handled and
    the semaphore lets the pause through, the clock reading and the
    deletion are all that is called for the pause: it is neither consumed,
    cancelled nor resumed, and the strategy goes on over the values after
    it with attempted grown by one and consumed as it was.  The same holds
    of the aggregate strategy over the evaluations of the aggregator. *)
Theorem expired_pause_deleted {X : Externals} (e : executor) {W : Type} (h : handler W)
  (evt : TrackedEvent) (pause : Pause) (before after : list (option Pause))
  (now : Time) (d : option error) :
  time_Before (p_Expires pause) now = true ->
  (forall (iter : PauseIterator) (st : NaiveState) (w w0 w1 w2 w3 : W) (t0 : trace),
     has_queue e = true -> has_sm e = true ->
     iter_Vals iter = (before ++ Some pause :: after)%list ->
     interp h (naive_loop e evt before (((0, 0), None), [])) w
     = (Returned (inl st), w0, t0) ->
     h _ sem_Acquire w0 = (None, w1) ->
     h _ time_Now w1 = (now, w2) ->
     h _ (sm_DeletePause pause) w2 = (d, w3) ->
     interp h (handlePausesAllNaively e iter evt) w =
     after_calls
       (t0 ++ [Ev sem_Acquire None; Ev time_Now now; Ev (sm_DeletePause pause) d])%list
       (interp h (handlePausesAllNaively_from e iter evt after (attempted_only st)) w3)) /\
  (forall (count : Z) (acc : PauseAcc) (w wa w0 w1 w2 w3 : W) (t0 : trace)
          (rm : option error),
     has_exprAggregator e = true ->
     let evals := ((before ++ Some pause :: after)%list, count, None) in
     h _ (agg_EvaluateAsyncEvent evt) w = (evals, wa) ->
     interp h (aggregate_loop e evt before ((0, 0), None)) wa = (Returned acc, w0, t0) ->
     h _ time_Now w0 = (now, w1) ->
     h _ (sm_DeletePause pause) w1 = (d, w2) ->
     h _ (agg_RemovePause pause) w2 = (rm, w3) ->
     interp h (handleAggregatePauses e evt) w =
     after_calls
       (Ev (agg_EvaluateAsyncEvent evt) evals
        :: t0 ++ [Ev time_Now now; Ev (sm_DeletePause pause) d;
                  Ev (agg_RemovePause pause) rm])%list
       (interp h (aggregate_loop e evt after (inc_attempted (fst acc), snd acc)) w3)).
Proof.
  intro Hexp. split.
  - intros iter st w w0 w1 w2 w3 t0 Hq Hsm Hvals Hbefore Hsem Hnow Hdel.
    pose proof (naive_pause_expired e h w1 w2 w3 evt pause (fst st) now d Hnow Hexp Hdel)
      as Hbody.
    rewrite (handlePausesAllNaively_value e h iter evt before after (Some pause) st
               _ w w0 w1 w3 t0 _ Hq Hsm Hvals Hbefore Hsem Hbody).
    unfold attempted_only. cbn [fst snd inc_attempted]. rewrite Z.eqb_refl. reflexivity.
  - intros count acc w wa w0 w1 w2 w3 t0 rm Hagg evals Hevals Hbefore Hnow Hdel Hrm.
    pose proof (aggregate_pause_expired e h w0 w1 w2 w3 evt pause acc now d rm
                  Hnow Hexp Hdel Hrm) as Hbody.
    exact (handleAggregatePauses_value e h evt before after pause count acc _
             w wa w0 w3 t0 _ Hagg Hevals Hbefore Hbody).
Qed.

(** The sample pause that expired one second before the clock reading,
    between a nil value and the live sample pause: each strategy deletes it
    and goes on to the live pause with one pause more attempted and none
    consumed. *)
Lemma expired_pause_deleted_witness :
  let calm := Sample.calm RunStatusRunning Sample.no_outputs in
  let found := [None; Some Sample.expired_pause; Some Sample.pause] in
  let finds := Sample.override (Cases.aggregator_finds found) calm in
  interp calm (handlePausesAllNaively (X := Sample.externals) Sample.exec
                 Cases.expired_second Sample.later) 0%nat
  = after_calls
      [Ev sem_Acquire None;
       Ev sem_Acquire None; Ev time_Now 2000000000;
       Ev (sm_DeletePause Sample.expired_pause) None]
      (interp calm (handlePausesAllNaively_from (X := Sample.externals) Sample.exec
                      Cases.expired_second Sample.later [Some Sample.pause]
                      (((2, 0), None), [false; false])) 4%nat)
  /\
  interp finds (handleAggregatePauses (X := Sample.externals) Sample.exec Sample.later)
         0%nat
  = after_calls
      [Ev (agg_EvaluateAsyncEvent Sample.later) (found, 3, None);
       Ev time_Now 2000000000; Ev (sm_DeletePause Sample.expired_pause) None;
       Ev (agg_RemovePause Sample.expired_pause) None]
      (interp finds (aggregate_loop (X := Sample.externals) Sample.exec Sample.later
                       [Some Sample.pause] ((1, 0), None)) 4%nat).
Proof.
  intros calm found finds.
  split.
  - exact (proj1 (expired_pause_deleted (X := Sample.externals) Sample.exec calm
                    Sample.later Sample.expired_pause [None] [Some Sample.pause]
                    2000000000 None eq_refl)
                 Cases.expired_second (((1, 0), None), [false]) 0%nat 1%nat 2%nat 3%nat
                 4%nat [Ev sem_Acquire None]
                 eq_refl eq_refl eq_refl eq_refl eq_refl eq_refl eq_refl).
  - exact (proj2 (expired_pause_deleted (X := Sample.externals) Sample.exec finds
                    Sample.later Sample.expired_pause [None] [Some Sample.pause]
                    2000000000 None eq_refl)
                 3 ((0, 0), None) 0%nat 1%nat 1%nat 2%nat 3%nat 4%nat [] None
                 eq_refl eq_refl eq_refl eq_refl eq_refl eq_refl).
Defined.

(** C8, as amended.  A pause whose triggering event is the incoming event
    is never cancelled, consumed or resumed for that event by either
    strategy.  In a run of a strategy over the values
    [before ++ pause :: after]: when the pause has not expired, the clock
    reading is the only call made for it and the pause stays in place; when
    it has expired it is deleted, as any expired pause is.  Either way the
    strategy goes on over the values after it with attempted grown by one
    and consumed as it was. *)
Theorem own_event_pause_skipped {X : Externals} (e : executor) {W : Type} (h : handler W)
  (evt : TrackedEvent) (pause : Pause) (before after : list (option Pause)) (now : Time) :
  p_TriggeringEventID pause = Some (ULID_String (GetInternalID evt)) ->
  (forall (iter : PauseIterator) (st : NaiveState) (w w0 w1 w2 : W) (t0 : trace),
     has_queue e = true -> has_sm e = true ->
     iter_Vals iter = (before ++ Some pause :: after)%list ->
     interp h (naive_loop e evt before (((0, 0), None), [])) w
     = (Returned (inl st), w0, t0) ->
     h _ sem_Acquire w0 = (None, w1) ->
     h _ time_Now w1 = (now, w2) ->
     (time_Before (p_Expires pause) now = false ->
      interp h (handlePausesAllNaively e iter evt) w =
      after_calls (t0 ++ [Ev sem_Acquire None; Ev time_Now now])%list
        (interp h (handlePausesAllNaively_from e iter evt after (attempted_only st)) w2)) /\
     (time_Before (p_Expires pause) now = true ->
      forall (w3 : W) (d : option error),
        h _ (sm_DeletePause pause) w2 = (d, w3) ->
        interp h (handlePausesAllNaively e iter evt) w =
        after_calls
          (t0 ++ [Ev sem_Acquire None; Ev time_Now now; Ev (sm_DeletePause pause) d])%list
          (interp h (handlePausesAllNaively_from e iter evt after (attempted_only st))
                  w3))) /\
  (forall (count : Z) (acc : PauseAcc) (w wa w0 w1 : W) (t0 : trace),
     has_exprAggregator e = true ->
     let evals := ((before ++ Some pause :: after)%list, count, None) in
     h _ (agg_EvaluateAsyncEvent evt) w = (evals, wa) ->
     interp h (aggregate_loop e evt before ((0, 0), None)) wa = (Returned acc, w0, t0) ->
     h _ time_Now w0 = (now, w1) ->
     (time_Before (p_Expires pause) now = false ->
      interp h (handleAggregatePauses e evt) w =
      after_calls (Ev (agg_EvaluateAsyncEvent evt) evals :: t0 ++ [Ev time_Now now])%list
        (interp h (aggregate_loop e evt after (inc_attempted (fst acc), snd acc)) w1)) /\
     (time_Before (p_Expires pause) now = true ->
      forall (w2 w3 : W) (d rm : option error),
        h _ (sm_DeletePause pause) w1 = (d, w2) ->
        h _ (agg_RemovePause pause) w2 = (rm, w3) ->
        interp h (handleAggregatePauses e evt) w =
        after_calls
          (Ev (agg_EvaluateAsyncEvent evt) evals
           :: t0 ++ [Ev time_Now now; Ev (sm_DeletePause pause) d;
                     Ev (agg_RemovePause pause) rm])%list
          (interp h (aggregate_loop e evt after (inc_attempted (fst acc), snd acc)) w3))).
Proof.
  intro Htrig. split.
  - intros iter st w w0 w1 w2 t0 Hq Hsm Hvals Hbefore Hsem Hnow. split.
    + intro Hexp.
      pose proof (naive_pause_own_event e h w1 w2 evt pause (fst st) now Hnow Hexp Htrig)
        as Hbody.
      rewrite (handlePausesAllNaively_value e h iter evt before after (Some pause) st
                 _ w w0 w1 w2 t0 _ Hq Hsm Hvals Hbefore Hsem Hbody).
      unfold attempted_only. cbn [fst snd inc_attempted]. rewrite Z.eqb_refl. reflexivity.
    + intros Hexp w3 d Hdel.
      pose proof (naive_pause_expired e h w1 w2 w3 evt pause (fst st) now d Hnow Hexp Hdel)
        as Hbody.
      rewrite (handlePausesAllNaively_value e h iter evt before after (Some pause) st
                 _ w w0 w1 w3 t0 _ Hq Hsm Hvals Hbefore Hsem Hbody).
      unfold attempted_only. cbn [fst snd inc_attempted]. rewrite Z.eqb_refl. reflexivity.
  - intros count acc w wa w0 w1 t0 Hagg evals Hevals Hbefore Hnow. split.
    + intro Hexp.
      pose proof (aggregate_pause_own_event e h w0 w1 evt pause acc now Hnow Hexp Htrig)
        as Hbody.
      exact (handleAggregatePauses_value e h evt before after pause count acc _
               w wa w0 w1 t0 _ Hagg Hevals Hbefore Hbody).
    + intros Hexp w2 w3 d rm Hdel Hrm.
      pose proof (aggregate_pause_expired e h w0 w1 w2 w3 evt pause acc now d rm
                    Hnow Hexp Hdel Hrm) as Hbody.
      exact (handleAggregatePauses_value e h evt before after pause count acc _
               w wa w0 w3 t0 _ Hagg Hevals Hbefore Hbody).
Qed.

(** An invoke pause that the incoming event triggered and that has not
    expired at the clock reading, between a nil value and the live sample
    pause: nothing is called for it but the clock. *)
Lemma own_event_pause_skipped_witness :
  let calm := Sample.calm RunStatusRunning Sample.no_outputs in
  let found := [None; Some Cases.own_pause; Some Sample.pause] in
  let finds := Sample.override (Cases.aggregator_finds found) calm in
  interp calm (handlePausesAllNaively (X := Sample.externals) Sample.exec
                 Cases.own_second Sample.later) 0%nat
  = after_calls
      [Ev sem_Acquire None; Ev sem_Acquire None; Ev time_Now 2000000000]
      (interp calm (handlePausesAllNaively_from (X := Sample.externals) Sample.exec
                      Cases.own_second Sample.later [Some Sample.pause]
                      (((2, 0), None), [false; false])) 3%nat)
  /\
  interp finds (handleAggregatePauses (X := Sample.externals) Sample.exec Sample.later)
         0%nat
  = after_calls
      [Ev (agg_EvaluateAsyncEvent Sample.later) (found, 3, None); Ev time_Now 2000000000]
      (interp finds (aggregate_loop (X := Sample.externals) Sample.exec Sample.later
                       [Some Sample.pause] ((1, 0), None)) 2%nat).
Proof.
  intros calm found finds.
  split.
  - destruct (proj1 (own_event_pause_skipped (X := Sample.externals) Sample.exec calm
                       Sample.later Cases.own_pause [None] [Some Sample.pause]
                       2000000000 eq_refl)
                    Cases.own_second (((1, 0), None), [false]) 0%nat 1%nat 2%nat 3%nat
                    [Ev sem_Acquire None]
                    eq_refl eq_refl eq_refl eq_refl eq_refl eq_refl) as [Hlive _].
    exact (Hlive eq_refl).
  - destruct (proj2 (own_event_pause_skipped (X := Sample.externals) Sample.exec finds
                       Sample.later Cases.own_pause [None] [Some Sample.pause]
                       2000000000 eq_refl)
                    3 ((0, 0), None) 0%nat 1%nat 1%nat 2%nat [] 
                    eq_refl eq_refl eq_refl eq_refl) as [Hlive _].
    exact (Hlive eq_refl).
Defined.

(** C8 as stated fails: a pause triggered by the incoming event that has
    expired is not left in place, both strategies delete it. *)
Lemma own_event_pause_skipped_counterexample :
  p_TriggeringEventID Sample.expired_own_pause
  = Some (ULID_String (GetInternalID Sample.later)) /\
  trace_of (interp (Sample.calm RunStatusRunning Sample.no_outputs)
              (handlePausesAllNaively (X := Sample.externals) Sample.exec
                 (mkIter [Some Sample.expired_own_pause] 1 None) Sample.later) 0%nat)
  = [Ev sem_Acquire None; Ev time_Now 2000000000;
     Ev (sm_DeletePause Sample.expired_own_pause) None]
  /\
  trace_of (interp (Sample.override
                      (Cases.aggregator_finds [Some Sample.expired_own_pause])
                      (Sample.calm RunStatusRunning Sample.no_outputs))
              (handleAggregatePauses (X := Sample.externals) Sample.exec Sample.later)
              0%nat)
  = [Ev (agg_EvaluateAsyncEvent Sample.later) ([Some Sample.expired_own_pause], 1, None);
     Ev time_Now 2000000000; Ev (sm_DeletePause Sample.expired_own_pause) None;
     Ev (agg_RemovePause Sample.expired_own_pause) None].
Proof. repeat split. Qed.

(** ** Opcode pauses: the pause id and a pause that already exists *)

Lemma after_pause_exists_fired (ls : list Listener) (c : LifecycleCall) (t : trace) :
  after_pause_exists (fired ls c ++ t)%list = after_pause_exists t.
Proof. induction ls as [| l ls IH]; [reflexivity | exact IH]. Qed.

Section OpcodePauses.

Context {X : Externals} (e : executor).

Ltac opcode_pause_finish :=
  unfold opcode_pause_post;
  cbn [saved_pauses flat_map saved_pause ev_call app after_pause_exists
       pause_already_exists];
  repeat match goal with
         | H : err_is _ ErrPauseAlreadyExists = _ |- _ => rewrite H
         end;
  rewrite ?after_pause_exists_fired;
  cbn [saved_pauses flat_map saved_pause ev_call app after_pause_exists
       pause_already_exists];
  saved_simpl;
  split; [repeat constructor |];
  split; [cbn [List.length]; lia |];
  split;
  [ let Hnil := fresh "Hnil" in
    intro Hnil;
    first [ discriminate Hnil
          | eexists; reflexivity
          | exfalso; inversion Hnil; subst;
            match goal with
            | H : isSome None = true |- _ => discriminate H
            | H : isSome (Some _) = false |- _ => discriminate H
            | H : Some _ = None |- _ => discriminate H
            end ]
  | intros post Hpost; first [discriminate Hpost
                             | inversion Hpost; split; reflexivity] ].

Lemma handleGeneratorWaitForEvent_pause (gen : GeneratorOpcode) (item : Item) (edge : Edge) :
  wpt (handleGeneratorWaitForEvent e gen item edge) (opcode_pause_post gen item).
Proof.
  unfold handleGeneratorWaitForEvent, enqueue. wp.
  all: cbn [wpt bind call].
  all: opcode_pause_finish.
Qed.

Lemma handleGeneratorInvokeFunction_pause (gen : GeneratorOpcode) (item : Item)
  (edge : Edge) :
  wpt (handleGeneratorInvokeFunction e gen item edge) (opcode_pause_post gen item).
Proof.
  unfold handleGeneratorInvokeFunction, enqueue. wp.
  all: cbn [wpt bind call].
  all: opcode_pause_finish.
Qed.

End OpcodePauses.

(** C4.  The wait-for-event and the invoke handlers save at most one pause,
    and a handler that returns nil has saved one.  The pause has the id
    [uuid.NewSHA1(uuid.NameSpaceOID, run_id ++ step_id)], a version-5 UUID
    that depends on nothing but the run id and the step id; and when the
    state store answers that the pause already exists the handler returns
    nil and calls nothing after that [SavePause]. *)
Theorem opcode_pause_idempotent {X : Externals} (e : executor) {W : Type}
  (h : handler W) (w : W) (gen : GeneratorOpcode) (item : Item) (edge : Edge) :
  let waits := interp h (handleGeneratorWaitForEvent e gen item edge) w in
  let invokes := interp h (handleGeneratorInvokeFunction e gen item edge) w in
  opcode_pause_post gen item (trace_of waits) (result_of waits) /\
  opcode_pause_post gen item (trace_of invokes) (result_of invokes).
Proof.
  intros waits invokes. split.
  - exact (wpt_sound h _ _ w (handleGeneratorWaitForEvent_pause e gen item edge)).
  - exact (wpt_sound h _ _ w (handleGeneratorInvokeFunction_pause e gen item edge)).
Qed.

(** The handlers of a wait at step [wait] and of an invocation at step
    [invoke], first on a store that saves the pause, then on a store that
    already holds it: the pause has the same id both times, and the second
    time the handler stops at the [SavePause] and reports success. *)
Lemma opcode_pause_idempotent_witness :
  let fresh_store := Sample.calm RunStatusRunning Sample.no_outputs in
  let full_store := Sample.override Sample.pause_in_place fresh_store in
  let waits hd := interp hd (handleGeneratorWaitForEvent (X := Sample.externals)
                               Sample.exec Sample.wait_step Sample.item Sample.edge)
                         0%nat in
  let invokes hd := interp hd (handleGeneratorInvokeFunction (X := Sample.externals)
                                 Sample.exec Cases.invoke_step Sample.item Sample.edge)
                           0%nat in
  (map p_ID (saved_pauses (trace_of (waits fresh_store))) = [36%N] /\
   map p_ID (saved_pauses (trace_of (waits full_store))) = [36%N] /\
   after_pause_exists (trace_of (waits full_store)) = Some [] /\
   result_of (waits full_store) = Returned None) /\
  (map p_ID (saved_pauses (trace_of (invokes fresh_store))) = [38%N] /\
   map p_ID (saved_pauses (trace_of (invokes full_store))) = [38%N] /\
   after_pause_exists (trace_of (invokes full_store)) = Some [] /\
   result_of (invokes full_store) = Returned None).
Proof.
  intros fresh_store full_store waits invokes.
  destruct (opcode_pause_idempotent (X := Sample.externals) Sample.exec full_store 0%nat
              Sample.wait_step Sample.item Sample.edge) as [(_ & _ & _ & Hwait) _].
  destruct (opcode_pause_idempotent (X := Sample.externals) Sample.exec full_store 0%nat
              Cases.invoke_step Sample.item Sample.edge) as [_ (_ & _ & _ & Hinvoke)].
  split.
  - split; [vm_compute; reflexivity |]. split; [vm_compute; reflexivity |].
    split; [vm_compute; reflexivity |].
    exact (proj2 (Hwait [] ltac:(vm_compute; reflexivity))).
  - split; [vm_compute; reflexivity |]. split; [vm_compute; reflexivity |].
    split; [vm_compute; reflexivity |].
    exact (proj2 (Hinvoke [] ltac:(vm_compute; reflexivity))).
Defined.

(** ** Matching pauses: the counters *)

Lemma int32_wrap_small (z : Z) : 0 <= z < 2147483648 -> int32_wrap z = z.
Proof. intro Hz. unfold int32_wrap. rewrite Z.mod_small; lia. Qed.

Lemma counts_step_inv (n : Z) (acc acc' : PauseAcc) :
  counts_inv n (fst acc) -> n + 1 < 2147483648 -> counts_step acc acc' ->
  counts_inv (n + 1) (fst acc').
Proof.
  unfold counts_inv, counts_step. intros [[Hc Ha] Hn] Hbound [Hfst Hsnd].
  rewrite int32_wrap_small in Hfst by lia.
  destruct Hsnd as [Hsnd | Hsnd].
  - rewrite Hfst, Hsnd. lia.
  - rewrite int32_wrap_small in Hsnd by lia. rewrite Hfst, Hsnd. lia.
Qed.

Section PauseCounters.

Context {X : Externals} (e : executor).

Ltac counts_finish :=
  cbn [wpt bind call]; intros;
  match goal with
  | H : Returned _ = Returned _ |- _ =>
      inversion H; subst; unfold counts_step;
      cbn [fst snd inc_attempted inc_consumed]; split; [reflexivity | auto]
  | H : Panicked _ = Returned _ |- _ => discriminate H
  end.

Lemma naive_pause_counts (evt : TrackedEvent) (pause : option Pause) (acc : PauseAcc) :
  wpt (naive_pause e evt pause acc)
      (fun _ o => forall acc', o = Returned acc' -> counts_step acc acc').
Proof.
  unfold naive_pause. wp.
  all: counts_finish.
Qed.

Lemma aggregate_pause_counts (evt : TrackedEvent) (pause : Pause) (acc : PauseAcc) :
  wpt (aggregate_pause e evt pause acc)
      (fun _ o => forall acc', o = Returned acc' -> counts_step acc acc').
Proof.
  unfold aggregate_pause. wp.
  all: counts_finish.
Qed.

Lemma counts_inv_attempted (n : Z) (res : HandlePauseResult) :
  counts_inv n res -> n + 1 < 2147483648 -> counts_inv (n + 1) (inc_attempted res).
Proof.
  unfold counts_inv, inc_attempted. cbn [fst snd]. intros [[Hc Ha] Hn] Hbound.
  rewrite int32_wrap_small by lia. lia.
Qed.

Lemma counts_inv_consumed (n : Z) (res : HandlePauseResult) :
  counts_inv n res -> n + 1 < 2147483648 ->
  counts_inv (n + 1) (inc_consumed (inc_attempted res)).
Proof.
  unfold counts_inv, inc_attempted, inc_consumed. cbn [fst snd]. intros [[Hc Ha] Hn] Hbound.
  rewrite !int32_wrap_small by lia. lia.
Qed.

(** The copy of the counters taken while goroutines run keeps consumed at
    most attempted. *)
Lemma racy_counters_inv (started : list bool) :
  forall (marks : list Progress) (running : nat) (n : Z) (res : HandlePauseResult),
    counts_inv n res ->
    n + Z.of_nat (List.length started) < 2147483648 ->
    counts_inv (n + Z.of_nat (List.length started))
               (racy_counters started marks running res).
Proof.
  induction started as [| consumes started IH]; intros marks running n res Hinv Hbound.
  - cbn. rewrite Z.add_0_r. exact Hinv.
  - cbn [List.length] in *. rewrite Nat2Z.inj_succ in *.
    replace (n + Z.succ (Z.of_nat (List.length started)))
      with ((n + 1) + Z.of_nat (List.length started)) by lia.
    assert (Hb : n + 1 < 2147483648) by lia.
    assert (Hb' : n + 1 + Z.of_nat (List.length started) < 2147483648) by lia.
    assert (Hsame : counts_inv (n + 1) res).
    { destruct Hinv as [Hca Hn]. split; [exact Hca | lia]. }
    assert (Hfin : counts_inv (n + 1)
                     (if consumes then inc_consumed (inc_attempted res)
                      else inc_attempted res)).
    { destruct consumes;
        [apply counts_inv_consumed | apply counts_inv_attempted]; assumption. }
    cbn [racy_counters].
    destruct marks as [| [| |] marks]; [| destruct running | destruct running |];
      apply IH; try assumption.
    apply counts_inv_attempted; assumption.
Qed.

Lemma naive_loop_counts (evt : TrackedEvent) (vals : list (option Pause)) :
  forall (n : Z) (st : NaiveState),
    counts_inv n (fst (fst st)) ->
    Z.of_nat (List.length (snd st)) <= n ->
    n + Z.of_nat (List.length vals) < 2147483648 ->
    wpt (naive_loop e evt vals st)
        (fun _ o =>
           forall r, o = Returned r ->
                     match r with
                     | inl st' => 0 <= snd (fst (fst st')) <= fst (fst (fst st'))
                     | inr (res, _) => 0 <= snd res <= fst res
                     end).
Proof.
  induction vals as [| pause vals IH]; intros n st Hinv Hlen Hbound; cbn [naive_loop].
  - cbn. intros r Hr. inversion Hr. apply Hinv.
  - cbn [wpt bind call]. intros [er |].
    + cbn [wpt bind call]. intros marks r Hr. inversion Hr.
      assert (Hzero : counts_inv 0 (0, 0)) by (unfold counts_inv; cbn; lia).
      apply (racy_counters_inv (snd st) marks PauseHandleConcurrency 0 (0, 0) Hzero).
      cbn [List.length] in Hbound. lia.
    + apply wpt_bind. eapply wpt_conseq; [| apply naive_pause_counts].
      cbn beta. intros t1 [acc' | m] Hstep.
      * eapply wpt_conseq; [| apply (IH (n + 1))].
        -- cbn beta. intros t2 o Ho. exact Ho.
        -- cbn [fst snd].
           eapply (counts_step_inv n (fst st) acc');
             [exact Hinv | | apply Hstep; reflexivity].
           cbn [List.length] in Hbound. lia.
        -- cbn [fst snd]. rewrite length_app. cbn [List.length]. lia.
        -- cbn [List.length] in Hbound. lia.
      * intros r Hr. discriminate Hr.
Qed.

Lemma aggregate_loop_counts (evt : TrackedEvent) (evals : list (option Pause)) :
  forall (n : Z) (acc : PauseAcc),
    counts_inv n (fst acc) ->
    n + Z.of_nat (List.length evals) < 2147483648 ->
    wpt (aggregate_loop e evt evals acc)
        (fun _ o => forall acc', o = Returned acc' ->
                                 0 <= snd (fst acc') <= fst (fst acc')).
Proof.
  induction evals as [| [found |] evals IH]; intros n acc Hinv Hbound;
    cbn [aggregate_loop].
  - cbn. intros acc' Hr. inversion Hr. subst. apply Hinv.
  - apply wpt_bind. eapply wpt_conseq; [| apply aggregate_pause_counts].
    cbn beta. intros t1 [acc1 | m] Hstep.
    + eapply wpt_conseq; [| apply (IH (n + 1) acc1)].
      * cbn beta. intros t2 o Ho. exact Ho.
      * eapply counts_step_inv; [exact Hinv | | apply Hstep; reflexivity].
        cbn [List.length] in Hbound. lia.
      * cbn [List.length] in Hbound. lia.
    + intros r Hr. discriminate Hr.
  - apply (IH n acc Hinv). cbn [List.length] in Hbound. lia.
Qed.

Lemma handlePausesAllNaively_counts (iter : PauseIterator) (evt : TrackedEvent) :
  Z.of_nat (List.length (iter_Vals iter)) < 2147483648 ->
  wpt (handlePausesAllNaively e iter evt)
      (fun _ o => forall res err, o = Returned (res, err) -> 0 <= snd res <= fst res).
Proof.
  intro Hbound. unfold handlePausesAllNaively, handlePausesAllNaively_from.
  destruct (negb (has_queue e) || negb (has_sm e)).
  - cbn. intros res err H. inversion H. cbn. lia.
  - apply wpt_bind. eapply wpt_conseq;
      [| apply (naive_loop_counts evt (iter_Vals iter) 0 (((0, 0), None), []))].
    + cbn beta. intros t1 [[[[res goerr] started] | [res err]] | m] Hloop.
      * specialize (Hloop _ eq_refl). cbn [naive_end wpt]. intros res' err' H.
        inversion H. subst. exact Hloop.
      * specialize (Hloop _ eq_refl). cbn [naive_end wpt]. intros res' err' H.
        inversion H. subst. exact Hloop.
      * intros res' err' H. discriminate H.
    + unfold counts_inv. cbn. lia.
    + cbn. lia.
    + lia.
Qed.

End PauseCounters.

(** C10.  Either strategy returns counters with consumed at most attempted
    (and consumed not negative): every handler body adds one to attempted
    before it may add one to consumed.  The counters are [int32], so this is
    stated for fewer than 2^31 pauses, and, on the aggregate path, for an
    aggregator whose count of evaluations is not negative, which is what
    the strategy returns as attempted when the aggregator fails. *)
Theorem consumed_le_attempted {X : Externals} (e : executor) {W : Type} (h : handler W) :
  (forall (w w' : W) (iter : PauseIterator) (evt : TrackedEvent)
          (res : HandlePauseResult) (err : option error) (tr : trace),
     Z.of_nat (List.length (iter_Vals iter)) < 2147483648 ->
     interp h (handlePausesAllNaively e iter evt) w = (Returned (res, err), w', tr) ->
     0 <= snd res <= fst res) /\
  (forall (w w1 w' : W) (evt : TrackedEvent) (evals : list (option Pause)) (count : Z)
          (aerr : option error) (res : HandlePauseResult) (err : option error)
          (tr : trace),
     h _ (agg_EvaluateAsyncEvent evt) w = ((evals, count, aerr), w1) ->
     0 <= count ->
     Z.of_nat (List.length evals) < 2147483648 ->
     interp h (handleAggregatePauses e evt) w = (Returned (res, err), w', tr) ->
     0 <= snd res <= fst res).
Proof.
  split.
  - intros w w' iter evt res err tr Hbound Hrun.
    exact (wpt_run h _ _ w w' _ tr (handlePausesAllNaively_counts e iter evt Hbound) Hrun
                   res err eq_refl).
  - intros w w1 w' evt evals count aerr res err tr Hagg Hcount Hbound Hrun.
    unfold handleAggregatePauses in Hrun.
    destruct (negb (has_exprAggregator e)).
    + cbn in Hrun. inversion Hrun. cbn. lia.
    + cbn [interp bind call] in Hrun. rewrite Hagg in Hrun.
      destruct aerr as [er |].
      * cbn in Hrun. inversion Hrun. cbn. lia.
      * match type of Hrun with
        | context [@interp ?W' ?R' h ?p w1] =>
            destruct (@interp W' R' h p w1) as [[o w2] t2] eqn:Hloop
        end.
        inversion Hrun; subst.
        assert (Hinv : counts_inv 0 (fst ((0, 0), @None error)))
          by (unfold counts_inv; cbn; lia).
        assert (Hlen : 0 + Z.of_nat (List.length evals) < 2147483648) by lia.
        exact (wpt_run h _ _ w1 w' _ t2
                 (aggregate_loop_counts e evt evals 0 ((0, 0), None) Hinv Hlen)
                 Hloop (res, err) eq_refl).
Qed.

(** Three values from the iterator, of which one pause is resumed; two
    values from the aggregator, of which one is a pause. *)
Lemma consumed_le_attempted_witness :
  (match result_of (interp (Sample.calm RunStatusRunning Sample.no_outputs)
                      (handlePausesAllNaively (X := Sample.externals) Sample.exec
                         Sample.iterator Sample.later) 0%nat) with
   | Returned (res, _) => 0 <= snd res <= fst res
   | Panicked _ => False
   end) /\
  (match result_of (interp (Sample.override Sample.aggregator_matches
                              (Sample.calm RunStatusRunning Sample.no_outputs))
                      (handleAggregatePauses (X := Sample.externals) Sample.exec
                         Sample.later) 0%nat) with
   | Returned (res, _) => 0 <= snd res <= fst res
   | Panicked _ => False
   end).
Proof.
  destruct (consumed_le_attempted (X := Sample.externals) Sample.exec
              (Sample.calm RunStatusRunning Sample.no_outputs)) as [Hnaive _].
  destruct (consumed_le_attempted (X := Sample.externals) Sample.exec
              (Sample.override Sample.aggregator_matches
                 (Sample.calm RunStatusRunning Sample.no_outputs))) as [_ Hagg].
  split.
  - destruct (interp (Sample.calm RunStatusRunning Sample.no_outputs)
                (handlePausesAllNaively (X := Sample.externals) Sample.exec
                   Sample.iterator Sample.later) 0%nat) as [[o w'] tr] eqn:Hrun.
    assert (Ho : exists res err, o = Returned (res, err)).
    { vm_compute in Hrun. inversion Hrun. eexists. eexists. reflexivity. }
    destruct Ho as (res & err & ->). unfold result_of. cbn [fst].
    apply (Hnaive 0%nat w' Sample.iterator Sample.later res err tr); [| exact Hrun].
    vm_compute. reflexivity.
  - destruct (interp (Sample.override Sample.aggregator_matches
                        (Sample.calm RunStatusRunning Sample.no_outputs))
                (handleAggregatePauses (X := Sample.externals) Sample.exec
                   Sample.later) 0%nat) as [[o w'] tr] eqn:Hrun.
    assert (Ho : exists res err, o = Returned (res, err)).
    { vm_compute in Hrun. inversion Hrun. eexists. eexists. reflexivity. }
    destruct Ho as (res & err & ->). unfold result_of. cbn [fst].
    apply (Hagg 0%nat 1%nat w' Sample.later [Some Sample.pause; None] 2 None res err tr
                eq_refl); [lia | vm_compute; reflexivity | exact Hrun].
Defined.

(** ** Executing a step: stored results *)

Lemma calls_driver_app (t1 t2 : trace) :
  calls_driver (t1 ++ t2)%list = calls_driver t1 || calls_driver t2.
Proof. apply existsb_app. Qed.

Lemma calls_driver_fired (ls : list Listener) (c : LifecycleCall) :
  calls_driver (fired ls c) = false.
Proof. induction ls as [| l ls IH]; [reflexivity | exact IH]. Qed.

Section ExecuteStored.

Context {X : Externals} (e : executor).

Ltac wp_exec :=
  repeat (cbn [wpt bind call];
          match goal with
          | |- wpt (bind (run _ _ _ _ _ _ _) _) _ => fail 1
          | _ => wp_step
          end).

Ltac exec_facts :=
  repeat match goal with
         | H : String.eqb (Incoming _) TriggerName = _ |- _ =>
             progress (rewrite H in *)
         | H : fn_Steps _ = _ |- _ => progress (rewrite H in *)
         end.

Ltac exec_finish :=
  unfold Execute_post; intros s' f' out Hs Hf Hout;
  cbn [loaded_state loaded_function] in Hs, Hf;
  try discriminate Hs; try discriminate Hf;
  inversion Hs; inversion Hf; subst;
  unfold memo_key in Hout; cbn [Incoming IncomingGeneratorStep Outgoing] in *;
  exec_facts;
  try congruence;
  (split;
   [ cbn [calls_driver existsb is_driver_call ev_call orb];
     repeat (rewrite ?existsb_app; cbn [existsb is_driver_call ev_call orb]);
     rewrite ?calls_driver_app, ?calls_driver_fired; try reflexivity
   | intros Hv Htrig; cbn [validation_passed existsb orb] in Hv;
     try discriminate Hv;
     try (unfold stored_response; congruence);
     try (exfalso;
          match goal with
          | Hb : String.eqb (Incoming _) TriggerName = true |- _ =>
              apply String.eqb_eq in Hb;
              destruct (Htrig Hb) as [[step0 Hsteps] [payload Hp]];
              first [ congruence
                    | rewrite Hsteps in *; discriminate ]
          end) ]).

Lemma Execute_stored (id : Identifier) (item : Item) (edge : Edge) (stackIndex : Z) :
  wpt (Execute e id item edge stackIndex) (Execute_post item edge).
Proof.
  unfold Execute, extractTraceCtx. wp_exec.
  all: cbn [wpt bind call].
  all: try (eapply wpt_conseq; [| apply wpt_any]; cbn beta; intros ? ? _).
  all: exec_finish.
Qed.

End ExecuteStored.

(** C3, as amended.  When the run that [Execute] loaded holds a stored result
    under the step id it looks up (the edge's [incoming_generator_step] when
    that is not empty, else [incoming], which for the trigger edge is the
    function's first step), no runtime driver is called; and when in addition
    the run validator neither fails nor stops the run and the trigger edge
    resolves to the function's only step, [Execute] returns the stored result
    as the output of the driver response, with no error. *)
Theorem Execute_stored_result {X : Externals} (e : executor) {W : Type} (h : handler W)
  (w w' : W) (id : Identifier) (item : Item) (edge : Edge) (stackIndex : Z)
  (o : outcome (option DriverResponse * option error)) (tr : trace)
  (s : State) (f : Function) (out : json) :
  interp h (Execute e id item edge stackIndex) w = (o, w', tr) ->
  loaded_state tr = Some s ->
  loaded_function tr = Some f ->
  st_ActionID s (memo_key f edge) = Some out ->
  calls_driver tr = false /\
  (validation_passed tr = true -> trigger_resolves f item edge ->
   o = Returned (Some (stored_response out), None)).
Proof.
  intros Hrun Hs Hf Hout.
  exact (wpt_run h _ _ w w' o tr (Execute_stored e id item edge stackIndex) Hrun
                 s f out Hs Hf Hout).
Qed.

(** The step [step] of the sample run has completed: executing its edge
    again returns the stored output and calls no driver. *)
Lemma Execute_stored_result_witness :
  let r := interp (Sample.calm RunStatusRunning Sample.step_done)
                  (Execute (X := Sample.externals) Sample.exec Sample.ident Sample.item
                           Sample.edge 0) 0%nat in
  calls_driver (trace_of r) = false /\
  result_of r = Returned (Some (stored_response (JStr "done")), None).
Proof.
  intro r. destruct r as [[o w'] tr] eqn:Hrun. unfold trace_of, result_of. cbn [fst snd].
  assert (Htr : loaded_state tr = Some (Sample.state RunStatusRunning Sample.step_done) /\
                loaded_function tr = Some Sample.fn /\
                validation_passed tr = true).
  { vm_compute in Hrun. inversion Hrun. repeat split. }
  destruct Htr as (Hs & Hf & Hv).
  destruct (Execute_stored_result (X := Sample.externals) Sample.exec _ _ _ _ _ _ _ _ _
              _ _ (JStr "done") Hrun Hs Hf eq_refl) as [Hno Hout].
  split; [exact Hno |]. apply Hout; [exact Hv |].
  intro Htrigger. discriminate Htrigger.
Defined.

(** C3 as stated fails: the run below holds a stored result for the incoming
    step, but the validator stops the run and [Execute] returns neither a
    response nor an error. *)
Lemma Execute_stored_result_counterexample :
  st_ActionID (Sample.state RunStatusRunning Sample.step_done) (Incoming Sample.edge)
  = Some (JStr "done") /\
  IncomingGeneratorStep Sample.edge = "" /\
  result_of (interp (Sample.override Sample.validator_stops
                       (Sample.calm RunStatusRunning Sample.step_done))
                    (Execute (X := Sample.externals) Sample.exec Sample.ident Sample.item
                             Sample.edge 0) 0%nat)
  = Returned (None, None).
Proof. repeat split. Qed.

(** Identifiers are rendered by evaluation only, never while simplifying. *)
#[local] Arguments ULID_String : simpl never.
#[local] Arguments fmt_d : simpl never.

(** ** Footprints *)

Lemma calls_only_app (names : list string) (t1 t2 : trace) :
  calls_only names (t1 ++ t2)%list = calls_only names t1 && calls_only names t2.
Proof. apply forallb_app. Qed.

Lemma wpt_within_bind {A B : Type} (names : list string) (p : Prog A) (f : A -> Prog B) :
  wpt p (within names) -> (forall a, wpt (f a) (within names)) ->
  wpt (bind p f) (within names).
Proof.
  intros Hp Hf. apply wpt_bind. eapply wpt_conseq; [| exact Hp].
  intros t1 [a | m] H1; [| exact H1].
  eapply wpt_conseq; [| apply Hf]. intros t2 o H2.
  unfold within in *. rewrite calls_only_app, H1, H2. reflexivity.
Qed.

Lemma wpt_within_call {T : Type} (names : list string) (c : E T) :
  name_in names (call_name c) = true -> wpt (call c) (within names).
Proof. intros H x. unfold within, calls_only. cbn. rewrite H. reflexivity. Qed.

Lemma name_in_incl (s s' : list string) (n : string) :
  forallb (name_in s') s = true -> name_in s n = true -> name_in s' n = true.
Proof.
  unfold name_in at 2. intros Hs Hn. apply existsb_exists in Hn.
  destruct Hn as [x [Hin Heq]]. apply String.eqb_eq in Heq. subst x.
  rewrite forallb_forall in Hs. apply Hs, Hin.
Qed.

Lemma wpt_within_weaken {R : Type} (s s' : list string) (p : Prog R) :
  wpt p (within s) -> forallb (name_in s') s = true -> wpt p (within s').
Proof.
  intros Hp Hs. eapply wpt_conseq; [| exact Hp]. intros tr o H.
  unfold within, calls_only in *. rewrite forallb_forall in H |- *.
  intros ev Hev. eapply name_in_incl; [exact Hs | apply H, Hev].
Qed.

Lemma wpt_within_fire {X : Externals} (e : executor) (names : list string)
  (c : LifecycleCall) :
  name_in names (method_name c) = true -> wpt (fire e c) (within names).
Proof.
  intro H. apply wpt_fire. unfold within, calls_only, fired.
  induction (lifecycles e) as [| l ls IH]; [reflexivity |].
  cbn. rewrite H. exact IH.
Qed.

Lemma wpt_within_fire_retry {X : Externals} (names : list string) (ls : list Listener)
  (id : Identifier) (item : Item) (name : option string) :
  name_in names "OnStepScheduled" = true ->
  wpt (fire_retry ls id item name) (within names).
Proof.
  intro H. revert item. induction ls as [| l ls IH]; intro item; cbn.
  - reflexivity.
  - intros []. eapply wpt_conseq; [| apply IH]. intros tr o Htr.
    unfold within, calls_only in *. cbn. rewrite H. exact Htr.
Qed.

Create HintDb footprint.
Create HintDb counts.

Ltac fp_known :=
  eapply wpt_within_weaken; [solve [eauto with footprint nocore] | vm_compute; reflexivity].

Ltac fp_step :=
  match goal with
  | |- wpt (Ret _) _ => reflexivity
  | |- wpt (Panic _) _ => reflexivity
  | |- wpt (call _) (within _) => apply wpt_within_call; reflexivity
  | |- wpt (fire _ _) (within _) => apply wpt_within_fire; reflexivity
  | |- wpt (fire_retry _ _ _ _) (within _) => apply wpt_within_fire_retry; reflexivity
  | |- wpt (bind (bind _ _) _) _ => apply wpt_bind_assoc
  | |- wpt (bind (Ret _) _) _ => cbn [bind]
  | |- wpt (bind (Panic _) _) _ => cbn [bind]
  | |- wpt (bind (match ?x with _ => _ end) _) _ => destruct x eqn:?
  | |- wpt (bind (if ?b then _ else _) _) _ => destruct b eqn:?
  | |- wpt (match ?x with _ => _ end) _ => destruct x eqn:?
  | |- wpt (if ?b then _ else _) _ => destruct b eqn:?
  | |- wpt (bind _ _) (within _) => apply wpt_within_bind; [| intro]
  | |- wpt _ (within _) => fp_known
  end.

Ltac fp := repeat (cbv beta zeta; fp_step).

Section Footprints.
Context {X : Externals} (e : executor).

Lemma ulid_MustNew_footprint (ms : N) : wpt (ulid_MustNew ms) (within ["rand.Read"]).
Proof. unfold ulid_MustNew. fp. Qed.
Hint Resolve ulid_MustNew_footprint : footprint.

Lemma extractTraceCtx_footprint id item : wpt (extractTraceCtx id item) (within ["sm.Metadata"]).
Proof. unfold extractTraceCtx. fp. Qed.
Hint Resolve extractTraceCtx_footprint : footprint.

Lemma finish_events_footprint slug runID all resp now n evts :
  wpt (finish_events slug runID all resp now n evts) (within ["rand.Read"]).
Proof.
  revert n. induction evts as [| ev rest IH]; intro n; cbn [finish_events].
  - reflexivity.
  - pose proof (IH (S n)) as IHn. fp; try exact IHn.
Qed.
Hint Resolve finish_events_footprint : footprint.

Lemma runFinishHandler_footprint id s resp :
  wpt (runFinishHandler e id s resp) (within ["time.Now"; "rand.Read"; "finishHandler"]).
Proof. unfold runFinishHandler. fp. Qed.
Hint Resolve runFinishHandler_footprint : footprint.

Lemma Cancel_footprint runID r :
  wpt (Cancel e runID r)
      (within cancel_calls).
Proof. unfold Cancel. fp. Qed.

Hint Resolve Cancel_footprint : footprint.

Lemma Resume_footprint pause r :
  wpt (Resume e pause r)
      (within ["sm.LeasePause"; "sm.ConsumePause"; "uuid.New"; "time.Now";
               "queue.Enqueue"; "OnInvokeFunctionResumed"; "OnWaitForEventResumed"]).
Proof. unfold Resume. fp. Qed.
Hint Resolve Resume_footprint : footprint.

Lemma handleGeneratorStep_footprint gen item edge :
  wpt (handleGeneratorStep e gen item edge)
      (within ["sm.SaveResponse"; "uuid.New"; "time.Now"; "queue.Enqueue";
               "OnStepScheduled"]).
Proof. unfold handleGeneratorStep, enqueue. fp. Qed.

Lemma handleStepError_footprint gen item edge :
  wpt (handleStepError e gen item edge)
      (within ["sm.SaveResponse"; "uuid.New"; "time.Now"; "queue.Enqueue";
               "OnStepScheduled"]).
Proof. unfold handleStepError, enqueue. fp. Qed.

Lemma handleGeneratorStepPlanned_footprint gen item edge :
  wpt (handleGeneratorStepPlanned e gen item edge)
      (within ["uuid.New"; "time.Now"; "queue.Enqueue"; "OnStepScheduled"]).
Proof. unfold handleGeneratorStepPlanned, enqueue. fp. Qed.

Lemma handleGeneratorSleep_footprint gen item edge :
  wpt (handleGeneratorSleep e gen item edge)
      (within ["uuid.New"; "time.Now"; "queue.Enqueue"; "OnSleep"]).
Proof. unfold handleGeneratorSleep, enqueue. fp. Qed.

Lemma handleGeneratorInvokeFunction_footprint gen item edge :
  wpt (handleGeneratorInvokeFunction e gen item edge)
      (within ["InvokeFunctionOpts.Expires"; "time.Now"; "event.NewInvocationEvent";
               "telemetry.NewSpanID"; "sm.SavePause"; "queue.Enqueue";
               "handleSendingEvent"; "OnInvokeFunction"]).
Proof. unfold handleGeneratorInvokeFunction, enqueue. fp. Qed.

Lemma handleGeneratorWaitForEvent_footprint gen item edge :
  wpt (handleGeneratorWaitForEvent e gen item edge)
      (within ["WaitForEventOpts.Expires"; "sm.Load"; "sm.SavePause"; "queue.Enqueue";
               "OnWaitForEvent"]).
Proof. unfold handleGeneratorWaitForEvent, enqueue. fp. Qed.

Hint Resolve handleGeneratorStep_footprint handleStepError_footprint
  handleGeneratorStepPlanned_footprint handleGeneratorSleep_footprint
  handleGeneratorInvokeFunction_footprint handleGeneratorWaitForEvent_footprint
  : footprint.

Lemma HandleGenerator_footprint gen item :
  wpt (HandleGenerator e gen item) (within opcode_calls).
Proof. unfold HandleGenerator. fp. Qed.
Hint Resolve HandleGenerator_footprint : footprint.

Lemma handleGeneratorGroup_ops_footprint ops start_group item :
  wpt (handleGeneratorGroup_ops e ops start_group item) (within opcode_calls).
Proof.
  induction ops as [| [op |] rest IH]; cbn [handleGeneratorGroup_ops].
  - reflexivity.
  - fp; exact IH.
  - exact IH.
Qed.
Hint Resolve handleGeneratorGroup_ops_footprint : footprint.

Lemma handleGeneratorGroup_footprint group resp item :
  wpt (handleGeneratorGroup e group resp item) (within opcode_calls).
Proof. unfold handleGeneratorGroup. fp. Qed.
Hint Resolve handleGeneratorGroup_footprint : footprint.

Lemma handle_groups_footprint groups resp item :
  wpt (handle_groups e groups resp item) (within opcode_calls).
Proof.
  induction groups as [| g rest IH]; cbn [handle_groups].
  - reflexivity.
  - fp; exact IH.
Qed.
Hint Resolve handle_groups_footprint : footprint.

Lemma HandleGeneratorResponse_footprint resp item :
  wpt (HandleGeneratorResponse e resp item) (within generator_calls).
Proof. unfold HandleGeneratorResponse. fp. Qed.
Hint Resolve HandleGeneratorResponse_footprint : footprint.

Lemma finish_run_footprint id item resp ret :
  wpt (finish_run e id item resp ret)
      (within ["sm.Load"; "time.Now"; "rand.Read"; "finishHandler"; "OnFunctionFinished"]).
Proof. unfold finish_run. fp. Qed.
Hint Resolve finish_run_footprint : footprint.

Lemma HandleResponse_footprint id item edge resp :
  wpt (HandleResponse e id item edge resp) (within response_calls).
Proof. unfold HandleResponse. fp. Qed.
Hint Resolve HandleResponse_footprint : footprint.

Lemma executeDriverForStep_footprint id item step s edge stackIndex :
  wpt (executeDriverForStep e id item step s edge stackIndex) (within ["driver.Execute"]).
Proof. unfold executeDriverForStep. fp. Qed.
Hint Resolve executeDriverForStep_footprint : footprint.

Lemma run_footprint id item edge s stackIndex f :
  wpt (run e id item edge s stackIndex f) (within ["OnStepStarted"; "driver.Execute"]).
Proof. unfold run. fp. Qed.
Hint Resolve run_footprint : footprint.

Lemma naive_pause_footprint evt pause acc :
  wpt (naive_pause e evt pause acc) (within pause_calls).
Proof. unfold naive_pause. fp. Qed.
Hint Resolve naive_pause_footprint : footprint.

Lemma aggregate_pause_footprint evt pause acc :
  wpt (aggregate_pause e evt pause acc) (within pause_calls).
Proof. unfold aggregate_pause. fp. Qed.
Hint Resolve aggregate_pause_footprint : footprint.

Lemma naive_loop_footprint evt vals acc :
  wpt (naive_loop e evt vals acc) (within pause_calls).
Proof.
  revert acc. induction vals as [| v rest IH]; intro acc; cbn [naive_loop].
  - reflexivity.
  - fp; apply IH.
Qed.
Hint Resolve naive_loop_footprint : footprint.

Lemma aggregate_loop_footprint evt evals acc :
  wpt (aggregate_loop e evt evals acc) (within pause_calls).
Proof.
  revert acc. induction evals as [| [v |] rest IH]; intro acc; cbn [aggregate_loop].
  - reflexivity.
  - fp; apply IH.
  - apply IH.
Qed.
Hint Resolve aggregate_loop_footprint : footprint.

Lemma handlePausesAllNaively_footprint iter evt :
  wpt (handlePausesAllNaively e iter evt) (within pause_calls).
Proof. unfold handlePausesAllNaively, handlePausesAllNaively_from, naive_end. fp. Qed.
Hint Resolve handlePausesAllNaively_footprint : footprint.

Lemma handleAggregatePauses_footprint evt :
  wpt (handleAggregatePauses e evt) (within pause_calls).
Proof. unfold handleAggregatePauses. fp. Qed.
Hint Resolve handleAggregatePauses_footprint : footprint.

Lemma HandlePauses_footprint iter evt :
  wpt (HandlePauses e iter evt) (within pause_calls).
Proof. unfold HandlePauses. fp. Qed.

Lemma HandleInvokeFinish_footprint evt :
  wpt (HandleInvokeFinish e evt)
      (within ["sm.PauseByInvokeCorrelationID"; "time.Now"; "sm.DeletePause"; "sm.Exists";
               "sm.LeasePause"; "sm.ConsumePause"; "uuid.New"; "queue.Enqueue";
               "OnInvokeFunctionResumed"; "OnWaitForEventResumed"]).
Proof. unfold HandleInvokeFinish. fp. Qed.

Lemma Schedule_cancel_pauses_footprint req id eventID0 ev0 mapped0 cs :
  wpt (Schedule_cancel_pauses req id eventID0 ev0 mapped0 cs)
      (within ["uuid.New"; "time.Now"; "sm.SavePause"]).
Proof.
  induction cs as [| c rest IH]; cbn [Schedule_cancel_pauses].
  - reflexivity.
  - fp; exact IH.
Qed.
Hint Resolve Schedule_cancel_pauses_footprint : footprint.

Lemma Schedule_footprint req :
  wpt (Schedule e req) (within schedule_calls).
Proof. unfold Schedule, enqueue. fp. Qed.

End Footprints.

#[local] Hint Resolve
  ulid_MustNew_footprint
  extractTraceCtx_footprint
  finish_events_footprint
  runFinishHandler_footprint
  Cancel_footprint
  Resume_footprint
  handleGeneratorStep_footprint
  handleStepError_footprint
  handleGeneratorStepPlanned_footprint
  handleGeneratorSleep_footprint
  handleGeneratorInvokeFunction_footprint
  handleGeneratorWaitForEvent_footprint
  HandleGenerator_footprint
  handleGeneratorGroup_ops_footprint
  handleGeneratorGroup_footprint
  handle_groups_footprint
  HandleGeneratorResponse_footprint
  finish_run_footprint
  HandleResponse_footprint
  executeDriverForStep_footprint
  run_footprint
  naive_pause_footprint
  aggregate_pause_footprint
  naive_loop_footprint
  aggregate_loop_footprint
  handlePausesAllNaively_footprint
  handleAggregatePauses_footprint
  HandlePauses_footprint
  HandleInvokeFinish_footprint
  Schedule_cancel_pauses_footprint
  Schedule_footprint
  : footprint.

(** ** Counting calls *)

Lemma count_calls_app (n : string) (t1 t2 : trace) :
  count_calls n (t1 ++ t2)%list = (count_calls n t1 + count_calls n t2)%nat.
Proof. unfold count_calls. rewrite filter_app, length_app. reflexivity. Qed.

Lemma calls_only_count (names : list string) (n : string) (tr : trace) :
  calls_only names tr = true -> name_in names n = false -> count_calls n tr = 0%nat.
Proof.
  intros Htr Hn. induction tr as [| ev tr IH]; [reflexivity |].
  cbn in Htr. apply andb_prop in Htr. destruct Htr as [Hev Htr].
  unfold count_calls in *. cbn [filter].
  destruct (String.eqb (call_name (ev_call ev)) n) eqn:Heq.
  - apply String.eqb_eq in Heq. rewrite Heq in Hev. congruence.
  - apply IH, Htr.
Qed.

Lemma wpt_at_most_bind {A B : Type} (n : string) (a b : nat) (p : Prog A)
  (f : A -> Prog B) :
  wpt p (at_most n a) -> (forall x, wpt (f x) (at_most n b)) ->
  wpt (bind p f) (at_most n (a + b)).
Proof.
  intros Hp Hf. apply wpt_bind. eapply wpt_conseq; [| exact Hp].
  intros t1 [x | m] H1.
  - eapply wpt_conseq; [| apply Hf]. intros t2 o H2.
    unfold at_most in *. rewrite count_calls_app. lia.
  - unfold at_most in *. lia.
Qed.

Lemma wpt_within_at_most {R : Type} (names : list string) (n : string) (k : nat)
  (p : Prog R) :
  wpt p (within names) -> name_in names n = false -> wpt p (at_most n k).
Proof.
  intros Hp Hn. eapply wpt_conseq; [| exact Hp]. intros tr o H.
  unfold at_most. rewrite (calls_only_count names n tr H Hn). lia.
Qed.

Lemma wpt_call_footprint {T : Type} (c : E T) : wpt (call c) (within [call_name c]).
Proof. apply wpt_within_call. cbn. rewrite String.eqb_refl. reflexivity. Qed.

Lemma wpt_fire_footprint {X : Externals} (e : executor) (c : LifecycleCall) :
  wpt (fire e c) (within [method_name c]).
Proof. apply wpt_within_fire. cbn. rewrite String.eqb_refl. reflexivity. Qed.

Lemma wpt_call_at_most {T : Type} (n : string) (c : E T) : wpt (call c) (at_most n 1).
Proof.
  intro x. unfold at_most, count_calls. cbn.
  destruct (String.eqb (call_name c) n); cbn; lia.
Qed.

#[local] Hint Resolve wpt_call_footprint wpt_fire_footprint : footprint.

Ltac quiet :=
  eapply wpt_within_at_most;
  [solve [eauto with footprint nocore] | vm_compute; reflexivity].

Ltac cnt_step :=
  match goal with
  | |- wpt (Ret _) (at_most _ _) => apply Nat.le_0_l
  | |- wpt (Panic _) (at_most _ _) => apply Nat.le_0_l
  | |- wpt (bind (bind _ _) _) _ => apply wpt_bind_assoc
  | |- wpt (bind (Ret _) _) _ => cbn [bind]
  | |- wpt (bind (Panic _) _) _ => cbn [bind]
  | |- wpt (bind (match ?x with _ => _ end) _) _ => destruct x eqn:?
  | |- wpt (bind (if ?b then _ else _) _) _ => destruct b eqn:?
  | |- wpt (match ?x with _ => _ end) _ => destruct x eqn:?
  | |- wpt (if ?b then _ else _) _ => destruct b eqn:?
  | |- wpt (bind _ _) (at_most ?n ?k) =>
      first [ apply (wpt_at_most_bind n 0 k); [quiet | intro]
            | apply (wpt_at_most_bind n 1 0);
              [solve [eauto with counts nocore] | intro] ]
  | |- wpt _ (at_most _ _) => first [quiet | solve [eauto with counts nocore]]
  end.

Ltac cnt := repeat (cbv beta zeta; cnt_step).

Section DriverCalls.
Context {X : Externals} (e : executor).

Lemma executeDriverForStep_once id item step s edge stackIndex :
  wpt (executeDriverForStep e id item step s edge stackIndex) (at_most "driver.Execute" 1).
Proof.
  unfold executeDriverForStep.
  destruct (negb _); [apply Nat.le_0_l |].
  apply (wpt_at_most_bind "driver.Execute" 1 0); [apply wpt_call_at_most | intro x].
  cnt.
Qed.
Hint Resolve executeDriverForStep_once : counts.

Lemma run_once id item edge s stackIndex f :
  wpt (run e id item edge s stackIndex f) (at_most "driver.Execute" 1).
Proof. unfold run. cnt. Qed.
Hint Resolve run_once : counts.

Lemma Execute_once id item edge stackIndex :
  wpt (Execute e id item edge stackIndex) (at_most "driver.Execute" 1).
Proof. unfold Execute. cnt. Qed.

End DriverCalls.

(** ** What a call never does *)

(** X1.  Whatever the collaborators answer, [Cancel] talks only to the
    methods of [cancel_calls]: it loads the run, marks it cancelled, deletes
    its state, runs the finish handler and notifies [OnFunctionCancelled].
    It never enqueues a queue item, never leases, consumes or deletes a pause
    and never calls a runtime driver. *)
Theorem Cancel_calls {X : Externals} (e : executor) {W : Type} (h : handler W) (w : W)
  (runID : ULID) (r : CancelRequest) :
  calls_only cancel_calls (trace_of (interp h (Cancel e runID r) w)) = true.
Proof. exact (wpt_sound h _ _ w (Cancel_footprint e runID r)). Qed.

(** X2.  Whatever the collaborators answer, matching an event against pauses
    with [HandlePauses] talks only to the methods of [pause_calls]: the
    clock, the semaphore and the scheduler, the aggregator, the pause store
    ([DeletePause], [LeasePause], [ConsumePause]), [Exists], and what
    [Cancel] and [Resume] call, which includes [sm.Cancel] and [sm.Delete]
    on the run of a cancellation pause and [queue.Enqueue].  So it never
    calls a runtime driver, never creates a run, never saves a pause or a
    step output, and never calls [SetStatus] or [UpdateMetadata]. *)
Theorem HandlePauses_calls {X : Externals} (e : executor) {W : Type} (h : handler W)
  (w : W) (iter : PauseIterator) (evt : TrackedEvent) :
  let tr := trace_of (interp h (HandlePauses e iter evt) w) in
  calls_only pause_calls tr = true /\
  Forall (fun n => count_calls n tr = 0%nat)
         ["driver.Execute"; "sm.New"; "sm.SavePause"; "sm.SaveResponse"; "sm.SetStatus";
          "sm.UpdateMetadata"].
Proof.
  intro tr.
  assert (Hcalls : calls_only pause_calls tr = true)
    by exact (wpt_sound h _ _ w (HandlePauses_footprint e iter evt)).
  split; [exact Hcalls |].
  repeat constructor; apply (calls_only_count pause_calls _ tr Hcalls); reflexivity.
Qed.

(** X3.  Whatever the collaborators answer, [HandleResponse] talks only to
    the methods of [response_calls]: it never calls a runtime driver, never
    creates, cancels or deletes a run and never leases, consumes or deletes a
    pause. *)
Theorem HandleResponse_calls {X : Externals} (e : executor) {W : Type} (h : handler W)
  (w : W) (id : Identifier) (item : Item) (edge : Edge) (resp : DriverResponse) :
  calls_only response_calls (trace_of (interp h (HandleResponse e id item edge resp) w))
  = true.
Proof. exact (wpt_sound h _ _ w (HandleResponse_footprint e id item edge resp)). Qed.

(** X4.  One call of [Execute] calls a runtime driver at most once, whatever
    the store, the validator and the driver answer. *)
Theorem Execute_driver_at_most_once {X : Externals} (e : executor) {W : Type}
  (h : handler W) (w : W) (id : Identifier) (item : Item) (edge : Edge) (stackIndex : Z) :
  (count_calls "driver.Execute" (trace_of (interp h (Execute e id item edge stackIndex) w))
   <= 1)%nat.
Proof. exact (wpt_sound h _ _ w (Execute_once e id item edge stackIndex)). Qed.

Section Started.
Context {X : Externals} (e : executor).

Lemma Execute_started (id : Identifier) (item : Item) (edge : Edge) (stackIndex : Z) :
  it_Attempt item <> 0 \/ Incoming edge <> TriggerName ->
  wpt (Execute e id item edge stackIndex) (at_most "OnFunctionStarted" 0).
Proof.
  intro Hnot. unfold Execute. cnt.
  all: exfalso.
  all: match goal with
       | H : (Incoming _ =? TriggerName)%string = true |- _ => apply String.eqb_eq in H
       end.
  all: match goal with
       | H : (it_Attempt _ =? 0) = true |- _ => apply Z.eqb_eq in H; cbn in H
       end.
  all: destruct Hnot as [Hn | Hn]; [apply Hn; assumption | apply Hn; assumption].
Qed.

End Started.

(** X5.  [Execute] notifies [OnFunctionStarted] only on the first attempt of
    the trigger edge: for a queue item whose attempt is not 0, or an edge
    that is not the trigger, no listener is told that the function
    started. *)
Theorem Execute_started_on_first_attempt {X : Externals} (e : executor) {W : Type}
  (h : handler W) (w : W) (id : Identifier) (item : Item) (edge : Edge) (stackIndex : Z) :
  it_Attempt item <> 0 \/ Incoming edge <> TriggerName ->
  count_calls "OnFunctionStarted" (trace_of (interp h (Execute e id item edge stackIndex) w))
  = 0%nat.
Proof.
  intro Hnot.
  pose proof (wpt_sound h _ _ w (Execute_started e id item edge stackIndex Hnot)) as H.
  unfold at_most in H. lia.
Qed.

(** The second attempt of the trigger edge of the sample run. *)
Lemma Execute_started_on_first_attempt_witness :
  count_calls "OnFunctionStarted"
    (trace_of (interp (Sample.calm RunStatusRunning Sample.no_outputs)
                 (Execute (X := Sample.externals) Sample.exec Sample.ident
                          Cases.second_attempt Cases.trigger_edge 0) 0%nat))
  = 0%nat.
Proof.
  apply (Execute_started_on_first_attempt (X := Sample.externals)).
  left. cbn. lia.
Defined.

(** ** Pauses: the error of the naive strategy *)

Section NaiveError.
Context {X : Externals} (e : executor).

Lemma handlePausesAllNaively_error (iter : PauseIterator) (evt : TrackedEvent) :
  wpt (handlePausesAllNaively e iter evt)
      (fun _ o => forall res, o = Returned (res, None) ->
                              iter_Error iter = Some ContextCanceled).
Proof.
  unfold handlePausesAllNaively, handlePausesAllNaively_from.
  destruct (negb (has_queue e) || negb (has_sm e)); [cbn; intros; discriminate |].
  apply wpt_bind_any; [| intros; discriminate].
  intros t1 [[[res goerr] started] | [res err]]; cbn; intros res' Heq; [| discriminate].
  destruct (iter_Error iter) as [ie |] eqn:Hie.
  - destruct ie; cbn in Heq; try (destruct goerr; discriminate). reflexivity.
  - cbn in Heq. destruct goerr; discriminate.
Qed.

End NaiveError.

(** X6.  [handlePausesAllNaively] returns a nil error only when the iterator
    ended with [context.Canceled]: an iterator that ended without an error
    (or with another one) makes it return a "pause iteration error", also
    when every pause was handled. *)
Theorem handlePausesAllNaively_nil_error {X : Externals} (e : executor) {W : Type}
  (h : handler W) (w w' : W) (iter : PauseIterator) (evt : TrackedEvent)
  (res : HandlePauseResult) (tr : trace) :
  interp h (handlePausesAllNaively e iter evt) w = (Returned (res, None), w', tr) ->
  iter_Error iter = Some ContextCanceled.
Proof.
  intro Hrun.
  exact (wpt_run h _ _ w w' _ tr (handlePausesAllNaively_error e iter evt) Hrun res eq_refl).
Qed.

(** An iterator over the live sample pause whose context was cancelled. *)
Lemma handlePausesAllNaively_nil_error_witness :
  iter_Error Cases.cancelled_iterator = Some ContextCanceled.
Proof.
  eapply (handlePausesAllNaively_nil_error (X := Sample.externals) Sample.exec
            (Sample.calm RunStatusRunning Sample.no_outputs) 0%nat _
            Cases.cancelled_iterator Sample.later).
  vm_compute. reflexivity.
Defined.

(** X7.  [HandlePauses] picks the strategy by the iterator's count: up to 10
    pauses it runs the naive strategy and drops its error, returning the
    counters with a nil error; above 10 it is [handleAggregatePauses], error
    included. *)
Theorem HandlePauses_strategy {X : Externals} (e : executor) {W : Type} (h : handler W)
  (w : W) (iter : PauseIterator) (evt : TrackedEvent) :
  (iter_Count iter <= 10 ->
   interp h (HandlePauses e iter evt) w =
   let '(o, w', tr) := interp h (handlePausesAllNaively e iter evt) w in
   (match o with
    | Returned r => Returned (fst r, None)
    | Panicked m => Panicked m
    end, w', tr)) /\
  (10 < iter_Count iter ->
   interp h (HandlePauses e iter evt) w = interp h (handleAggregatePauses e evt) w).
Proof.
  unfold HandlePauses. split; intro Hc.
  - replace (10 <? iter_Count iter) with false by (symmetry; apply Z.ltb_ge; exact Hc).
    rewrite interp_bind.
    destruct (interp h (handlePausesAllNaively e iter evt) w) as [[[r | m] w'] tr].
    + cbn. rewrite List.app_nil_r. reflexivity.
    + reflexivity.
  - replace (10 <? iter_Count iter) with true by (symmetry; apply Z.ltb_lt; exact Hc).
    reflexivity.
Qed.

(** The sample iterator counts three pauses; its naive run ends with a
    "pause iteration error" that [HandlePauses] does not return. *)
Lemma HandlePauses_strategy_witness :
  result_of (interp (Sample.calm RunStatusRunning Sample.no_outputs)
               (HandlePauses (X := Sample.externals) Sample.exec Sample.iterator
                             Sample.later) 0%nat)
  = Returned ((3, 1), None) /\
  result_of (interp (Sample.calm RunStatusRunning Sample.no_outputs)
               (handlePausesAllNaively (X := Sample.externals) Sample.exec
                                       Sample.iterator Sample.later) 0%nat)
  = Returned ((3, 1), Some (ErrJoin1 (ErrorfNil "pause iteration error"))).
Proof.
  destruct (HandlePauses_strategy (X := Sample.externals) Sample.exec
              (Sample.calm RunStatusRunning Sample.no_outputs) 0%nat
              Sample.iterator Sample.later) as [Hsmall _].
  rewrite Hsmall; [| cbn; lia]. vm_compute. split; reflexivity.
Defined.

(** ** Running a step *)

Section DriverResponse.
Context {X : Externals} (e : executor).

Lemma executeDriverForStep_post (id : Identifier) (item : Item) (step : Step) (s : State)
  (edge : Edge) (stackIndex : Z) :
  wpt (executeDriverForStep e id item step s edge stackIndex)
      (fun tr o =>
         forall resp err, o = Returned (resp, err) ->
           match resp with
           | None =>
               existsb (String.eqb (Step_Driver step)) (runtimeDrivers e) = false /\
               tr = [] /\ err <> None
           | Some r =>
               (err <> None -> r_Err r <> None) /\
               (r_Err r <> None ->
                ShouldRetry (it_Attempt item) (Step_RetryCount step + 1) = false ->
                r_NoRetry r = true) /\
               (step_ID (r_Step r) = "" -> step_ID step = "") /\
               (forall g, r_Generator r = [Some g] -> gen_Op g = OpcodeStepError ->
                  ShouldRetry (it_Attempt item) (Step_RetryCount step + 1) = false ->
                  r_NoRetry r = true)
           end).
Proof.
  unfold executeDriverForStep.
  destruct (existsb (String.eqb (Step_Driver step)) (runtimeDrivers e)) eqn:Hreg; cbn.
  - intros [[r |] err].
    all: cbv zeta.
    all: repeat match goal with
                | |- context [match ?x with _ => _ end] => destruct x eqn:?
                end.
    all: cbn.
    all: intros resp err' Heq; try discriminate Heq.
    all: inversion Heq; subst; clear Heq.
    all: cbn in *.
    all: repeat split; intros; subst; try congruence; try discriminate.
    all: try (apply String.eqb_eq; assumption).
    all: repeat match goal with
                | H : r_Generator ?r = _, H' : r_Generator ?r = [Some _] |- _ =>
                    rewrite H in H'; first [discriminate H' | inversion H'; subst; clear H']
                | H : (?a =? ?b)%string = false, H' : ?a = ?b |- _ =>
                    rewrite H' in H; rewrite String.eqb_refl in H; discriminate H
                | H : ShouldRetry _ _ = false |- _ => rewrite H in *
                | H : r_Err _ = _ |- _ => rewrite H in *
                | H : None <> None |- _ => exfalso; apply H; reflexivity
                end.
    all: cbn in *; try congruence; try discriminate.
    all: try match goal with
             | H : r_Err ?r <> None |- _ =>
                 destruct (r_Err r); [cbn in *; discriminate | exfalso; apply H; reflexivity]
             end.
  - intros resp err Heq. inversion Heq; subst. repeat split. discriminate.
Qed.

End DriverResponse.

Section RunStep.
Context {X : Externals} (e : executor).

Lemma run_post (id : Identifier) (item : Item) (edge : Edge) (s : State) (stackIndex : Z)
  (f : Function) :
  wpt (run e id item edge s stackIndex f)
      (fun tr o =>
         forall resp err, o = Returned (resp, err) ->
           match resp with
           | None => tr = [] /\ err <> None /\
                     find (fun st => String.eqb (step_ID st) (Incoming edge)) (fn_Steps f) = None
           | Some r => err = None <-> r_Err r = None
           end).
Proof.
  unfold run.
  destruct (find _ (fn_Steps f)) as [step |] eqn:Hfind.
  - apply wpt_bind_any; [| intros; discriminate]. intros t1 [].
    apply wpt_bind. eapply wpt_conseq; [| apply executeDriverForStep_post].
    cbn beta. intros t2 [[[r |] err] | m] Hpost; cbn.
    + destruct (Hpost _ _ eq_refl) as (Herr & _).
      destruct (r_Err r) as [msg |] eqn:Hr; destruct err as [er |]; cbn;
        intros resp err' Heq; inversion Heq; subst; rewrite ?Hr;
        split; intro; try congruence; try discriminate.
      exfalso. apply Herr; [discriminate | reflexivity].
    + intros; discriminate.
    + intros; discriminate.
  - cbn. intros resp err Heq. inversion Heq; subst. repeat split. discriminate.
Qed.

End RunStep.

(** X8.  The response [executeDriverForStep] returns is normalised: when the
    driver failed the response carries an error; a response that carries an
    error on the last attempt allowed by the step's retries has [NoRetry]
    set, and so has a lone [OpcodeStepError] on that attempt; the step of
    the response is set when the step has an id. *)
Theorem executeDriverForStep_normalises {X : Externals} (e : executor) {W : Type}
  (h : handler W) (w w' : W) (id : Identifier) (item : Item) (step : Step) (s : State)
  (edge : Edge) (stackIndex : Z) (r : DriverResponse) (err : option error) (tr : trace) :
  interp h (executeDriverForStep e id item step s edge stackIndex) w
  = (Returned (Some r, err), w', tr) ->
  (err <> None -> r_Err r <> None) /\
  (r_Err r <> None ->
   ShouldRetry (it_Attempt item) (Step_RetryCount step + 1) = false ->
   r_NoRetry r = true) /\
  (step_ID (r_Step r) = "" -> step_ID step = "") /\
  (forall g, r_Generator r = [Some g] -> gen_Op g = OpcodeStepError ->
     ShouldRetry (it_Attempt item) (Step_RetryCount step + 1) = false ->
     r_NoRetry r = true).
Proof.
  intro Hrun.
  exact (wpt_run h _ _ w w' _ tr
           (executeDriverForStep_post e id item step s edge stackIndex) Hrun
           (Some r) err eq_refl).
Qed.

(** The sample driver answers with an empty response, which is given the
    step. *)
Lemma executeDriverForStep_normalises_witness :
  let r := set_Step zero_DriverResponse Cases.step in
  (@None error <> None -> r_Err r <> None) /\
  (r_Err r <> None ->
   @ShouldRetry Sample.externals (it_Attempt Sample.item)
               (@Step_RetryCount Sample.externals Cases.step + 1) = false ->
   r_NoRetry r = true) /\
  (step_ID (r_Step r) = "" -> step_ID Cases.step = "") /\
  (forall g, r_Generator r = [Some g] -> gen_Op g = OpcodeStepError ->
     @ShouldRetry Sample.externals (it_Attempt Sample.item)
                 (@Step_RetryCount Sample.externals Cases.step + 1) = false ->
     r_NoRetry r = true).
Proof.
  intro r.
  eapply (executeDriverForStep_normalises (X := Sample.externals) Sample.exec
            (Sample.calm RunStatusRunning Sample.no_outputs) 0%nat _ Sample.ident
            Sample.item Cases.step (Sample.state RunStatusRunning Sample.no_outputs)
            Sample.edge 0 r None).
  vm_compute. reflexivity.
Defined.

(** X9.  [run] returns an error exactly when the response it returns carries
    one: a driver error is copied into the response, and a response error is
    returned as an error. *)
Theorem run_error_iff_response_error {X : Externals} (e : executor) {W : Type}
  (h : handler W) (w w' : W) (id : Identifier) (item : Item) (edge : Edge) (s : State)
  (stackIndex : Z) (f : Function) (r : DriverResponse) (err : option error) (tr : trace) :
  interp h (run e id item edge s stackIndex f) w = (Returned (Some r, err), w', tr) ->
  (err = None <-> r_Err r = None).
Proof.
  intro Hrun.
  exact (wpt_run h _ _ w w' _ tr (run_post e id item edge s stackIndex f) Hrun
                 (Some r) err eq_refl).
Qed.

Lemma run_error_iff_response_error_witness :
  @None error = None <-> r_Err (set_Step zero_DriverResponse Cases.step) = None.
Proof.
  eapply (run_error_iff_response_error (X := Sample.externals) Sample.exec
            (Sample.calm RunStatusRunning Sample.no_outputs) 0%nat _ Sample.ident
            Sample.item Sample.edge (Sample.state RunStatusRunning Sample.no_outputs)
            0 Sample.fn).
  vm_compute. reflexivity.
Defined.

(** X10.  When no runtime driver is registered for the step's driver, [run]
    does not return the [ErrNoRuntimeDriver] error of [executeDriverForStep]:
    it reads [response.Err] of the nil response and panics, after the
    listeners were told that the step started. *)
Theorem run_unregistered_driver_panics {X : Externals} (e : executor) {W : Type}
  (h : handler W) (w : W) (id : Identifier) (item : Item) (edge : Edge) (s : State)
  (stackIndex : Z) (f : Function) (step : Step) :
  find (fun st => String.eqb (step_ID st) (Incoming edge)) (fn_Steps f) = Some step ->
  existsb (String.eqb (Step_Driver step)) (runtimeDrivers e) = false ->
  exists w',
    interp h (run e id item edge s stackIndex f) w =
    (Panicked "invalid memory address or nil pointer dereference", w',
     fired (lifecycles e) (OnStepStarted id item edge step s)).
Proof.
  intros Hfind Hreg. unfold run. rewrite Hfind. rewrite interp_bind.
  destruct (interp_fire h e (OnStepStarted id item edge step s) w) as [w' Hfire].
  rewrite Hfire. unfold executeDriverForStep. rewrite Hreg. cbn.
  rewrite List.app_nil_r. exists w'. reflexivity.
Qed.

(** The sample step on an executor that has no driver. *)
Lemma run_unregistered_driver_panics_witness :
  exists w',
    interp (Sample.calm RunStatusRunning Sample.no_outputs)
           (run (X := Sample.externals) Cases.no_drivers Sample.ident Sample.item
                Sample.edge (Sample.state RunStatusRunning Sample.no_outputs) 0 Sample.fn)
           0%nat =
    (Panicked "invalid memory address or nil pointer dereference", w',
     fired (lifecycles Cases.no_drivers)
           (OnStepStarted Sample.ident Sample.item Sample.edge Cases.step
                          (Sample.state RunStatusRunning Sample.no_outputs))).
Proof.
  apply (run_unregistered_driver_panics (X := Sample.externals)); vm_compute; reflexivity.
Defined.

(** ** Values read off a trace *)


Lemma wpt_all_of_bind {A B C : Type} (f : event -> list C) (Q : C -> Prop)
  (p : Prog A) (k : A -> Prog B) :
  wpt p (all_of f Q) -> (forall a, wpt (k a) (all_of f Q)) -> wpt (bind p k) (all_of f Q).
Proof.
  intros Hp Hk. apply wpt_bind. eapply wpt_conseq; [| exact Hp].
  intros t1 [a | m] H1; [| exact H1].
  eapply wpt_conseq; [| apply Hk]. intros t2 o H2.
  unfold all_of in *. rewrite flat_map_app. apply Forall_app. split; assumption.
Qed.

Lemma calls_only_flat_map {C : Type} (names : list string) (f : event -> list C)
  (tr : trace) :
  (forall ev, name_in names (call_name (ev_call ev)) = true -> f ev = []) ->
  calls_only names tr = true -> flat_map f tr = [].
Proof.
  intros Hf Htr. induction tr as [| ev tr IH]; [reflexivity |].
  cbn in Htr. apply andb_prop in Htr. destruct Htr as [Hev Htr].
  cbn. rewrite (Hf ev Hev), (IH Htr). reflexivity.
Qed.

Lemma wpt_within_all_of {R C : Type} (names : list string) (f : event -> list C)
  (Q : C -> Prop) (p : Prog R) :
  wpt p (within names) ->
  (forall ev, name_in names (call_name (ev_call ev)) = true -> f ev = []) ->
  wpt p (all_of f Q).
Proof.
  intros Hp Hf. eapply wpt_conseq; [| exact Hp]. intros tr o H.
  unfold all_of. rewrite (calls_only_flat_map names f tr Hf H). constructor.
Qed.

(** A sub-program none of whose calls [f] reads anything off. *)
Ltac silent :=
  eapply wpt_within_all_of;
  [ solve [eauto with footprint nocore]
  | intros [? c ?]; destruct c; cbn; intro; first [reflexivity | discriminate] ].

Create HintDb projections.

Ltac proj_step :=
  match goal with
  | |- wpt (Ret _) (all_of _ _) => apply Forall_nil
  | |- wpt (Panic _) (all_of _ _) => apply Forall_nil
  | |- wpt (bind (bind _ _) _) _ => apply wpt_bind_assoc
  | |- wpt (bind (Ret _) _) _ => cbn [bind]
  | |- wpt (bind (Panic _) _) _ => cbn [bind]
  | |- wpt (bind (match ?x with _ => _ end) _) _ => destruct x eqn:?
  | |- wpt (bind (if ?b then _ else _) _) _ => destruct b eqn:?
  | |- wpt (match ?x with _ => _ end) _ => destruct x eqn:?
  | |- wpt (if ?b then _ else _) _ => destruct b eqn:?
  | |- wpt (bind _ _) (all_of _ _) =>
      apply wpt_all_of_bind;
      [first [silent | solve [eauto with projections nocore] | idtac] | intro]
  | |- wpt _ (all_of _ _) => first [silent | solve [eauto with projections nocore]]
  end.

Ltac proj := repeat (cbv beta zeta; proj_step).

Lemma wpt_and {R : Type} (p : Prog R) (Q1 Q2 : trace -> outcome R -> Prop) :
  wpt p Q1 -> wpt p Q2 -> wpt p (fun tr o => Q1 tr o /\ Q2 tr o).
Proof.
  revert Q1 Q2. induction p as [a | m | T c k IH]; intros Q1 Q2 H1 H2; cbn in *.
  - split; assumption.
  - split; assumption.
  - intro x. apply IH; [apply H1 | apply H2].
Qed.

Lemma prefix_refl (s : string) : prefix s s = true.
Proof.
  induction s as [| c s IH]; cbn; [reflexivity |].
  destruct (ascii_dec c c) as [_ | Hc]; [exact IH | exfalso; apply Hc; reflexivity].
Qed.

Lemma strings_Contains_refl (s : string) : strings_Contains s s = true.
Proof.
  destruct s as [| c s]; [reflexivity |].
  cbn [strings_Contains]. rewrite prefix_refl. reflexivity.
Qed.

Section FinishEvents.
Context {X : Externals} (e : executor).

Lemma functionFinishedData_Map_event (slug : string) (runID : ULID) (evt : jmap)
  (events : list jmap) (r : DriverResponse) (invokeID : option string) :
  jmap_get "event" (functionFinishedData_Map slug runID evt events r invokeID)
  = Some (JObj evt).
Proof. reflexivity. Qed.

Lemma finish_events_post (s : State) (runID : ULID) (all : list jmap)
  (resp : DriverResponse) (now : Time) (n : nat) (evts : list jmap) :
  incl evts (st_Events s) ->
  wpt (finish_events (fn_Slug (st_Function s)) runID all resp now n evts)
      (fun _ o => forall evs, o = Returned evs -> Forall (finish_event_ok s resp) evs).
Proof.
  revert n. induction evts as [| runEvt rest IH]; intros n Hincl; cbn [finish_events].
  - intros evs Heq. inversion Heq. constructor.
  - assert (Hrest : incl rest (st_Events s)) by (intros x Hx; apply Hincl; right; exact Hx).
    assert (Hin : In runEvt (st_Events s)) by (apply Hincl; left; reflexivity).
    destruct (is_finish_event runEvt) eqn:Hfin; [apply IH, Hrest |].
    destruct (negb (isSome (correlationID runEvt)) && Nat.ltb 0 n); [apply IH, Hrest |].
    assert (Hsrc : forall name ts id_,
               exists runEvt', In runEvt' (st_Events s) /\ is_finish_event runEvt' = false /\
                 jmap_get "event"
                   (evt_Data (mkEvent id_ name
                      (functionFinishedData_Map (fn_Slug (st_Function s)) runID runEvt all
                         resp (correlationID runEvt)) ts)) = Some (JObj runEvt')).
    { intros. exists runEvt. repeat split; assumption. }
    unfold ulid_MustNew.
    repeat (cbn [wpt bind call];
            match goal with
            | |- wpt (bind (finish_events _ _ _ _ _ _ _) _) _ => fail 1
            | _ => wp_step
            end).
    all: cbn [wpt bind call].
    all: try (intros; discriminate).
    all: apply wpt_bind; eapply wpt_conseq; [| apply (IH (S n) Hrest)]; cbn beta.
    all: intros tr [more | m] Hmore; cbn [wpt bind call app];
         intros evs Heq; try discriminate Heq.
    all: inversion Heq; subst; clear Heq.
    all: specialize (Hmore _ eq_refl).
    all: repeat (apply Forall_cons); try exact Hmore.
    all: split; try apply Hsrc.
    all: try (left; reflexivity).
    all: right; split; [reflexivity |]; eexists; split; [eassumption |].
    all: match goal with
         | H : negb ?b = true |- ?b = false => apply negb_true_iff in H; exact H
         end.
Qed.

Lemma runFinishHandler_post (id : Identifier) (s : State) (resp : DriverResponse) :
  wpt (runFinishHandler e id s resp)
      (all_of finish_events_of (Forall (finish_event_ok s resp))).
Proof.
  unfold runFinishHandler. destruct (negb (has_finishHandler e)); [apply Forall_nil |].
  apply wpt_all_of_bind; [silent | intro now].
  apply wpt_bind.
  eapply wpt_conseq;
    [| apply (wpt_and _ _ _
                (finish_events_footprint (fn_Slug (st_Function s)) (id_RunID id)
                   (st_Events s) resp now 0 (st_Events s))
                (finish_events_post s (id_RunID id) (st_Events s) resp now 0 (st_Events s)
                   (incl_refl _)))].
  cbn beta. intros t1 [events | m] [Hquiet Hok].
  - intro x. cbn [wpt call]. unfold all_of. rewrite flat_map_app.
    apply Forall_app. split.
    + rewrite (calls_only_flat_map ["rand.Read"] finish_events_of t1); [constructor | | exact Hquiet].
      intros [? c ?]; destruct c; cbn; intro; first [reflexivity | discriminate].
    + cbn. constructor; [| constructor]. apply Hok. reflexivity.
  - unfold all_of.
    rewrite (calls_only_flat_map ["rand.Read"] finish_events_of t1); [constructor | | exact Hquiet].
    intros [? c ?]; destruct c; cbn; intro; first [reflexivity | discriminate].
Qed.

Lemma runFinishHandler_cancelled (id : Identifier) (s : State) :
  wpt (runFinishHandler e id s
         (set_Err zero_DriverResponse (Some (error_Error ErrFunctionCancelled))))
      (all_of finish_events_of (Forall (fun ev => evt_Name ev = FnFinishedName))).
Proof.
  eapply wpt_conseq; [| apply runFinishHandler_post]. cbn beta.
  intros tr o H. unfold all_of in *. eapply Forall_impl; [| exact H].
  intros evs Hevs. eapply Forall_impl; [| exact Hevs].
  intros ev [[Hname | (_ & msg & Hmsg & Hno)] _]; [exact Hname |].
  cbn in Hmsg. inversion Hmsg; subst. rewrite strings_Contains_refl in Hno. discriminate.
Qed.
Hint Resolve runFinishHandler_cancelled : projections.

Lemma Cancel_finished (runID : ULID) (r : CancelRequest) :
  wpt (Cancel e runID r)
      (all_of finish_events_of (Forall (fun ev => evt_Name ev = FnFinishedName))).
Proof. unfold Cancel. proj. Qed.

End FinishEvents.

(** X11.  Every event [runFinishHandler] hands to the finish handler is named
    [FnFinishedName], or [FnFailedName] when the response has an error that
    does not mention a cancellation; and it is about one of the run's events
    that is not itself a function-finished or function-failed event, so the
    finish events of a run never trigger finish events of their own. *)
Theorem runFinishHandler_events {X : Externals} (e : executor) {W : Type}
  (h : handler W) (w : W) (id : Identifier) (s : State) (resp : DriverResponse) :
  Forall (Forall (finish_event_ok s resp))
         (finish_handler_events (trace_of (interp h (runFinishHandler e id s resp) w))).
Proof. exact (wpt_sound h _ _ w (runFinishHandler_post e id s resp)). Qed.

(** X12.  Whatever the collaborators answer, the events [Cancel] hands to the
    finish handler are all named [FnFinishedName]: cancelling a run never
    sends the legacy function-failed event. *)
Theorem Cancel_sends_no_failed_event {X : Externals} (e : executor) {W : Type}
  (h : handler W) (w : W) (runID : ULID) (r : CancelRequest) :
  Forall (Forall (fun ev => evt_Name ev = FnFinishedName))
         (finish_handler_events (trace_of (interp h (Cancel e runID r) w))).
Proof. exact (wpt_sound h _ _ w (Cancel_finished e runID r)). Qed.

(** ** Scheduling: the queue *)

Lemma enqueued_app (t1 t2 : trace) :
  enqueued (t1 ++ t2)%list = (enqueued t1 ++ enqueued t2)%list.
Proof. apply flat_map_app. Qed.

Lemma enqueued_fired (ls : list Listener) (c : LifecycleCall) : enqueued (fired ls c) = [].
Proof. induction ls; simpl; auto. Qed.

Lemma enqueued_quiet (names : list string) (tr : trace) :
  name_in names "queue.Enqueue" = false -> calls_only names tr = true -> enqueued tr = [].
Proof.
  intros Hn Htr. apply (calls_only_flat_map names enqueued_by tr); [| exact Htr].
  intros [T c x] Hc. destruct c; try reflexivity.
  cbn in Hc. congruence.
Qed.

Ltac enq_simpl :=
  repeat (cbn [enqueued flat_map enqueued_by ev_call app];
          repeat match goal with
                 | |- context [flat_map enqueued_by ?t] => fold (enqueued t)
                 end;
          rewrite ?enqueued_app, ?enqueued_fired, ?List.app_nil_r).

Section ScheduleQueue.
Context {X : Externals} (e : executor).

Ltac wp_sched_queue :=
  repeat (cbn [wpt bind call];
          match goal with
          | |- wpt (bind (Schedule_cancel_pauses _ _ _ _ _ _) _) _ => fail 1
          | _ => wp_step
          end).

Lemma Schedule_queue (req : ScheduleRequest) :
  wpt (Schedule e req) (Schedule_queue_post req).
Proof.
  unfold Schedule, ulid_MustNew, enqueue.
  destruct (req_Events req) as [| ev0 evs] eqn:Hev.
  - wp. all: cbn [wpt bind call]; unfold Schedule_queue_post; enq_simpl.
    all: repeat split; intros; try discriminate; try constructor; try contradiction.
  - wp_sched_queue.
    all: cbn [wpt bind call].
    all: match goal with
         | |- wpt (bind (Schedule_cancel_pauses _ _ _ _ _ _) _) _ =>
             apply wpt_bind; eapply wpt_conseq; [| apply Schedule_cancel_pauses_footprint];
             cbn beta; intros tp op Hquiet; unfold within in Hquiet;
             apply (enqueued_quiet ["uuid.New"; "time.Now"; "sm.SavePause"] tp eq_refl)
               in Hquiet;
             destruct op as [[perr |] | m]; cbv beta iota
         | _ => idtac
         end.
    all: wp_sched_queue.
    all: cbn [wpt bind call]; unfold Schedule_queue_post; enq_simpl.
    all: rewrite ?Hquiet; enq_simpl.
    all: try (split; [| split]).
    all: try (intros r Heq; first [discriminate Heq | inversion Heq; subst; clear Heq];
              eexists; eexists; eexists; repeat split; reflexivity).
    all: try (intros r err Heq; first [discriminate Heq | inversion Heq; subst; clear Heq];
              repeat constructor; cbn; discriminate).
    all: try (intros item at_ err Hin; cbn in Hin; contradiction).
    all: intros item at_ err [Heq | []]; inversion Heq; subst; clear Heq.
    all: split; [intros a Ha; rewrite Ha; reflexivity |].
    all: intros ev1 evs0 Hat Hb Hev'; rewrite Hat.
    all: try congruence.
    all: rewrite Hev in Hev'; inversion Hev'; subst.
    all: unfold time_After;
         match goal with
         | |- context [if ?a <? ?b then _ else _] => destruct (Z.ltb_spec a b); lia
         end.
Qed.

End ScheduleQueue.

(** X13.  [Schedule] returns a nil error exactly when the queue accepted the
    start item of the run: every error path, the one of a cancellation
    pause that could not be saved included, returns before the item is
    enqueued or because the queue refused it. *)
Theorem Schedule_succeeds_iff_enqueued {X : Externals} (e : executor) {W : Type}
  (h : handler W) (w w' : W) (req : ScheduleRequest) (r : option Identifier)
  (err : option error) (tr : trace) :
  interp h (Schedule e req) w = (Returned (r, err), w', tr) ->
  (err = None <-> exists item at_, In (item, at_, None) (enqueued tr)).
Proof.
  intro Hrun.
  destruct (wpt_run h _ _ w w' _ tr (Schedule_queue e req) Hrun) as (Hok & Hfail & _).
  split.
  - intro Herr. subst err. destruct (Hok r eq_refl) as (id & item & at_ & _ & Henq & _).
    exists item, at_. rewrite Henq. left. reflexivity.
  - intros (item & at_ & Hin). destruct err as [er |]; [| reflexivity].
    specialize (Hfail r er eq_refl). rewrite Forall_forall in Hfail.
    exfalso. apply (Hfail _ Hin). reflexivity.
Qed.

(** The sample request is scheduled without an error. *)
Lemma Schedule_succeeds_iff_enqueued_witness :
  @None error = None <->
  exists item at_,
    In (item, at_, None)
       (enqueued (trace_of (interp (Sample.calm RunStatusRunning Sample.no_outputs)
                              (Schedule (X := Sample.externals) Sample.exec Sample.request)
                              0%nat))).
Proof.
  eapply (Schedule_succeeds_iff_enqueued (X := Sample.externals) Sample.exec
            (Sample.calm RunStatusRunning Sample.no_outputs) 0%nat _ Sample.request).
  vm_compute. reflexivity.
Defined.

(** X14.  When [Schedule] returns a run, it enqueued exactly one item: a
    start item for that run's identifier, on attempt 0 of the source edge
    with the retries of a source edge, under the job id made of the function
    id, a colon and the run's idempotency key. *)
Theorem Schedule_start_item {X : Externals} (e : executor) {W : Type}
  (h : handler W) (w w' : W) (req : ScheduleRequest) (id : Identifier) (tr : trace) :
  interp h (Schedule e req) w = (Returned (Some id, None), w', tr) ->
  exists item at_,
    enqueued tr = [(item, at_, None)] /\
    it_Kind item = KindStart /\
    it_Identifier item = id /\
    it_JobID item = Some (UUID_String (fn_ID (req_Function req)) ++ ":" ++ id_Key id) /\
    it_Attempt item = 0 /\
    it_MaxAttempts item = Some sourceEdgeRetries /\
    it_Payload item = PayloadEdge SourceEdge.
Proof.
  intro Hrun.
  destruct (wpt_run h _ _ w w' _ tr (Schedule_queue e req) Hrun) as (Hok & _).
  destruct (Hok _ eq_refl) as (id' & item & at_ & Hid & Hrest).
  inversion Hid; subst id'. exists item, at_. exact Hrest.
Qed.

(** X15.  The time [Schedule] enqueues the start item at: the requested time
    [At] when the request has one; otherwise, for a run that is not a batch,
    never before the timestamp of the triggering event. *)
Theorem Schedule_enqueue_time {X : Externals} (e : executor) {W : Type}
  (h : handler W) (w : W) (req : ScheduleRequest) (item : Item) (at_ : Time)
  (err : option error) :
  In (item, at_, err) (enqueued (trace_of (interp h (Schedule e req) w))) ->
  (forall a, req_At req = Some a -> at_ = a) /\
  (forall ev0 evs, req_At req = None -> req_BatchID req = None ->
     req_Events req = ev0 :: evs ->
     time_UnixMilli (evt_Timestamp (GetEvent ev0)) <= at_).
Proof.
  intro Hin.
  destruct (wpt_sound h _ _ w (Schedule_queue e req)) as (_ & _ & Hat).
  exact (Hat item at_ err Hin).
Qed.

(** The start item of the sample run. *)
Lemma Schedule_start_item_witness :
  exists item at_,
    enqueued (trace_of (interp (Sample.calm RunStatusRunning Sample.no_outputs)
                          (Schedule (X := Sample.externals) Sample.exec Sample.request)
                          0%nat))
    = [(item, at_, None)] /\
    it_Kind item = KindStart /\
    it_Identifier item = Sample.ident /\
    it_JobID item =
      Some (@UUID_String Sample.externals (fn_ID (req_Function Sample.request)) ++ ":"
            ++ id_Key Sample.ident) /\
    it_Attempt item = 0 /\
    it_MaxAttempts item = Some sourceEdgeRetries /\
    it_Payload item = PayloadEdge (@SourceEdge Sample.externals).
Proof.
  eapply (Schedule_start_item (X := Sample.externals) Sample.exec
            (Sample.calm RunStatusRunning Sample.no_outputs) 0%nat _ Sample.request
            Sample.ident).
  vm_compute. reflexivity.
Defined.

(** An event stamped three seconds ahead of the clock: the run starts at
    the event's timestamp. *)
Lemma Schedule_enqueue_time_witness :
  (forall a, req_At Cases.future_request = Some a -> 5000000000 = a) /\
  (forall ev0 evs, req_At Cases.future_request = None ->
     req_BatchID Cases.future_request = None ->
     req_Events Cases.future_request = ev0 :: evs ->
     time_UnixMilli (evt_Timestamp (GetEvent ev0)) <= 5000000000).
Proof.
  apply (Schedule_enqueue_time (X := Sample.externals) Sample.exec
           (Sample.calm RunStatusRunning Sample.no_outputs) 0%nat Cases.future_request
           Cases.start_item 5000000000 None).
  vm_compute. left. reflexivity.
Defined.

Section ScheduleEarly.
Context {X : Externals} (e : executor).

Lemma Schedule_batch_saves_nothing (req : ScheduleRequest) (b : ULID) :
  req_BatchID req = Some b ->
  wpt (Schedule e req) (fun tr _ => saved_pauses tr = []).
Proof.
  intro Hb. unfold Schedule, ulid_MustNew, enqueue. rewrite Hb.
  wp. all: cbn [wpt bind call]; saved_simpl; reflexivity.
Qed.

End ScheduleEarly.

(** X16.  For a batch, [Schedule] saves no pause at all, whatever
    cancellation triggers the function declares. *)
Theorem Schedule_batch_no_pauses {X : Externals} (e : executor) {W : Type}
  (h : handler W) (w : W) (req : ScheduleRequest) (b : ULID) :
  req_BatchID req = Some b ->
  saved_pauses (trace_of (interp h (Schedule e req) w)) = [].
Proof.
  intro Hb. exact (wpt_sound h _ _ w (Schedule_batch_saves_nothing e req b Hb)).
Qed.

(** A batch of two events for the sample function, which declares a
    cancellation trigger. *)
Lemma Schedule_batch_no_pauses_witness :
  saved_pauses (trace_of (interp (Sample.calm RunStatusRunning Sample.no_outputs)
                            (Schedule (X := Sample.externals) Sample.exec
                                      Cases.batch_request) 0%nat)) = [] /\
  fn_Cancel (req_Function Cases.batch_request) <> [].
Proof.
  split.
  - apply (Schedule_batch_no_pauses (X := Sample.externals) Sample.exec
             (Sample.calm RunStatusRunning Sample.no_outputs) 0%nat Cases.batch_request
             (mkULID 4000 4)).
    reflexivity.
  - discriminate.
Defined.

(** The period of a throttle in seconds goes through a [float64]: a period
    of a second and a half gives 1, and one that is a nanosecond short of
    16777217 seconds is rounded up to it before the fraction is dropped. *)
Lemma Duration_Seconds_rounds :
  int_of_float64 (Duration_Seconds 1500000000) = 1 /\
  int_of_float64 (Duration_Seconds 16777216999999999) = 16777217 /\
  int_of_float64 (Duration_Seconds (- 1500000000)) = - 1.
Proof. vm_compute. repeat split. Qed.

(** X17.  For a function with a debounce configuration (and a request that
    does not prevent debouncing), an executor that has a debouncer hands the
    first event to it and does nothing else: no run id is minted, no state
    created, nothing enqueued.  [Schedule] then returns no identifier, with
    the debouncer's error or else [ErrFunctionDebounced].  An executor
    without a debouncer panics at that call, before anything is called. *)
Theorem Schedule_debounced {X : Externals} (e : executor) {W : Type} (h : handler W)
  (w : W) (req : ScheduleRequest) (ev0 : TrackedEvent) (evs : list TrackedEvent) :
  req_Events req = ev0 :: evs ->
  fn_Debounce (req_Function req) = true ->
  req_PreventDebounce req = false ->
  let di := mkDebounceItem (req_AccountID req) (req_WorkspaceID req) (req_AppID req)
                           (fn_ID (req_Function req))
                           (fn_FunctionVersion (req_Function req))
                           (GetInternalID ev0) (GetEvent ev0) in
  (has_debouncer e = true ->
   forall (w1 : W) (d : option error),
     h _ (debouncer_Debounce di (req_Function req)) w = (d, w1) ->
     interp h (Schedule e req) w =
     (Returned (None, Some match d with Some er => er | None => ErrFunctionDebounced end),
      w1, [Ev (debouncer_Debounce di (req_Function req)) d])) /\
  (has_debouncer e = false ->
   interp h (Schedule e req) w = (Panicked nil_dereference, w, [])).
Proof.
  intros Hev Hdeb Hprev di. unfold Schedule. rewrite Hev, Hdeb, Hprev.
  cbn [andb negb]. split.
  - intros Hhas w1 d Hd. rewrite Hhas. cbn [negb interp bind call]. fold di.
    rewrite Hd. destruct d; reflexivity.
  - intro Hhas. rewrite Hhas. reflexivity.
Qed.

(** The sample trigger for a debounced function, on the sample executor and
    on the executor that was given a state manager only. *)
Lemma Schedule_debounced_witness :
  let di := mkDebounceItem 8%N 9%N 10%N 7%N 1 (mkULID 1000 1) (GetEvent Sample.trigger) in
  interp (Sample.calm RunStatusRunning Sample.no_outputs)
         (Schedule (X := Sample.externals) Sample.exec Cases.debounced_request) 0%nat =
  (Returned (None, Some ErrFunctionDebounced), 1%nat,
   [Ev (debouncer_Debounce di Cases.debounced_fn) None]) /\
  interp (Sample.calm RunStatusRunning Sample.no_outputs)
         (Schedule (X := Sample.externals) Cases.state_manager_only
                   Cases.debounced_request) 0%nat =
  (Panicked nil_dereference, 0%nat, []).
Proof.
  intro di. split.
  - exact (proj1 (Schedule_debounced (X := Sample.externals) Sample.exec
                    (Sample.calm RunStatusRunning Sample.no_outputs) 0%nat
                    Cases.debounced_request Sample.trigger [] eq_refl eq_refl eq_refl)
                 eq_refl 1%nat None eq_refl).
  - exact (proj2 (Schedule_debounced (X := Sample.externals) Cases.state_manager_only
                    (Sample.calm RunStatusRunning Sample.no_outputs) 0%nat
                    Cases.debounced_request Sample.trigger [] eq_refl eq_refl eq_refl)
                 eq_refl).
Defined.

(** X18.  For a function paused before the clock reading, [Schedule] creates
    no run state and enqueues nothing: after minting the run id it tells
    every listener [OnFunctionSkipped], with the identifier as built so far
    and the cron schedule of the first event, and returns
    [ErrFunctionSkipped]. *)
Theorem Schedule_skipped {X : Externals} (e : executor) {W : Type} (h : handler W)
  (w w1 w2 w3 : W) (req : ScheduleRequest) (ev0 : TrackedEvent) (evs : list TrackedEvent)
  (pausedAt t1 t2 : Time) (entropy : N) :
  req_Events req = ev0 :: evs ->
  fn_Debounce (req_Function req) && negb (req_PreventDebounce req) = false ->
  req_FunctionPausedAt req = Some pausedAt ->
  h _ time_Now w = (t1, w1) ->
  (ulid_Timestamp t1 <= MaxTime)%N ->
  h _ rand_Read w1 = (entropy, w2) ->
  h _ time_Now w2 = (t2, w3) ->
  time_Before pausedAt t2 = true ->
  let runID := mkULID (ulid_Timestamp t1) entropy in
  let id := mkIdentifier (fn_ID (req_Function req)) (fn_FunctionVersion (req_Function req))
                         runID (req_BatchID req) (GetInternalID ev0)
                         (map GetInternalID (req_Events req)) (Schedule_key req runID)
                         (req_AccountID req) (req_WorkspaceID req) (req_AppID req)
                         (req_OriginalRunID req) (req_ReplayID req) [] None in
  exists w',
    interp h (Schedule e req) w =
    (Returned (None, Some ErrFunctionSkipped), w',
     ([Ev time_Now t1; Ev rand_Read entropy; Ev time_Now t2]
      ++ fired (lifecycles e) (OnFunctionSkipped id (Event_CronSchedule (GetEvent ev0))))%list).
Proof.
  intros Hev Hdeb Hpaused Ht1 Hmax Hrand Ht2 Hbefore runID id.
  unfold Schedule, ulid_MustNew, enqueue. rewrite Hev, Hdeb, Hpaused.
  apply N.ltb_ge in Hmax.
  cbn [interp bind call]. rewrite Ht1. rewrite Hmax. cbn [interp bind call]. rewrite Hrand.
  cbn [interp bind call]. rewrite Ht2. cbn [interp bind call]. rewrite Hbefore.
  rewrite interp_bind. rewrite <- Hev.
  destruct (interp_fire h e (OnFunctionSkipped id (Event_CronSchedule (GetEvent ev0))) w3)
    as [w' Hfire].
  fold runID. fold id. rewrite Hfire. cbn [interp]. rewrite List.app_nil_r.
  exists w'. reflexivity.
Qed.

(** The sample function paused one second before the clock reading. *)
Lemma Schedule_skipped_witness :
  exists w',
    interp (Sample.calm RunStatusRunning Sample.no_outputs)
           (Schedule (X := Sample.externals) Sample.exec Cases.paused_request) 0%nat =
    (Returned (None, Some ErrFunctionSkipped), w',
     ([Ev time_Now 2000000000; Ev rand_Read 2%N; Ev time_Now 2000000000]
      ++ fired (lifecycles Sample.exec)
               (OnFunctionSkipped Sample.ident None))%list).
Proof.
  apply (Schedule_skipped (X := Sample.externals) Sample.exec
           (Sample.calm RunStatusRunning Sample.no_outputs) 0%nat 1%nat 2%nat 3%nat
           Cases.paused_request Sample.trigger [] 1000000000 2000000000 2000000000 2%N);
    vm_compute; try reflexivity.
  discriminate.
Defined.

(** ** Opcodes: what is enqueued *)

Lemma append_empty_r (s : string) : s ++ "" = s.
Proof. induction s as [| c s IH]; cbn; [reflexivity | rewrite IH; reflexivity]. Qed.

#[local] Hint Resolve wpt_call_at_most : counts.

Lemma fire_retry_footprint {X : Externals} (ls : list Listener) (id : Identifier)
  (item : Item) (name : option string) :
  wpt (fire_retry ls id item name) (within ["OnStepScheduled"]).
Proof. apply wpt_within_fire_retry. reflexivity. Qed.

#[local] Hint Resolve fire_retry_footprint : footprint.

Section OpcodeQueue.
Context {X : Externals} (e : executor).

Ltac item_ok :=
  intro; cbn [wpt call]; unfold all_of; cbn [flat_map enqueued_by app];
  constructor; [| constructor];
  unfold opcode_item_ok;
  repeat match goal with H : gen_Op _ = _ |- _ => rewrite H; clear H end;
  cbn; rewrite ?append_empty_r; repeat split; reflexivity.

Lemma handleGeneratorStep_items (gen : GeneratorOpcode) (item : Item) (edge : Edge) :
  gen_Op gen = OpcodeStep \/ gen_Op gen = OpcodeStepRun ->
  wpt (handleGeneratorStep e gen item edge) (all_of enqueued_by (opcode_item_ok gen item)).
Proof.
  intros Hop. unfold handleGeneratorStep, enqueue. proj.
  all: destruct Hop as [Hop | Hop]; item_ok.
Qed.

Lemma handleStepError_items (gen : GeneratorOpcode) (item : Item) (edge : Edge) :
  gen_Op gen = OpcodeStepError ->
  wpt (handleStepError e gen item edge) (all_of enqueued_by (opcode_item_ok gen item)).
Proof. intros Hop. unfold handleStepError, enqueue. proj. all: item_ok. Qed.

Lemma handleGeneratorStepPlanned_items (gen : GeneratorOpcode) (item : Item) (edge : Edge) :
  gen_Op gen = OpcodeStepPlanned ->
  wpt (handleGeneratorStepPlanned e gen item edge)
      (all_of enqueued_by (opcode_item_ok gen item)).
Proof. intros Hop. unfold handleGeneratorStepPlanned, enqueue. proj. all: item_ok. Qed.

Lemma handleGeneratorSleep_items (gen : GeneratorOpcode) (item : Item) (edge : Edge) :
  gen_Op gen = OpcodeSleep ->
  wpt (handleGeneratorSleep e gen item edge) (all_of enqueued_by (opcode_item_ok gen item)).
Proof. intros Hop. unfold handleGeneratorSleep, enqueue. proj. all: item_ok. Qed.

Lemma handleGeneratorInvokeFunction_items (gen : GeneratorOpcode) (item : Item)
  (edge : Edge) :
  gen_Op gen = OpcodeInvokeFunction ->
  wpt (handleGeneratorInvokeFunction e gen item edge)
      (all_of enqueued_by (opcode_item_ok gen item)).
Proof. intros Hop. unfold handleGeneratorInvokeFunction, enqueue. proj. all: item_ok. Qed.

Lemma handleGeneratorWaitForEvent_items (gen : GeneratorOpcode) (item : Item)
  (edge : Edge) :
  gen_Op gen = OpcodeWaitForEvent ->
  wpt (handleGeneratorWaitForEvent e gen item edge)
      (all_of enqueued_by (opcode_item_ok gen item)).
Proof. intros Hop. unfold handleGeneratorWaitForEvent, enqueue. proj. all: item_ok. Qed.

Lemma HandleGenerator_items (gen : GeneratorOpcode) (item : Item) :
  wpt (HandleGenerator e gen item) (all_of enqueued_by (opcode_item_ok gen item)).
Proof.
  unfold HandleGenerator.
  destruct (it_Payload item) as [edge | ? ?]; [| apply Forall_nil].
  destruct (gen_Op gen) eqn:Hop.
  - apply Forall_nil.
  - apply handleGeneratorStep_items. left. exact Hop.
  - apply handleGeneratorStep_items. right. exact Hop.
  - apply handleStepError_items, Hop.
  - apply handleGeneratorStepPlanned_items, Hop.
  - apply handleGeneratorSleep_items, Hop.
  - apply handleGeneratorWaitForEvent_items, Hop.
  - apply handleGeneratorInvokeFunction_items, Hop.
  - apply Forall_nil.
Qed.

Lemma HandleGenerator_once (gen : GeneratorOpcode) (item : Item) :
  wpt (HandleGenerator e gen item) (at_most "queue.Enqueue" 1).
Proof.
  unfold HandleGenerator, handleGeneratorStep, handleStepError,
    handleGeneratorStepPlanned, handleGeneratorSleep, handleGeneratorInvokeFunction,
    handleGeneratorWaitForEvent, enqueue.
  cnt.
Qed.

End OpcodeQueue.

(** X19.  Handling one opcode enqueues at most one queue item.  The item is
    for the run of the queue item being handled, in its workspace, on
    attempt 0; its kind follows from the opcode ([opcode_kind]) and its job
    id is the run's idempotency key, a dash, the step id and the suffix of
    the opcode ([opcode_job_suffix]). *)
Theorem HandleGenerator_enqueues {X : Externals} (e : executor) {W : Type}
  (h : handler W) (w : W) (gen : GeneratorOpcode) (item : Item) :
  let tr := trace_of (interp h (HandleGenerator e gen item) w) in
  (count_calls "queue.Enqueue" tr <= 1)%nat /\
  Forall (opcode_item_ok gen item) (enqueued tr).
Proof.
  intro tr. split.
  - exact (wpt_sound h _ _ w (HandleGenerator_once e gen item)).
  - exact (wpt_sound h _ _ w (HandleGenerator_items e gen item)).
Qed.


(** ** Opcodes: the timeout job of a pause *)

Section TimeoutJob.
Context {X : Externals} (e : executor).

Ltac timeout_finish :=
  cbn [wpt bind call]; unfold timeout_job_post; enq_simpl; saved_simpl;
  first [ intros it at_ err Hin; cbn [In] in Hin; contradiction
        | intros it at_ err [Heq | []];
          pose proof (f_equal (fun x => fst (fst x)) Heq) as Hit;
          pose proof (f_equal (fun x => snd (fst x)) Heq) as Hat;
          cbn [fst snd] in Hit, Hat; subst it at_; clear Heq;
          eexists; split; [reflexivity |]; repeat split ].

Lemma handleGeneratorWaitForEvent_timeout (gen : GeneratorOpcode) (item : Item)
  (edge : Edge) :
  wpt (handleGeneratorWaitForEvent e gen item edge) timeout_job_post.
Proof. unfold handleGeneratorWaitForEvent, enqueue. wp. all: timeout_finish. Qed.

Lemma handleGeneratorInvokeFunction_timeout (gen : GeneratorOpcode) (item : Item)
  (edge : Edge) :
  wpt (handleGeneratorInvokeFunction e gen item edge) timeout_job_post.
Proof. unfold handleGeneratorInvokeFunction, enqueue. wp. all: timeout_finish. Qed.

End TimeoutJob.

(** X20.  The wait-for-event and the invoke handlers enqueue a queue item only
    after they saved one pause, and the item is the timeout job of that
    pause: of kind pause, with the pause's id and [OnTimeout] set as payload,
    in the pause's group, enqueued at the time the pause expires. *)
Theorem opcode_timeout_job {X : Externals} (e : executor) {W : Type} (h : handler W)
  (w : W) (gen : GeneratorOpcode) (item : Item) (edge : Edge) (it : Item) (at_ : Time)
  (err : option error) :
  let waits := trace_of (interp h (handleGeneratorWaitForEvent e gen item edge) w) in
  let invokes := trace_of (interp h (handleGeneratorInvokeFunction e gen item edge) w) in
  (In (it, at_, err) (enqueued waits) ->
   exists p, saved_pauses waits = [p] /\
             it_Kind it = KindPause /\
             it_Payload it = PayloadPauseTimeout (p_ID p) true /\
             at_ = p_Expires p /\
             it_GroupID it = p_GroupID p) /\
  (In (it, at_, err) (enqueued invokes) ->
   exists p, saved_pauses invokes = [p] /\
             it_Kind it = KindPause /\
             it_Payload it = PayloadPauseTimeout (p_ID p) true /\
             at_ = p_Expires p /\
             it_GroupID it = p_GroupID p).
Proof.
  intros waits invokes. split.
  - exact (wpt_sound h _ _ w (handleGeneratorWaitForEvent_timeout e gen item edge)
                     it at_ err).
  - exact (wpt_sound h _ _ w (handleGeneratorInvokeFunction_timeout e gen item edge)
                     it at_ err).
Qed.

(** The sample wait: its timeout job names the pause saved for the step and
    fires at the pause's expiry. *)
Lemma opcode_timeout_job_witness :
  let waits :=
    trace_of (interp (Sample.calm RunStatusRunning Sample.no_outputs)
                (handleGeneratorWaitForEvent (X := Sample.externals) Sample.exec
                   Sample.wait_step Sample.item Sample.edge) 0%nat) in
  exists p, saved_pauses waits = [p] /\
            it_Kind Cases.wait_timeout_job = KindPause /\
            it_Payload Cases.wait_timeout_job = PayloadPauseTimeout (p_ID p) true /\
            62000000000 = p_Expires p /\
            it_GroupID Cases.wait_timeout_job = p_GroupID p.
Proof.
  intro waits.
  apply (proj1 (opcode_timeout_job (X := Sample.externals) Sample.exec
                  (Sample.calm RunStatusRunning Sample.no_outputs) 0%nat
                  Sample.wait_step Sample.item Sample.edge Cases.wait_timeout_job
                  62000000000 None)).
  vm_compute. left. reflexivity.
Defined.

(** ** Opcodes: the metadata update *)

Lemma metadata_updates_quiet (names : list string) (tr : trace) :
  name_in names "sm.UpdateMetadata" = false -> calls_only names tr = true ->
  metadata_updates tr = [].
Proof.
  intros Hn Htr. apply (calls_only_flat_map names metadata_update_by tr); [| exact Htr].
  intros [T c x] Hc. destruct c; try reflexivity.
  cbn in Hc. congruence.
Qed.

Section MetadataUpdate.
Context {X : Externals} (e : executor).

Lemma HandleGeneratorResponse_update (resp : DriverResponse) (item : Item) :
  wpt (HandleGeneratorResponse e resp item) (metadata_update_post resp).
Proof.
  unfold HandleGeneratorResponse. cbn [wpt bind call].
  intros [[md |] [err |]]; cbn [wpt bind call]; cbv zeta.
  2: destruct (md_RequestVersion md =? -1) eqn:Hver;
     destruct ((1 <? Z.of_nat (List.length (r_Generator resp)))
               && negb (md_DisableImmediateExecution md)) eqn:Hpar;
     cbn [wpt bind call].
  all: try (intros md' Hmd; cbn in Hmd; discriminate Hmd).
  all: try intros [uerr |]; cbn [wpt bind call].
  all: try (eapply wpt_conseq; [| apply handle_groups_footprint]; cbn beta;
            intros tg og Hquiet; unfold within in Hquiet;
            apply (metadata_updates_quiet opcode_calls tg eq_refl) in Hquiet).
  all: intros md' Hmd; cbn in Hmd; inversion Hmd; subst md'; clear Hmd.
  all: unfold metadata_updates in *;
       cbn [flat_map metadata_update_by ev_call app]; rewrite ?Hquiet.
  all: cbn [List.length app].
  all: (split; [lia |]).
  all: (split; [intros u Hin; cbn in Hin;
                first [contradiction
                      | destruct Hin as [Hu | []]; subst u; cbn;
                        repeat split; try reflexivity]
               |]).
  all: try (split; [intro H; discriminate H | intros [H1 H2]; congruence]).
  all: try (split; [intros _; split; assumption | reflexivity]).
  all: destruct (md_DisableImmediateExecution md);
       destruct (1 <? Z.of_nat (List.length (r_Generator resp)));
       cbn in Hpar |- *; congruence.
Qed.

End MetadataUpdate.

(** X21.  [HandleGeneratorResponse] writes the run metadata at most once.
    The update carries the request version of
    the response and keeps the context and the debugger flag; immediate
    execution is disabled in it when it was already or when the response has
    more than one opcode.  No update is written exactly when the metadata
    already has a request version (not -1) and the response is not a first
    parallel one. *)
Theorem HandleGeneratorResponse_metadata {X : Externals} (e : executor) {W : Type}
  (h : handler W) (w : W) (resp : DriverResponse) (item : Item) (md : Metadata) :
  let tr := trace_of (interp h (HandleGeneratorResponse e resp item) w) in
  let parallel := 1 <? Z.of_nat (List.length (r_Generator resp)) in
  loaded_metadata tr = Some md ->
  (List.length (metadata_updates tr) <= 1)%nat /\
  (forall u, In u (metadata_updates tr) ->
     mu_RequestVersion u = r_RequestVersion resp /\
     mu_Context u = md_Context md /\
     mu_Debugger u = md_Debugger md /\
     mu_DisableImmediateExecution u = md_DisableImmediateExecution md || parallel) /\
  (metadata_updates tr = [] <->
   (md_RequestVersion md =? -1) = false /\
   parallel && negb (md_DisableImmediateExecution md) = false).
Proof.
  intros tr parallel Hmd.
  exact (wpt_sound h _ _ w (HandleGeneratorResponse_update e resp item) md Hmd).
Qed.

(** A parallel response for the sample run, whose metadata has request
    version 0 and immediate execution enabled: one update is written, which
    disables immediate execution. *)
Lemma HandleGeneratorResponse_metadata_witness :
  let tr := trace_of (interp (Sample.calm RunStatusRunning Sample.no_outputs)
                        (HandleGeneratorResponse (X := Sample.externals) Sample.exec
                           Cases.parallel_response Sample.item) 0%nat) in
  let md := Sample.metadata RunStatusRunning in
  (List.length (metadata_updates tr) <= 1)%nat /\
  (forall u, In u (metadata_updates tr) ->
     mu_RequestVersion u = r_RequestVersion Cases.parallel_response /\
     mu_Context u = md_Context md /\
     mu_Debugger u = md_Debugger md /\
     mu_DisableImmediateExecution u = md_DisableImmediateExecution md || true) /\
  (metadata_updates tr = [] <->
   (md_RequestVersion md =? -1) = false /\
   true && negb (md_DisableImmediateExecution md) = false).
Proof.
  intros tr md.
  apply (HandleGeneratorResponse_metadata (X := Sample.externals) Sample.exec
           (Sample.calm RunStatusRunning Sample.no_outputs) 0%nat
           Cases.parallel_response Sample.item md).
  vm_compute. reflexivity.
Defined.

(** ** Handling a response: retries and statuses *)

Lemma steps_scheduled_app (t1 t2 : trace) :
  steps_scheduled (t1 ++ t2)%list = (steps_scheduled t1 ++ steps_scheduled t2)%list.
Proof. apply flat_map_app. Qed.

Lemma steps_scheduled_fired (ls : list Listener) (c : LifecycleCall) :
  method_name c <> "OnStepScheduled" -> steps_scheduled (fired ls c) = [].
Proof.
  intro Hc. induction ls as [| l ls IH]; [reflexivity |].
  cbn. destruct c; cbn in *; try exact IH. exfalso. apply Hc. reflexivity.
Qed.

Section Retries.
Context {X : Externals} (e : executor).

Lemma fire_retry_attempts (ls : list Listener) (id : Identifier) (item : Item)
  (name : option string) :
  wpt (fire_retry ls id item name)
      (fun tr o =>
         o = Returned tt /\
         calls_only ["OnStepScheduled"] tr = true /\
         steps_scheduled tr =
         map (fun k => (id, int_wrap (it_Attempt item + Z.of_nat k)))
             (seq 1 (List.length ls))).
Proof.
  revert item. induction ls as [| l ls IH]; intro item; cbn [fire_retry].
  - cbn. repeat split.
  - cbn [wpt bind call]. intros [].
    eapply wpt_conseq; [| apply IH]. cbn beta. intros tr o (Ho & Hcalls & Hatt).
    split; [exact Ho |]. split.
    + cbn. exact Hcalls.
    + cbn [steps_scheduled flat_map step_scheduled_by ev_call app List.length seq map].
      fold (steps_scheduled tr). rewrite Hatt. cbn [it_Attempt set_Attempt].
      apply (f_equal2 cons); [reflexivity |].
      rewrite <- (seq_shift (List.length ls) 1), map_map. apply map_ext. intro k.
      rewrite int_wrap_add. do 2 f_equal. lia.
Qed.

Lemma HandleResponse_retry (id : Identifier) (item : Item) (edge : Edge)
  (resp : DriverResponse) (msg : string) :
  r_Err resp = Some msg ->
  Resp_Retryable resp = true ->
  wpt (HandleResponse e id item edge resp)
      (fun tr o =>
         o = Returned (resp, Some (RespError (Resp_Error resp))) /\
         calls_only ["OnStepFinished"; "OnStepScheduled"] tr = true /\
         steps_scheduled tr =
         map (fun k => (id, int_wrap (it_Attempt item + Z.of_nat k)))
             (seq 1 (List.length (lifecycles e)))).
Proof.
  intros Herr Hretry. unfold HandleResponse. cbv zeta. rewrite Herr, Hretry.
  apply wpt_bind, wpt_fire. apply wpt_bind.
  eapply wpt_conseq; [| apply fire_retry_attempts]. cbn beta.
  intros tr o (Ho & Hcalls & Hatt). subst o. cbn [wpt].
  rewrite List.app_nil_r. split; [reflexivity |]. split.
  - unfold calls_only in *. rewrite forallb_app. apply andb_true_intro. split.
    + unfold fired. rewrite forallb_forall. intros ev Hin.
      apply in_map_iff in Hin. destruct Hin as (l & <- & _). reflexivity.
    + rewrite forallb_forall in *. intros ev Hin.
      specialize (Hcalls ev Hin). cbn in *.
      destruct (call_name (ev_call ev) =? "OnStepScheduled")%string;
        [apply orb_true_r | discriminate].
  - rewrite steps_scheduled_app, steps_scheduled_fired by discriminate.
    exact Hatt.
Qed.

End Retries.

(** X22.  For a response with an error that may be retried, [HandleResponse]
    touches neither the state store nor the queue: it only tells the
    listeners that the step finished and that it is scheduled again, and
    returns the response as the error.  Every listener is told the
    identifier that [HandleResponse] was called with; the attempt of the
    item, an [int], is increased once per listener, so the k-th listener is
    told of attempt [item.Attempt + k], wrapped around at 64 bits. *)
Theorem HandleResponse_retryable {X : Externals} (e : executor) {W : Type}
  (h : handler W) (w : W) (id : Identifier) (item : Item) (edge : Edge)
  (resp : DriverResponse) (msg : string) :
  r_Err resp = Some msg ->
  Resp_Retryable resp = true ->
  let out := interp h (HandleResponse e id item edge resp) w in
  result_of out = Returned (resp, Some (RespError (Resp_Error resp))) /\
  calls_only ["OnStepFinished"; "OnStepScheduled"] (trace_of out) = true /\
  steps_scheduled (trace_of out) =
  map (fun k => (id, int_wrap (it_Attempt item + Z.of_nat k)))
      (seq 1 (List.length (lifecycles e))).
Proof.
  intros Herr Hretry out.
  exact (wpt_sound h _ _ w (HandleResponse_retry e id item edge resp msg Herr Hretry)).
Qed.

(** Two listeners and a first attempt that failed, handled for another
    identifier than the one on the queue item: the listeners are told that
    identifier, and attempts 1 and 2. *)
Lemma HandleResponse_retryable_witness :
  let out := interp (Sample.calm RunStatusRunning Sample.no_outputs)
               (HandleResponse (X := Sample.externals) Cases.two_listeners
                  Cases.other_ident Sample.item Sample.edge Cases.failing_response)
               0%nat in
  result_of out = Returned (Cases.failing_response, Some (RespError "boom")) /\
  calls_only ["OnStepFinished"; "OnStepScheduled"] (trace_of out) = true /\
  steps_scheduled (trace_of out) = [(Cases.other_ident, 1); (Cases.other_ident, 2)].
Proof.
  exact (HandleResponse_retryable (X := Sample.externals) Cases.two_listeners
           (Sample.calm RunStatusRunning Sample.no_outputs) 0%nat Cases.other_ident
           Sample.item Sample.edge Cases.failing_response "boom" eq_refl eq_refl).
Defined.

Section Statuses.
Context {X : Externals} (e : executor).

Ltac status_finish :=
  intro; cbn [wpt call]; unfold all_of; cbn [flat_map status_set_by ev_call app];
  constructor; [| constructor]; unfold status_ok;
  first [ left; repeat split; try assumption;
          match goal with
          | H : (0 <? Z.of_nat (List.length ?g)) = false |- ?g = [] =>
              destruct g; [reflexivity | cbn in H; discriminate H]
          end
        | right; split; [reflexivity |];
          first [ left; congruence
                | right; let Hn := fresh "Hnil" in
                  intro Hn;
                  match goal with
                  | H : (0 <? Z.of_nat (List.length _)) = true |- _ =>
                      rewrite Hn in H; discriminate H
                  end ] ].

Lemma HandleResponse_statuses (id : Identifier) (item : Item) (edge : Edge)
  (resp : DriverResponse) :
  wpt (HandleResponse e id item edge resp) (all_of status_set_by (status_ok resp)).
Proof. unfold HandleResponse. proj. all: status_finish. Qed.

Lemma HandleResponse_status_once (id : Identifier) (item : Item) (edge : Edge)
  (resp : DriverResponse) :
  wpt (HandleResponse e id item edge resp) (at_most "sm.SetStatus" 1).
Proof. unfold HandleResponse. cnt. Qed.

End Statuses.

(** X23.  [HandleResponse] sets the status of the run at most once.  It marks
    the run completed only for a response without error and without opcodes,
    and failed only for a response with an error or with opcodes (whose
    expressions did not compile); it sets no other status. *)
Theorem HandleResponse_status {X : Externals} (e : executor) {W : Type}
  (h : handler W) (w : W) (id : Identifier) (item : Item) (edge : Edge)
  (resp : DriverResponse) :
  let tr := trace_of (interp h (HandleResponse e id item edge resp) w) in
  (count_calls "sm.SetStatus" tr <= 1)%nat /\
  Forall (status_ok resp) (statuses_set tr).
Proof.
  intro tr. split.
  - exact (wpt_sound h _ _ w (HandleResponse_status_once e id item edge resp)).
  - exact (wpt_sound h _ _ w (HandleResponse_statuses e id item edge resp)).
Qed.

(** ** Building an executor: runtime drivers *)

Lemma existsb_eqb_In (d : string) (l : list string) :
  existsb (String.eqb d) l = true <-> In d l.
Proof.
  rewrite existsb_exists. split.
  - intros (x & Hin & Heq). apply String.eqb_eq in Heq. subst x. exact Hin.
  - intro Hin. exists d. split; [exact Hin | apply String.eqb_refl].
Qed.

Lemma register_drivers_spec (drivers : list string) :
  forall m : executor,
    match register_drivers drivers m with
    | (m', None) =>
        NoDup drivers /\
        (forall d, In d drivers -> ~ In d (runtimeDrivers m)) /\
        (forall d, In d (runtimeDrivers m') <-> In d drivers \/ In d (runtimeDrivers m)) /\
        has_sm m' = has_sm m
    | (_, Some err) =>
        err = ErrRuntimeRegistered /\
        ~ (NoDup drivers /\ forall d, In d drivers -> ~ In d (runtimeDrivers m))
    end.
Proof.
  induction drivers as [| d rest IH]; intro m; cbn [register_drivers].
  - split; [constructor |]. split; [intros d [] |]. split; [| reflexivity].
    intro d. split; [intro Hin; right; exact Hin | intros [[] | Hin]; exact Hin].
  - destruct (existsb (String.eqb d) (runtimeDrivers m)) eqn:Hreg.
    + split; [reflexivity |]. intros [_ Hfresh].
      apply (Hfresh d); [left; reflexivity | apply existsb_eqb_In, Hreg].
    + assert (Hd : ~ In d (runtimeDrivers m)).
      { intro Hin. apply existsb_eqb_In in Hin. congruence. }
      specialize (IH (set_runtimeDrivers m (d :: runtimeDrivers m))).
      destruct (register_drivers rest (set_runtimeDrivers m (d :: runtimeDrivers m)))
        as [m' [err |]]; cbn [runtimeDrivers set_runtimeDrivers has_sm] in IH.
      * destruct IH as [Herr Hnot]. split; [exact Herr |].
        intros [Hnd Hfresh]. apply Hnot. inversion Hnd; subst. split; [assumption |].
        intros x Hx [Hin | Hin]; [subst x; contradiction |].
        apply (Hfresh x); [right; exact Hx | exact Hin].
      * destruct IH as (Hnd & Hfresh & Hall & Hsm). repeat split.
        -- constructor; [| exact Hnd]. intro Hin. apply (Hfresh d Hin). left. reflexivity.
        -- intros x [Hx | Hx]; [subst x; exact Hd |].
           intro Hin. apply (Hfresh x Hx). right. exact Hin.
        -- intro Hin. apply Hall in Hin.
           destruct Hin as [Hin | [Hin | Hin]];
             [left; right; exact Hin | left; left; exact Hin | right; exact Hin].
        -- intros [[Hx | Hx] | Hx]; apply Hall;
             [right; left; exact Hx | left; exact Hx | right; right; exact Hx].
        -- exact Hsm.
Qed.

(** X24.  [WithRuntimeDrivers] succeeds exactly when the runtime types of the
    drivers given are pairwise distinct and none of them is registered
    already; the drivers registered afterwards are those given and those
    registered before.  It fails only with [ErrRuntimeRegistered]. *)
Theorem WithRuntimeDrivers_registers (drivers : list string) (m : executor) :
  let out := WithRuntimeDrivers drivers m in
  (snd out = None <->
   NoDup drivers /\ forall d, In d drivers -> ~ In d (runtimeDrivers m)) /\
  (forall err, snd out = Some err -> err = ErrRuntimeRegistered) /\
  (snd out = None ->
   forall d, In d (runtimeDrivers (fst out)) <-> In d drivers \/ In d (runtimeDrivers m)).
Proof.
  intro out. subst out. unfold WithRuntimeDrivers.
  pose proof (register_drivers_spec drivers m) as H.
  destruct (register_drivers drivers m) as [m' [err |]]; cbn [fst snd].
  - destruct H as [Herr Hnot].
    split; [split; [discriminate | intro Hok; exfalso; apply Hnot, Hok] |].
    split; [intros err' Heq; inversion Heq; subst; reflexivity | discriminate].
  - destruct H as (Hnd & Hfresh & Hall & _).
    split; [split; [intros _; split; assumption | reflexivity] |].
    split; [intros err Heq; discriminate Heq | intros _ d; apply Hall].
Qed.

Lemma WithRuntimeDrivers_registers_witness :
  snd (WithRuntimeDrivers ["connect"] Sample.exec) = None /\
  forall d,
    In d (runtimeDrivers (fst (WithRuntimeDrivers ["connect"] Sample.exec))) <->
    In d ["connect"] \/ In d (runtimeDrivers Sample.exec).
Proof.
  pose proof (WithRuntimeDrivers_registers ["connect"] Sample.exec) as H.
  cbv zeta in H. destruct H as (_ & _ & H).
  split; [reflexivity | apply H; reflexivity].
Defined.

(** X25.  [NewExecutor] applies the options before it looks for the state
    manager: given a state manager option and a drivers option, it fails with
    [ErrRuntimeRegistered] when two drivers share a runtime type, also when
    the state manager is nil; with distinct drivers it fails with
    [ErrNoStateManager] for a nil state manager and otherwise returns an
    executor that has exactly the drivers given. *)
Theorem NewExecutor_drivers (sm : bool) (drivers : list string) :
  let out := NewExecutor [WithStateManager sm; WithRuntimeDrivers drivers] in
  (~ NoDup drivers -> out = (None, Some ErrRuntimeRegistered)) /\
  (NoDup drivers -> sm = false -> out = (None, Some ErrNoStateManager)) /\
  (NoDup drivers -> sm = true ->
   exists m, out = (Some m, None) /\ has_sm m = true /\
             forall d, In d (runtimeDrivers m) <-> In d drivers).
Proof.
  intro out. subst out. unfold NewExecutor. cbn [apply_opts WithStateManager].
  unfold WithRuntimeDrivers.
  set (m0 := set_has_sm
               (mkExecutor false false false false false None [] false false [] false)
               sm).
  pose proof (register_drivers_spec drivers m0) as H.
  destruct (register_drivers drivers m0) as [m' [err |]].
  - destruct H as [Herr Hnot]. subst err.
    assert (Hdup : ~ NoDup drivers).
    { intro Hnd. apply Hnot. split; [exact Hnd |]. intros d _ []. }
    split; [reflexivity |]. split; intros Hnd; contradiction.
  - destruct H as (Hnd & _ & Hall & Hsm). cbn in Hsm.
    split; [intro Hdup; contradiction |].
    split.
    + intros _ Hfalse. rewrite Hsm, Hfalse. reflexivity.
    + intros _ Htrue. rewrite Hsm, Htrue. cbn. exists m'.
      split; [reflexivity |]. split; [rewrite Hsm; exact Htrue |].
      intro d. split.
      * intro Hin. apply Hall in Hin. destruct Hin as [Hin | []]. exact Hin.
      * intro Hin. apply Hall. left. exact Hin.
Qed.

Lemma NewExecutor_drivers_witness :
  exists m,
    NewExecutor [WithStateManager true; WithRuntimeDrivers ["http"; "connect"]] =
    (Some m, None) /\
    has_sm m = true /\
    forall d, In d (runtimeDrivers m) <-> In d ["http"; "connect"].
Proof.
  pose proof (NewExecutor_drivers true ["http"; "connect"]) as H.
  cbv zeta in H. destruct H as (_ & _ & H).
  apply H; [| reflexivity].
  constructor; [intros [Heq | []]; discriminate Heq |].
  constructor; [intros [] | constructor].
Defined.
(** ** Finished invocations: a deleted pause is not resumed *)

Lemma count_calls_cons (n : string) (ev : event) (tr : trace) :
  count_calls n (ev :: tr) =
  ((if String.eqb (call_name (ev_call ev)) n then 1 else 0) + count_calls n tr)%nat.
Proof.
  unfold count_calls. cbn [filter].
  destruct (String.eqb (call_name (ev_call ev)) n); reflexivity.
Qed.

Section InvokeFinish.
Context {X : Externals} (e : executor).

Lemma Resume_keeps_pause pause r (pre : trace) :
  count_calls "sm.DeletePause" pre = 0%nat ->
  wpt (Resume e pause r) (fun tr o => deletes_or_resumes (pre ++ tr)%list o).
Proof.
  intro Hpre. eapply wpt_conseq; [| apply Resume_footprint].
  intros tr o Hin. unfold within in Hin.
  assert (Hz : count_calls "sm.DeletePause" (pre ++ tr)%list = 0%nat).
  { rewrite count_calls_app, Hpre.
    rewrite (calls_only_count _ "sm.DeletePause" tr Hin); reflexivity. }
  unfold deletes_or_resumes. rewrite Hz. split; [lia | discriminate].
Qed.

Lemma HandleInvokeFinish_deletes evt :
  wpt (HandleInvokeFinish e evt) deletes_or_resumes.
Proof.
  unfold HandleInvokeFinish.
  destruct (String.eqb _ ""); [split; [apply Nat.le_0_l | discriminate] |].
  cbn [bind call wpt]. intros [err | pause].
  { split; [apply Nat.le_0_l | discriminate]. }
  cbn [bind call wpt]. intro now.
  destruct (time_Before (p_Expires pause) now).
  { cbn [bind call wpt]. intro x. split; [apply Nat.le_refl |].
    intros _. split; reflexivity. }
  destruct (p_Cancel pause).
  - cbn [bind call wpt]. intro ex.
    destruct (negb (fst ex) && negb (isSome (snd ex))).
    + cbn [bind call wpt]. intro x. split; [apply Nat.le_refl |].
      intros _. split; reflexivity.
    + match goal with
      | |- wpt _ (fun tr o => deletes_or_resumes (?a :: ?b :: ?c :: tr) o) =>
          apply (Resume_keeps_pause _ _ [a; b; c])
      end. reflexivity.
  - cbn [bind call wpt].
    match goal with
    | |- wpt _ (fun tr o => deletes_or_resumes (?a :: ?b :: tr) o) =>
        apply (Resume_keeps_pause _ _ [a; b])
    end. reflexivity.
Qed.

End InvokeFinish.

(** X26.  Whatever the store answers, [HandleInvokeFinish] deletes the pause
    of a finished invocation at most once, and a pause it deletes (expired,
    or a cancellation whose run is gone) is not resumed: the call then
    returns nil and has only looked the pause up, read the clock, asked
    whether the run exists and deleted the pause; it has not leased or
    consumed the pause and has enqueued nothing. *)
Theorem HandleInvokeFinish_deletes_or_resumes {X : Externals} (e : executor) {W : Type}
  (h : handler W) (w : W) (evt : TrackedEvent) :
  deletes_or_resumes (trace_of (interp h (HandleInvokeFinish e evt) w))
                     (result_of (interp h (HandleInvokeFinish e evt) w)).
Proof. exact (wpt_sound h _ _ w (HandleInvokeFinish_deletes e evt)). Qed.

(** ** Matching pauses: what attempted counts *)

Lemma acquired_app (t1 t2 : trace) :
  acquired (t1 ++ t2)%list = (acquired t1 ++ acquired t2)%list.
Proof. apply flat_map_app. Qed.

Lemma acquired_quiet (names : list string) (tr : trace) :
  name_in names "sem.Acquire" = false -> calls_only names tr = true -> acquired tr = [].
Proof.
  intros Hn Htr. apply (calls_only_flat_map names acquired_by tr); [| exact Htr].
  intros [T c x] Hc. destruct c; try reflexivity.
  cbn in Hc. congruence.
Qed.

Section Attempted.
Context {X : Externals} (e : executor).

Lemma naive_pause_body_footprint evt pause acc :
  wpt (naive_pause e evt pause acc) (within pause_body_calls).
Proof. unfold naive_pause. fp. Qed.

Lemma naive_pause_attempted evt pause acc :
  wpt (naive_pause e evt pause acc)
      (fun tr o => acquired tr = [] /\
                   forall acc', o = Returned acc' -> counts_step acc acc').
Proof.
  apply wpt_and.
  - eapply wpt_conseq; [| apply naive_pause_body_footprint].
    intros tr o Hin. apply (acquired_quiet pause_body_calls tr eq_refl Hin).
  - apply naive_pause_counts.
Qed.

(** The copy of attempted taken while goroutines run: every goroutine
    started is counted but those, at most [running], that have not yet
    added to the counter. *)
Lemma racy_counters_attempted (started : list bool) :
  forall (marks : list Progress) (running : nat) (lo n : Z) (res : HandlePauseResult),
    0 <= lo <= fst res -> fst res <= n ->
    n + Z.of_nat (List.length started) < 2147483648 ->
    lo + Z.of_nat (List.length started) - Z.of_nat running
    <= fst (racy_counters started marks running res)
    <= n + Z.of_nat (List.length started).
Proof.
  induction started as [| consumes started IH]; intros marks running lo n res Hlo Hn Hbound.
  - cbn. lia.
  - cbn [List.length] in *. rewrite Nat2Z.inj_succ in *.
    assert (Hatt : fst (inc_attempted res) = fst res + 1).
    { unfold inc_attempted. cbn [fst]. apply int32_wrap_small. lia. }
    cbn [racy_counters].
    set (fin := if consumes then inc_consumed (inc_attempted res)
                else inc_attempted res).
    assert (Hfin : fst fin = fst res + 1).
    { subst fin. destruct consumes; [unfold inc_consumed; cbn [fst] |]; exact Hatt. }
    assert (Hf : forall ms r,
               lo + 1 + Z.of_nat (List.length started) - Z.of_nat r
               <= fst (racy_counters started ms r fin)
               <= n + 1 + Z.of_nat (List.length started)).
    { intros ms r. apply IH; lia. }
    assert (Hc : forall ms r,
               lo + 1 + Z.of_nat (List.length started) - Z.of_nat r
               <= fst (racy_counters started ms r (inc_attempted res))
               <= n + 1 + Z.of_nat (List.length started)).
    { intros ms r. apply IH; lia. }
    assert (Hs : forall ms r,
               lo + Z.of_nat (List.length started) - Z.of_nat r
               <= fst (racy_counters started ms r res)
               <= n + 1 + Z.of_nat (List.length started)).
    { intros ms r. apply IH; lia. }
    destruct marks as [| [| |] marks]; [| destruct running | destruct running |].
    + specialize (Hf [] running). lia.
    + specialize (Hf marks 0%nat). lia.
    + specialize (Hs marks running). rewrite Nat2Z.inj_succ. lia.
    + specialize (Hf marks 0%nat). lia.
    + specialize (Hc marks running). rewrite Nat2Z.inj_succ. lia.
    + specialize (Hf marks running). lia.
Qed.

Lemma naive_loop_attempted evt (vals : list (option Pause)) :
  forall (n : nat) (st : NaiveState),
    fst (fst (fst st)) = Z.of_nat n ->
    List.length (snd st) = n ->
    Z.of_nat (n + List.length vals) < 2147483648 ->
    wpt (naive_loop e evt vals st)
        (fun tr o => forall r, o = Returned r -> attempted_post n vals tr r).
Proof.
  induction vals as [| pause vals IH]; intros n st Hn Hlen Hbound; cbn [naive_loop].
  - cbn. intros r Hr. inversion Hr. subst r. cbn.
    split; [reflexivity | rewrite Hn; f_equal; lia].
  - cbn [wpt bind call]. intros [er |].
    + cbn [wpt bind call]. intros marks r Hr. inversion Hr. subst r.
      cbn [attempted_post].
      exists 0%nat, er. cbn [List.length repeat app fst snd].
      split; [lia |]. split; [reflexivity |]. split; [| reflexivity].
      pose proof (racy_counters_attempted (snd st) marks PauseHandleConcurrency 0 0 (0, 0))
        as Hracy.
      cbn [fst] in Hracy. rewrite Hlen in Hracy.
      specialize (Hracy ltac:(lia) ltac:(lia) ltac:(lia)).
      rewrite Nat.add_0_r. lia.
    + apply wpt_bind. eapply wpt_conseq; [| apply naive_pause_attempted].
      cbn beta. intros t1 [acc' | m] [Hq Hstep].
      * specialize (Hstep acc' eq_refl). destruct Hstep as [Hfst _].
        rewrite Hn in Hfst. rewrite int32_wrap_small in Hfst
          by (cbn [List.length] in Hbound; lia).
        eapply wpt_conseq; [| apply (IH (S n))].
        -- cbn beta. intros t2 o Ho r Hr. specialize (Ho r Hr).
           change (Ev sem_Acquire None :: (t1 ++ t2))%list
             with ([Ev sem_Acquire None] ++ (t1 ++ t2))%list.
           unfold attempted_post in *. rewrite !acquired_app, Hq.
           cbn [acquired flat_map acquired_by app List.length repeat].
           destruct r as [st2 | [res er2]].
           ++ destruct Ho as [Hacq Hres]. split.
              ** f_equal. exact Hacq.
              ** rewrite Hres. f_equal. lia.
           ++ destruct Ho as (k & er & Hk & Hacq & Hres & Her).
              exists (S k), er. split; [lia |].
              split; [cbn [repeat app]; f_equal; exact Hacq |].
              split; [| exact Her].
              replace (n + S k)%nat with (S n + k)%nat by lia. exact Hres.
        -- cbn [fst snd]. rewrite Hfst. lia.
        -- cbn [fst snd]. rewrite length_app, Hlen. cbn [List.length]. lia.
        -- cbn [List.length] in Hbound. lia.
      * intros r Hr. discriminate Hr.
Qed.

Lemma handlePausesAllNaively_attempts (iter : PauseIterator) (evt : TrackedEvent) :
  has_queue e = true -> has_sm e = true ->
  Z.of_nat (List.length (iter_Vals iter)) < 2147483648 ->
  wpt (handlePausesAllNaively e iter evt)
      (fun tr o =>
         forall res err, o = Returned (res, err) ->
           match err with
           | Some er => attempted_post 0 (iter_Vals iter) tr (inr (res, er))
           | None => False
           end \/
           attempted_post 0 (iter_Vals iter) tr (inl ((res, None), []))).
Proof.
  intros Hq Hsm Hbound. unfold handlePausesAllNaively, handlePausesAllNaively_from. rewrite Hq, Hsm. cbn [negb orb].
  apply wpt_bind. eapply wpt_conseq;
    [| apply (naive_loop_attempted evt (iter_Vals iter) 0 (((0, 0), None), [])
                eq_refl eq_refl Hbound)].
  cbn beta. intros t1 [[[[res goerr] started] | [res er]] | m] Hloop.
  - specialize (Hloop _ eq_refl). cbn [naive_end wpt]. intros res' err' H.
    inversion H. subst. right. rewrite List.app_nil_r. exact Hloop.
  - specialize (Hloop _ eq_refl). cbn [naive_end wpt]. intros res' err' H.
    inversion H. subst. left. rewrite List.app_nil_r. exact Hloop.
  - intros res' err' H. discriminate H.
Qed.

End Attempted.

(** X27.  The first counter that [handlePausesAllNaively] returns counts the
    values of the iterator that the semaphore let through, whatever became of
    them: nil values, expired pauses and pauses that did not match count as
    well.  When the semaphore never fails it is the number of values of the
    iterator.  When the semaphore fails at value [k] (from 0) the function
    returns without waiting for the goroutines it started, with an error
    that wraps the error of the semaphore: the counter is then at most [k],
    and short of [k] by no more than the [PauseHandleConcurrency] goroutines
    that may still be running.  The counter is an [int32], so this is stated
    for fewer than 2^31 values. *)
Theorem handlePausesAllNaively_attempted {X : Externals} (e : executor) {W : Type}
  (h : handler W) (w w' : W) (iter : PauseIterator) (evt : TrackedEvent)
  (res : HandlePauseResult) (err : option error) (tr : trace) :
  has_queue e = true -> has_sm e = true ->
  Z.of_nat (List.length (iter_Vals iter)) < 2147483648 ->
  interp h (handlePausesAllNaively e iter evt) w = (Returned (res, err), w', tr) ->
  (acquired tr = repeat None (List.length (iter_Vals iter)) /\
   fst res = Z.of_nat (List.length (iter_Vals iter))) \/
  (exists (k : nat) (er : error),
     (k < List.length (iter_Vals iter))%nat /\
     acquired tr = (repeat None k ++ [Some er])%list /\
     Z.of_nat k - Z.of_nat PauseHandleConcurrency <= fst res <= Z.of_nat k /\
     err = Some (Errorf "error blocking on semaphore" er)).
Proof.
  intros Hq Hsm Hbound Hrun.
  pose proof (wpt_run h _ _ w w' _ tr
                (handlePausesAllNaively_attempts e iter evt Hq Hsm Hbound) Hrun
                res err eq_refl) as H.
  destruct H as [H | H].
  - destruct err as [er |]; [| contradiction]. right.
    destruct H as (k & er' & Hk & Hacq & Hres & Her).
    cbn [Nat.add] in Hres. subst er.
    exists k, er'. split; [exact Hk |]. split; [exact Hacq |].
    split; [exact Hres | reflexivity].
  - left. exact H.
Qed.

(** The sample iterator yields a live pause, an expired pause and a nil
    value: three attempted. *)
Lemma handlePausesAllNaively_attempted_witness :
  match result_of (interp (Sample.calm RunStatusRunning Sample.no_outputs)
                     (handlePausesAllNaively (X := Sample.externals) Sample.exec
                        Sample.iterator Sample.later) 0%nat) with
  | Returned (res, _) => fst res = 3
  | Panicked _ => False
  end.
Proof.
  destruct (interp (Sample.calm RunStatusRunning Sample.no_outputs)
              (handlePausesAllNaively (X := Sample.externals) Sample.exec
                 Sample.iterator Sample.later) 0%nat) as [[o w'] tr] eqn:Hrun.
  assert (Ho : exists res err, o = Returned (res, err) /\
                               Forall (fun a => a = None) (acquired tr)).
  { vm_compute in Hrun. inversion Hrun. eexists. eexists.
    split; [reflexivity | repeat constructor]. }
  destruct Ho as (res & err & -> & Hnone). unfold result_of. cbn [fst].
  destruct (handlePausesAllNaively_attempted (X := Sample.externals) Sample.exec
              (Sample.calm RunStatusRunning Sample.no_outputs) 0%nat w'
              Sample.iterator Sample.later res err tr eq_refl eq_refl)
    as [[_ Hres] | (k & er & _ & Hacq & _)];
    [vm_compute; reflexivity | exact Hrun | exact Hres |].
  exfalso. rewrite Hacq in Hnone. apply Forall_app in Hnone.
  destruct Hnone as [_ Hlast]. inversion Hlast as [| ? ? Hhd _]. discriminate Hhd.
Defined.
